(** * Career-Fair-App-V2: the state-synchronisation and merge engine

    A shallow embedding of the pandas code of [app_capgemini.py],
    [app_schneider.py] and [utils.py]: record keys, the schema normaliser,
    the three-way merge, the flush to the remote store, the save policy of
    one evaluation pass, the editor path (the delta built from the data
    editor and its optimistic application), the remote poll, the
    persisted CSV format, the shared link, and [normalize_base_df],
    [merge_base_state] and [update_flag] of utils.py.

    Python strings are lists of Unicode code points; a data frame is a set
    of column names with a list of rows, each row a finite map from column
    name to cell (a missing entry reads as NaN, as pandas does for ragged
    rows). *)

From Stdlib Require Import QArith Qround Lqa.
From stdpp Require Import gmap strings list sorting pretty.

Local Open Scope Z_scope.
Local Open Scope string_scope.
Local Open Scope list_scope.
Local Open Scope general_if_scope.

(** ** Python text *)

(** A Python [str]: its code points. *)
Abbreviation pystr := (list N).

(** An ASCII literal of the source, as code points. *)
Definition lit (s : string) : pystr :=
  Ascii.N_of_ascii <$> String.list_ascii_of_string s.

(** [str.strip()] over a given whitespace predicate. *)
Fixpoint lstrip_with (sp : N → bool) (s : pystr) : pystr :=
  match s with
  | [] => []
  | c :: s' => if sp c then lstrip_with sp s' else s
  end.

Definition rstrip_with (sp : N → bool) (s : pystr) : pystr :=
  reverse (lstrip_with sp (reverse s)).

Definition strip_with (sp : N → bool) (s : pystr) : pystr :=
  rstrip_with sp (lstrip_with sp s).

(** The ASCII part of [str.isspace] and [str.lower]. *)
Definition ascii_isspace (c : N) : bool :=
  ((9 <=? c) && (c <=? 13) || (28 <=? c) && (c <=? 32))%N.

Definition ascii_lower (c : N) : N :=
  if ((65 <=? c) && (c <=? 90))%N then (c + 32)%N else c.

(** [unicodedata.normalize("NFKD", s)] followed by the removal of the
    combining marks, as [_norm] does it. *)
Definition unaccent_with (nfkd : pystr → pystr) (comb : N → bool)
    (s : pystr) : pystr :=
  filter (λ ch, comb ch = false) (nfkd s).

(** The Unicode character database that CPython consults: an interface
    of the interpreter, not code of this repository.  The laws are the
    facts about it that the development uses: the ASCII rows of the
    tables, that lower-casing leaves leading and trailing whitespace
    alone, and that a whitespace character decomposes to whitespace. *)
Class Unicode := {
  py_isspace : N → bool;
  py_lower : pystr → pystr;
  py_nfkd : pystr → pystr;
  py_combining : N → bool;
  isspace_ascii : ∀ c, (c < 128)%N → py_isspace c = ascii_isspace c;
  lower_ascii : ∀ s,
    Forall (λ c, (c < 128)%N) s → py_lower s = ascii_lower <$> s;
  lower_strip : ∀ s,
    py_lower (strip_with py_isspace s) = strip_with py_isspace (py_lower s);
  unaccent_strip : ∀ s,
    strip_with py_isspace
      (unaccent_with py_nfkd py_combining (strip_with py_isspace s))
    = strip_with py_isspace (unaccent_with py_nfkd py_combining s)
}.

Definition strip `{Unicode} : pystr → pystr := strip_with py_isspace.
Definition unaccent `{Unicode} : pystr → pystr :=
  unaccent_with py_nfkd py_combining.

(** Python's [<=] on [str]: lexicographic on code points. *)
Fixpoint str_leb (a b : pystr) : bool :=
  match a, b with
  | [], _ => true
  | _ :: _, [] => false
  | x :: a', y :: b' =>
      if (x <? y)%N then true
      else if (y <? x)%N then false
      else str_leb a' b'
  end.

(** ** Spellings of one name

    [b] is [a] with white space before and after; [a] and [b] differ
    only by letter case; [a] and [b] agree once the diacritics are
    removed and the letters lower-cased. *)
Section Variants.
Context `{Unicode}.

Definition padded (a b : pystr) : Prop :=
  ∃ l r, Forall (λ c, py_isspace c = true) l ∧
         Forall (λ c, py_isspace c = true) r ∧ b = l ++ a ++ r.

Definition same_letters (a b : pystr) : Prop := py_lower a = py_lower b.

Definition same_base_letters (a b : pystr) : Prop :=
  py_lower (unaccent a) = py_lower (unaccent b).

Definition same_unaccented (a b : pystr) : Prop := unaccent a = unaccent b.

(** Differing only by surrounding white space; by that or letter case;
    by those or diacritics: the equivalences generated by the relations
    above. *)
Definition ws_variant : relation pystr := rtsc padded.

Definition case_ws_variant : relation pystr :=
  rtsc (λ a b, padded a b ∨ same_letters a b).

Definition accent_case_ws_variant : relation pystr :=
  rtsc (λ a b, padded a b ∨ same_base_letters a b).

End Variants.

(** ** Cells and data frames *)

(** A scalar held in a data-frame cell.  [COther] is any other scalar (a
    float that is not NaN, say), known by the text [str()] gives it. *)
Inductive cell :=
  | CStr (s : pystr)
  | CNaN
  | CBool (b : bool)
  | CInt (z : Z)
  | COther (repr : pystr).

Global Instance cell_eq_dec : EqDecision cell.
Proof. solve_decision. Defined.

(** [Series.astype(str)] on one cell. *)
Definition str_of_cell (c : cell) : pystr :=
  match c with
  | CStr s => s
  | CNaN => lit "nan"
  | CBool true => lit "True"
  | CBool false => lit "False"
  | CInt z => lit (pretty z)
  | COther r => r
  end.

(** [Series.isna] and [Series.fillna("")] on one cell. *)
Definition isna (c : cell) : bool :=
  match c with CNaN => true | _ => false end.

Definition fillna (d : cell) (c : cell) : cell :=
  if isna c then d else c.

Abbreviation row := (gmap string cell).

Record DataFrame := {
  columns : gset string;
  rows : list row
}.

Global Instance DataFrame_eq_dec : EqDecision DataFrame.
Proof. solve_decision. Defined.

(** [c in df] *)
Definition has_column (c : string) (df : DataFrame) : bool :=
  bool_decide (c ∈ columns df).

(** The cell of a row under a column. *)
Definition get_cell (r : row) (c : string) : cell :=
  default CNaN (r !! c).

(** [df[c] = series], the series given row by row. *)
Definition set_column (c : string) (f : row → cell) (df : DataFrame)
    : DataFrame :=
  {| columns := {[c]} ∪ columns df;
     rows := (λ r, <[c := f r]> r) <$> rows df |}.

(** [df[[c1, ..., cn]]] *)
Definition project (cs : list string) (r : row) : row :=
  list_to_map ((λ c, (c, get_cell r c)) <$> cs).

Definition select (cs : list string) (df : DataFrame) : DataFrame :=
  {| columns := list_to_set cs; rows := project cs <$> rows df |}.

(** ** Column names (shared by the three modules of the source) *)

Definition FIRST := "first_name".
Definition LAST := "last_name".
Definition FILE := "file_name".
Definition SEEN := "seen".
Definition INT := "intend_view".
Definition SAVE := "cv_saved".
Definition CONT := "contacted".
Definition BOOL_COLS := [SEEN; INT; SAVE; CONT].
Definition TEXT_COLS := [FIRST; LAST; FILE].
Definition ALL_COLS := TEXT_COLS ++ BOOL_COLS.

(** ** The canonical table of the specification

    A record of the data model (three text fields, four flags), the row
    that holds it, and the table of a list of records. *)
Record candidate := {
  first_name : pystr;
  last_name : pystr;
  file_name : pystr;
  seen : bool;
  intend_view : bool;
  cv_saved : bool;
  contacted : bool
}.

Definition row_of (x : candidate) : row :=
  list_to_map
    [ (FIRST, CStr (first_name x)); (LAST, CStr (last_name x));
      (FILE, CStr (file_name x));
      (SEEN, CBool (seen x)); (INT, CBool (intend_view x));
      (SAVE, CBool (cv_saved x)); (CONT, CBool (contacted x)) ].

Definition table_of (xs : list candidate) : DataFrame :=
  {| columns := list_to_set (TEXT_COLS ++ BOOL_COLS);
     rows := row_of <$> xs |}.

(** ** Code shared verbatim by [app_capgemini.py] and [app_schneider.py] *)

Module App.
Section App.
Context `{Unicode}.

(** The dictionary handed to [ser.map] in [_ensure_schema]. *)
Definition flag_words : list (pystr * bool) :=
  [ (lit "true", true); (lit "1", true); (lit "yes", true); (lit "y", true);
    (lit "false", false); (lit "0", false); (lit "no", false);
    (lit "n", false) ].

Fixpoint assoc (k : pystr) (l : list (pystr * bool)) : option bool :=
  match l with
  | [] => None
  | (k', v) :: l' => if decide (k = k') then Some v else assoc k l'
  end.

(** [astype(str).str.strip().str.lower()], [.map(...)], [.fillna(False)],
    [.astype(bool)] on one cell of a flag column. *)
Definition flag_of (c : cell) : bool :=
  default false (assoc (py_lower (strip (str_of_cell c))) flag_words).

Definition ensure_text (df : DataFrame) (c : string) : DataFrame :=
  if has_column c df then df else set_column c (λ _, CStr (lit "")) df.

Definition ensure_flag (df : DataFrame) (c : string) : DataFrame :=
  if has_column c df
  then set_column c (λ r, CBool (flag_of (get_cell r c))) df
  else set_column c (λ _, CBool false) df.

Definition _ensure_schema (df : DataFrame) : DataFrame :=
  let df := foldl ensure_text df TEXT_COLS in
  let df := foldl ensure_flag df BOOL_COLS in
  select (TEXT_COLS ++ BOOL_COLS) df.

(** One component of [_key]: [fillna("").astype(str).str.strip()], then
    [.str.lower()] for the two names only. *)
Definition key_text (c : cell) : pystr :=
  strip (str_of_cell (fillna (CStr (lit "")) c)).

Definition key_of (first last file : cell) : pystr :=
  py_lower (key_text first) ++ lit "||" ++
  py_lower (key_text last) ++ lit "||" ++ key_text file.

(** [_key(df_like)]: the key of every row, in row order. *)
Definition _key (df : DataFrame) : list pystr :=
  (λ r, key_of (get_cell r FIRST) (get_cell r LAST) (get_cell r FILE))
    <$> rows df.

End App.
End App.

(** [_reset_grid]: the frame that becomes [st.session_state.grid_df];
    [None] when the view lacks one of the seven columns and the
    selection raises.  (The editor's widget state is dropped and the
    filter key stored besides; neither is part of the embedding.) *)
Definition _reset_grid (view_df : DataFrame) : option DataFrame :=
  if forallb (λ c, has_column c view_df) (TEXT_COLS ++ BOOL_COLS)
  then Some (select (TEXT_COLS ++ BOOL_COLS) view_df)
  else None.

(** [_force_dl1], shared by the two apps. *)

(** The text after a prefix, if the text starts with it. *)
Fixpoint after_prefix (p s : pystr) : option pystr :=
  match p, s with
  | [], _ => Some s
  | _ :: _, [] => None
  | x :: p', y :: s' => if decide (x = y) then after_prefix p' s' else None
  end.

(** [s.partition(sep)] when [sep] occurs in [s]: the text before and the
    text after its first occurrence; [None] when [sep in s] is false. *)
Fixpoint py_partition (sep s : pystr) : option (pystr * pystr) :=
  match after_prefix sep s with
  | Some rest => Some ([], rest)
  | None =>
      match s with
      | [] => None
      | c :: s' => (λ ab, (c :: ab.1, ab.2)) <$> py_partition sep s'
      end
  end.

(** [url] is [None] or a [str]. *)
Definition _force_dl1 (url : option pystr) : option pystr :=
  match url with
  | None => None
  | Some [] => Some []
  | Some url =>
      match py_partition (lit "dl=") url with
      | Some (base, tail) =>
          let rest := from_option snd [] (py_partition (lit "&") tail) in
          Some (base ++ lit "dl=1" ++
                (if decide (rest = []) then [] else lit "&" ++ rest))
      | None =>
          Some (url ++
                match py_partition (lit "?") url with
                | Some _ => lit "&"
                | None => lit "?"
                end ++
                lit "dl=1")
      end
  end.

(** ** Exceptions *)

(** The outcome of a call that may raise; the exception is kept as the
    text [str(e)] gives it. *)
Inductive result (A : Type) :=
  | Ok (a : A)
  | Raise (e : string).
Arguments Ok {A} a.
Arguments Raise {A} e.

Global Instance result_bind : MBind result := λ A B f m,
  match m with
  | Ok a => f a
  | Raise e => Raise e
  end.

Global Instance result_fmap : FMap result := λ A B f m,
  match m with
  | Ok a => Ok (f a)
  | Raise e => Raise e
  end.

(** ** Nullable booleans: the masks of the merge *)

(** pandas compares nullable columns in Kleene logic: [None] is [<NA>]. *)
Definition and3 (a b : option bool) : option bool :=
  match a, b with
  | Some false, _ | _, Some false => Some false
  | Some true, Some true => Some true
  | _, _ => None
  end.

Definition not3 (a : option bool) : option bool := negb <$> a.

(** [x != y] on nullable values. *)
Definition ne3 {A} `{EqDecision A} (x y : option A) : option bool :=
  match x, y with
  | Some a, Some b => Some (bool_decide (a ≠ b))
  | _, _ => None
  end.

(** A nullable mask used as an indexer selects where it is [True]; [<NA>]
    selects nothing. *)
Definition selects (m : option bool) : bool := default false m.

(** ** Index algebra of pandas *)

Definition str_le : relation pystr := λ a b, Is_true (str_leb a b).

Global Instance str_le_dec : RelDecision str_le.
Proof. intros a b. unfold str_le. apply _. Defined.

(** Removal of one occurrence. *)
Fixpoint remove1 (x : pystr) (l : list pystr) : list pystr :=
  match l with
  | [] => []
  | y :: l' => if decide (x = y) then l' else y :: remove1 x l'
  end.

(** [Index.union] (with [sort=None]): the index itself when the other is
    empty or equal, the other when the index is empty, and otherwise the
    sorted union in which a repeated label keeps the larger of its two
    multiplicities. *)
Definition index_union (a b : list pystr) : list pystr :=
  if decide (b = [] ∨ a = b) then a
  else if decide (a = []) then b
  else merge_sort str_le (a ++ foldl (λ acc x, remove1 x acc) b a).

(** A frame after [set_index("_k")]: label and row, in row order. *)
Abbreviation indexed := (list (pystr * row)).

Definition first_with_label (k : pystr) (d : indexed) : row :=
  default ∅ (snd <$> head (filter (λ p, p.1 = k) d)).

(** [DataFrame.reindex(idx)]: a copy when the index is identical to
    [idx]; an error when the frame's labels repeat; otherwise the row of
    each label of [idx], all NaN (the empty row) for a label the frame
    lacks. *)
Definition reindex (d : indexed) (idx : list pystr) : result (list row) :=
  if decide (d.*1 = idx) then Ok d.*2
  else if decide (NoDup d.*1)
       then Ok ((λ k, first_with_label k d) <$> idx)
       else Raise "cannot reindex on an axis with duplicate labels".

(** ** The persisted format *)

(** What [to_csv] is about to write: the header row and the records,
    field by field.  The text that the writer makes of them, and the
    reading of such a text, are in Module Csv below. *)
Record csv := {
  header : list string;
  records : list (list pystr)
}.

Global Instance csv_eq_dec : EqDecision csv.
Proof. solve_decision. Defined.

(** What [to_csv] writes for one cell: text as it is, a missing value as
    the empty field, a number or a boolean by [str()]. *)
Definition field_of_cell (c : cell) : pystr :=
  if isna c then lit "" else str_of_cell c.

(** [out.to_csv(bio, index=False)] for a frame whose columns are, in
    order, [cols]. *)
Definition to_csv (cols : list string) (df : DataFrame) : csv :=
  {| header := cols;
     records := (λ r, (λ c, field_of_cell (get_cell r c)) <$> cols)
                  <$> rows df |}.

(** [out[c] = out[c].astype(int)] on a column of booleans. *)
Definition int_of_flag (c : cell) : cell :=
  match c with
  | CBool true => CInt 1
  | CBool false => CInt 0
  | c => c
  end.

Definition flags_astype_int (df : DataFrame) : DataFrame :=
  foldl (λ d c, set_column c (λ r, int_of_flag (get_cell r c)) d)
        df BOOL_COLS.

(** What both apps upload for a table, as header and records: the
    lines from [out = _ensure_schema(...)] to [out.to_csv(bio, ...)]. *)
Definition serialize `{Unicode} (df : DataFrame) : csv :=
  to_csv (TEXT_COLS ++ BOOL_COLS) (flags_astype_int (App._ensure_schema df)).

(** ** What a pass shows and sends *)

Inductive event :=
  | EUpload (payload : csv)
  | EToast (text : string)
  | EWarning (text : string)
  | EError (text : string)
  | EInfo (text : string).

Global Instance event_eq_dec : EqDecision event.
Proof. solve_decision. Defined.

Definition is_upload (e : event) : bool :=
  match e with EUpload _ => true | _ => false end.

(** The call sites of [_flush_to_disk] in one evaluation pass. *)
Inductive site :=
  FilterOn | FilterOff | Autosave | SaveNow | Periodic | ClearSearch.

(** [now - last >= d] on clock readings. *)
Definition elapsed (now last d : Q) : bool := Qle_bool d (now - last).

(** ** The data editor's state and the pandas operations of the editor path *)

(** A value that the widget state of [st.data_editor] holds for an
    edited cell: a JSON scalar other than a float. *)
Inductive value :=
  | VBool (b : bool)
  | VStr (s : pystr)
  | VInt (z : Z)
  | VNull.

(** [bool(val)] and [str(val)] *)
Definition bool_of_value (v : value) : bool :=
  match v with
  | VBool b => b
  | VStr s => negb (bool_decide (s = []))
  | VInt z => negb (bool_decide (z = 0))
  | VNull => false
  end.

Definition str_of_value (v : value) : pystr :=
  match v with
  | VBool true => lit "True"
  | VBool false => lit "False"
  | VStr s => s
  | VInt z => lit (pretty z)
  | VNull => lit "None"
  end.

(** [edited_rows]: the position of a grid row and the changes made to
    it, column by column, in the order of the two dicts. *)
Abbreviation edits := (list (Z * list (string * value))).

(** [df.empty] *)
Definition empty (df : DataFrame) : bool :=
  bool_decide (rows df = []) || bool_decide (columns df = ∅).

(** [left.merge(right, on="_k", how="left")] on frames given with their
    key columns: every left row in order, once for each right row that
    has its key (in the right frame's order), or once with no partner. *)
Definition left_join (left right : indexed) : list (row * option row) :=
  left ≫= λ kr,
    match filter (λ p, p.1 = kr.1) right with
    | [] => [(kr.2, None)]
    | ms => (λ p, (kr.2, Some p.2)) <$> ms
    end.

(** [new.combine_first(old)] on one cell. *)
Definition combine_first (new old : cell) : cell :=
  if isna new then old else new.

(** The cell of the joined row under [c_new]: the partner's cell under
    [c], NaN without partner. *)
Definition new_cell (m : option row) (c : string) : cell :=
  from_option (λ m, get_cell m c) CNaN m.

(** [Series.astype(bool)] on one cell of an object column that is no
    missing value: Python truthiness.  (A missing value is left out: NaN
    is true and [pd.NA] raises, and a cell does not tell them apart.) *)
Definition astype_bool (c : cell) : option bool :=
  match c with
  | CStr s => Some (negb (bool_decide (s = [])))
  | CNaN => None
  | CBool b => Some b
  | CInt z => Some (negb (bool_decide (z = 0)))
  | COther r => Some (negb (bool_decide (r ∈ [lit "0.0"; lit "-0.0"])))
  end.

(** The columns that [_apply_optimistic] adds and drops again. *)
Definition scratch_columns (cs : list string) : list string :=
  "_k" :: ((λ c, c +:+ "_new") <$> cs).

(** ** app_capgemini.py *)

Module Capgemini.
Section Merge.
Context `{Unicode}.

Definition _index_by_key (df : DataFrame) : indexed :=
  let d := App._ensure_schema df in
  zip (App._key d) (rows d).

(** [Series.astype("string")] and [Series.astype("boolean")] on one cell.
    The flag columns hold booleans once [_ensure_schema] has run. *)
Definition as_string (c : cell) : option pystr :=
  if isna c then None else Some (str_of_cell c).

Definition as_boolean (c : cell) : option bool :=
  match c with
  | CBool b => Some b
  | _ => None
  end.

(** The conflict entry [f"{c}@{idx}"]. *)
Definition conflict_entry (c : string) (k : pystr) : pystr :=
  lit c ++ lit "@" ++ k.

(** The body of [for c in TEXT_COLS], read at one index label: [b], [o]
    and [t] are the rows of base, ours and theirs under that label.
    pandas runs every statement on the whole column; no statement mixes
    labels. *)
Definition text_both (c : string) (b o t : row) : bool :=
  let b := as_string (get_cell b c) in
  let o := as_string (get_cell o c) in
  let t := as_string (get_cell t c) in
  selects (and3 (ne3 o b) (ne3 t b)).

Definition merge_text (c : string) (b o t : row) : cell :=
  let b := as_string (get_cell b c) in
  let o := as_string (get_cell o c) in
  let t := as_string (get_cell t c) in
  let changed_o := ne3 o b in
  let changed_t := ne3 t b in
  let only_o := and3 changed_o (not3 changed_t) in
  let only_t := and3 changed_t (not3 changed_o) in
  let both := and3 changed_o changed_t in
  let col := t in
  let col := if selects only_o then o else col in
  let col := if selects only_t then t else col in
  let col := if selects both then o else col in
  CStr (default (lit "") col).

(** The body of [for c in BOOL_COLS] at one index label. *)
Definition merge_flag (c : string) (b o t : row) : cell :=
  let isna_b := isna (get_cell b c) in
  let isna_o := isna (get_cell o c) in
  let isna_t := isna (get_cell t c) in
  let b := as_boolean (get_cell b c) in
  let o := as_boolean (get_cell o c) in
  let t := as_boolean (get_cell t c) in
  let changed_o := and3 (ne3 o b) (Some (negb (isna_o && isna_b))) in
  let changed_t := and3 (ne3 t b) (Some (negb (isna_t && isna_b))) in
  let only_o := and3 changed_o (not3 changed_t) in
  let only_t := and3 changed_t (not3 changed_o) in
  let both := and3 changed_o changed_t in
  let col := t in
  let col := if selects only_o then o else col in
  let col := if selects only_t then t else col in
  let col := if selects both
             then Some (default false o || default false t) else col in
  CBool (default false col).

(** The output row under one label. *)
Definition merge_row (bot : row * (row * row)) : row :=
  let '(b, (o, t)) := bot in
  list_to_map
    (((λ c, (c, merge_text c b o t)) <$> TEXT_COLS) ++
     ((λ c, (c, merge_flag c b o t)) <$> BOOL_COLS)).

(** The entries that the loop iteration of text column [c] appends to
    [conflicts]: the labels where [both] holds, in index order. *)
Definition conflicts_of (c : string) (idx : list pystr)
    (rs : list (row * (row * row))) : list pystr :=
  conflict_entry c <$>
    (fst <$> filter (λ p, text_both c p.2.1 p.2.2.1 p.2.2.2 = true)
               (zip idx rs)).

(** [B.index.union(O.index).union(T.index)] *)
Definition all_idx (B O T : indexed) : list pystr :=
  index_union (index_union B.*1 O.*1) T.*1.

Definition _three_way_merge (base ours theirs : DataFrame)
    : result (DataFrame * list pystr) :=
  let B := _index_by_key base in
  let O := _index_by_key ours in
  let T := _index_by_key theirs in
  let idx := all_idx B O T in
  B ← reindex B idx;
  O ← reindex O idx;
  T ← reindex T idx;
  let rs := zip B (zip O T) in
  let out := {| columns := list_to_set (TEXT_COLS ++ BOOL_COLS);
                rows := merge_row <$> rs |} in
  let conflicts := mjoin ((λ c, conflicts_of c idx rs) <$> TEXT_COLS) in
  Ok (out, conflicts).

End Merge.

Section Flush.
Context `{Unicode}.

(** The session state the flush and the save policy touch.
    [last_batch_write] and [buffer_dirty] exist only once a flush has
    set them. *)
Record session := {
  df : DataFrame;
  base_df : option DataFrame;
  last_batch_write : option Q;
  buffer_dirty : option bool;
  last_auto_save : Q;
  _want_save : bool;
  prev_filter : bool
}.

Definition with_df (x : DataFrame) (s : session) : session :=
  {| df := x; base_df := base_df s;
     last_batch_write := last_batch_write s; buffer_dirty := buffer_dirty s;
     last_auto_save := last_auto_save s; _want_save := _want_save s;
     prev_filter := prev_filter s |}.

Definition with_base_df (x : option DataFrame) (s : session) : session :=
  {| df := df s; base_df := x;
     last_batch_write := last_batch_write s; buffer_dirty := buffer_dirty s;
     last_auto_save := last_auto_save s; _want_save := _want_save s;
     prev_filter := prev_filter s |}.

Definition with_flush_flags (t : Q) (s : session) : session :=
  {| df := df s; base_df := base_df s;
     last_batch_write := Some t; buffer_dirty := Some false;
     last_auto_save := last_auto_save s; _want_save := _want_save s;
     prev_filter := prev_filter s |}.

Definition with_last_auto_save (t : Q) (s : session) : session :=
  {| df := df s; base_df := base_df s;
     last_batch_write := last_batch_write s; buffer_dirty := buffer_dirty s;
     last_auto_save := t; _want_save := _want_save s;
     prev_filter := prev_filter s |}.

Definition with_want_save (x : bool) (s : session) : session :=
  {| df := df s; base_df := base_df s;
     last_batch_write := last_batch_write s; buffer_dirty := buffer_dirty s;
     last_auto_save := last_auto_save s; _want_save := x;
     prev_filter := prev_filter s |}.

Definition with_prev_filter (x : bool) (s : session) : session :=
  {| df := df s; base_df := base_df s;
     last_batch_write := last_batch_write s; buffer_dirty := buffer_dirty s;
     last_auto_save := last_auto_save s; _want_save := _want_save s;
     prev_filter := x |}.

(** The remote store as one flush meets it: what the Dropbox download
    and the shared-link fetch hand to [pd.read_csv] (or the exception),
    the verdict of [_upload_with_auto_refresh] on a payload ([None] is
    success, [Some err] the error text), and [time.time()]. *)
Record world := {
  download : result DataFrame;
  fetch : result DataFrame;
  upload : csv → option string;
  clock : Q
}.

Definition _download_current_df_from_dbx (w : world) : result DataFrame :=
  App._ensure_schema <$> download w.

Definition fetch_state_df (w : world) : result DataFrame :=
  App._ensure_schema <$> fetch w.

Definition _snapshot_base (s : session) : session :=
  with_base_df (Some (App._ensure_schema (df s))) s.

Definition conflict_warning (n : nat) : string :=
  "Conflits résolus automatiquement: " +:+ pretty n +:+
  " (vos valeurs gardées pour champs texte)".

Definition _flush_to_disk (ok_text err_text : string) (w : world)
    (s : session) : session * list event :=
  let fetched :=
    match _download_current_df_from_dbx w with
    | Ok d => Ok d
    | Raise _ => fetch_state_df w
    end in
  match fetched with
  | Raise e => (s, [EError (err_text +:+ ": " +:+ e)])
  | Ok remote_df =>
      let base := default remote_df (base_df s) in
      match _three_way_merge base (df s) remote_df with
      | Raise e => (s, [EError (err_text +:+ ": " +:+ e)])
      | Ok (merged, conflicts) =>
          let payload := serialize merged in
          let verdict := upload w payload in
          let s := with_flush_flags (clock w) s in
          match verdict with
          | None =>
              (_snapshot_base (with_df merged s),
               [EUpload payload] ++
               (if decide (conflicts = []) then []
                else [EWarning (conflict_warning (length conflicts))]) ++
               [EToast ok_text])
          | Some err =>
              (s, [EUpload payload; EError (err_text +:+ ": " +:+ err)])
          end
      end
  end.

(** What one pass reads from the page: the clock, whether a search
    filter is typed, whether "Save now" was clicked, the working table
    after [_apply_optimistic] when the editor holds pending edits
    ([None]: the delta is empty), and the same for the edits
    materialised when the filter is cleared.  The table that the
    optimistic applier returns is an input here; the applier itself is
    embedded in Section Editor below. *)
Record input := {
  now : Q;
  filter_active : bool;
  save_clicked : bool;
  pre_edited : option DataFrame;
  edited : option DataFrame
}.

(** Sequencing of two steps of the script. *)
Definition andthen (f g : session → session * list event)
    (s : session) : session * list event :=
  let '(s1, e1) := f s in
  let '(s2, e2) := g s1 in
  (s2, e1 ++ e2).

Definition skip (s : session) : session * list event := (s, []).

(** The script below the "Clear search" button, from the "Save now"
    button to the periodic auto-save: what a run does when "Clear
    search" was not clicked (a click there empties the search text and
    restarts the run without any flush; the remote poll that follows
    the auto-save is a separate trigger and uploads nothing). *)
Definition pass (i : input) (w : site → world)
    : session → session * list event :=
  andthen
    (λ s, (if save_clicked i then with_want_save true s else s, []))
  (andthen
    (λ s, if prev_filter s && negb (filter_active i)
          then _flush_to_disk "Saved changes before removing filter ✅"
                 "Save failed" (w FilterOff)
                 (from_option (λ d, with_df d s) s (pre_edited i))
          else skip s)
  (andthen
    (λ s, (with_prev_filter (filter_active i) s, []))
  (andthen
    (λ s, (from_option (λ d, with_df d s) s (edited i), []))
  (andthen
    (λ s, if _want_save s
          then _flush_to_disk "Saved ✅" "Save failed" (w SaveNow)
                 (with_want_save false s)
          else skip s)
    (λ s, if elapsed (now i) (last_auto_save s) 5
          then let '(s1, e) :=
                 _flush_to_disk "Saved ✅" "Auto-save failed"
                   (w Periodic) s in
               (with_last_auto_save (now i) s1, e)
          else skip s))))).

End Flush.

Section Poll.
Context `{Unicode}.

Definition HASH_CHECK_TTL_SEC : Q := 3.

(** The two session entries of the remote poll. *)
Record poll_state := {
  last_seen_hash : option string;
  last_hash_check : Q
}.

(** Truthiness of [rhash]: neither [None] nor the empty text. *)
Definition hash_given (rhash : option string) : bool :=
  match rhash with
  | Some h => negb (String.eqb h EmptyString)
  | None => false
  end.

Definition poll_toast (n : nat) : string :=
  "Données mises à jour depuis Dropbox 🔄 (merge appliqué)" +:+
  (if decide (n = 0%nat) then EmptyString
   else " • " +:+ pretty n +:+ " conflit(s) résolu(s)").

(** How the poll block leaves the script: the session, the two poll
    entries, what was shown, and the exception that ends the pass, if
    any (the block catches neither a failed fetch nor a failed merge). *)
Record polled := {
  session_after : session;
  poll_after : poll_state;
  shown : list event;
  raised : option string
}.

(** The block under [if ENABLE_REMOTE_POLL] up to the toast; [rhash] is
    what [_get_remote_hash()] returns.  The grid rebuilt by
    [_reset_grid] is not part of the session record. *)
Definition poll (now : Q) (rhash : option string) (w : world)
    (s : session) (p : poll_state) : polled :=
  if elapsed now (last_hash_check p) HASH_CHECK_TTL_SEC
  then
    let p1 := {| last_seen_hash := last_seen_hash p;
                 last_hash_check := now |} in
    if hash_given rhash && bool_decide (last_seen_hash p = None)
    then {| session_after := s;
            poll_after := {| last_seen_hash := rhash;
                             last_hash_check := now |};
            shown := []; raised := None |}
    else if hash_given rhash && bool_decide (rhash ≠ last_seen_hash p)
    then
      let fetched :=
        match _download_current_df_from_dbx w with
        | Ok d => Ok d
        | Raise _ => fetch_state_df w
        end in
      match fetched with
      | Raise e => {| session_after := s; poll_after := p1;
                      shown := []; raised := Some e |}
      | Ok remote_df =>
          let base := default remote_df (base_df s) in
          match _three_way_merge base (df s) remote_df with
          | Raise e => {| session_after := s; poll_after := p1;
                          shown := []; raised := Some e |}
          | Ok (merged, conflicts) =>
              {| session_after := _snapshot_base (with_df merged s);
                 poll_after := {| last_seen_hash := rhash;
                                  last_hash_check := now |};
                 shown := [EToast (poll_toast (length conflicts))];
                 raised := None |}
          end
      end
    else {| session_after := s; poll_after := p1;
            shown := []; raised := None |}
  else {| session_after := s; poll_after := p;
          shown := []; raised := None |}.

End Poll.

Section Editor.
Context `{Unicode}.

(** The loop over [changes.items()]: the dict of the delta row and
    [dirty]. *)
Definition edit_cells (changes : list (string * value)) (base : row)
    : row * bool :=
  foldl (λ acc cv,
           if bool_decide (cv.1 ∈ BOOL_COLS)
           then (<[cv.1 := CBool (bool_of_value cv.2)]> acc.1, true)
           else if bool_decide (cv.1 ∈ TEXT_COLS)
                then (<[cv.1 := CStr (str_of_value cv.2)]> acc.1, true)
                else acc)
        (base, false) changes.

(** [_build_delta_from_editor], for a grid that has the three text
    columns (as [_reset_grid] builds it) or no row at all; on another
    grid [grid_df.iloc[i][TEXT_COLS]] raises, and the embedding gives
    [None].  The two early returns give the frame that the last line
    gives for an empty [out]. *)
Definition _build_delta_from_editor (grid_df : DataFrame)
    (edited_rows : edits) : option DataFrame :=
  if bool_decide (rows grid_df = []) ||
     forallb (λ c, has_column c grid_df) TEXT_COLS
  then
    let out :=
      omap (λ ic,
              if bool_decide (0 ≤ ic.1 < Z.of_nat (length (rows grid_df)))
              then r ← rows grid_df !! Z.to_nat ic.1;
                   let bd := edit_cells ic.2 (project TEXT_COLS r) in
                   if bd.2 then Some bd.1 else None
              else None)
           edited_rows in
    Some {| columns := list_to_set (TEXT_COLS ++ BOOL_COLS);
            rows := project (TEXT_COLS ++ BOOL_COLS) <$> out |}
  else None.

(** The body of [for c in TEXT_COLS + BOOL_COLS] on one joined row. *)
Definition optimistic_cell (c : string) (rm : row * option row)
    : option cell :=
  let v := combine_first (new_cell rm.2 c) (get_cell rm.1 c) in
  if bool_decide (c ∈ BOOL_COLS)
  then CBool <$> astype_bool v
  else Some (CStr (str_of_cell v)).

Definition optimistic_row (cols : list string) (rm : row * option row)
    : option row :=
  foldl (λ acc c, r ← acc; v ← optimistic_cell c rm; Some (<[c := v]> r))
        (Some rm.1) cols.

(** [_apply_optimistic], for a working table that has the seven
    canonical columns and none of the scratch columns, and a delta that
    has the three text columns; [None] outside, and where a flag would
    stay missing after [combine_first]. *)
Definition _apply_optimistic (full_df delta_rows : DataFrame)
    : option DataFrame :=
  if empty delta_rows then Some full_df
  else if forallb (λ c, has_column c full_df) (TEXT_COLS ++ BOOL_COLS) &&
          forallb (λ c, negb (has_column c full_df))
            (scratch_columns (TEXT_COLS ++ BOOL_COLS)) &&
          forallb (λ c, has_column c delta_rows) TEXT_COLS
  then
    let cols := filter (λ c, has_column c delta_rows = true)
                  (TEXT_COLS ++ BOOL_COLS) in
    rs ← mapM (optimistic_row cols)
            (left_join (zip (App._key full_df) (rows full_df))
                       (zip (App._key delta_rows) (rows delta_rows)));
    Some {| columns := columns full_df; rows := rs |}
  else None.

End Editor.
End Capgemini.

(** ** app_schneider.py *)

Module Schneider.
Section Flush.
Context `{Unicode}.

Definition AUTOSAVE_DEBOUNCE_SEC : Q := 35 # 100.
Definition BATCH_SAVE_INTERVAL_SEC : Q := 30.

Record session := {
  df : DataFrame;
  buffer_dirty : bool;
  last_batch_write : Q;
  last_save_ts : Q;
  _want_save : bool;
  prev_filter : bool
}.

Definition with_df (x : DataFrame) (s : session) : session :=
  {| df := x; buffer_dirty := buffer_dirty s;
     last_batch_write := last_batch_write s; last_save_ts := last_save_ts s;
     _want_save := _want_save s; prev_filter := prev_filter s |}.

Definition with_buffer_dirty (x : bool) (s : session) : session :=
  {| df := df s; buffer_dirty := x;
     last_batch_write := last_batch_write s; last_save_ts := last_save_ts s;
     _want_save := _want_save s; prev_filter := prev_filter s |}.

Definition with_last_batch_write (t : Q) (s : session) : session :=
  {| df := df s; buffer_dirty := buffer_dirty s;
     last_batch_write := t; last_save_ts := last_save_ts s;
     _want_save := _want_save s; prev_filter := prev_filter s |}.

Definition with_last_save_ts (t : Q) (s : session) : session :=
  {| df := df s; buffer_dirty := buffer_dirty s;
     last_batch_write := last_batch_write s; last_save_ts := t;
     _want_save := _want_save s; prev_filter := prev_filter s |}.

Definition with_want_save (x : bool) (s : session) : session :=
  {| df := df s; buffer_dirty := buffer_dirty s;
     last_batch_write := last_batch_write s; last_save_ts := last_save_ts s;
     _want_save := x; prev_filter := prev_filter s |}.

Definition with_prev_filter (x : bool) (s : session) : session :=
  {| df := df s; buffer_dirty := buffer_dirty s;
     last_batch_write := last_batch_write s; last_save_ts := last_save_ts s;
     _want_save := _want_save s; prev_filter := x |}.

(** The remote store as one flush meets it: whether the Dropbox client
    was built ([DBX is not None]), the verdict of
    [_upload_with_auto_refresh] on a payload, and [time.time()]. *)
Record world := {
  dbx_configured : bool;
  upload : csv → option string;
  clock : Q
}.

(** [write_state_df]: the verdict and the payload handed to the upload,
    if any. *)
Definition write_state_df (w : world) (full_df : DataFrame)
    : option string * list event :=
  if dbx_configured w
  then let payload := serialize full_df in
       (upload w payload, [EUpload payload])
  else (Some "Dropbox not configured", []).

Definition _flush_to_disk (ok_text err_text : string) (w : world)
    (s : session) : session * list event :=
  let '(verdict, sent) := write_state_df w (df s) in
  let s := with_buffer_dirty false (with_last_batch_write (clock w) s) in
  match verdict with
  | None => (s, sent ++ [EToast ok_text])
  | Some err => (s, sent ++ [EError (err_text +:+ ": " +:+ err)])
  end.

(** The inputs of one pass, as for the other app. *)
Record input := {
  now : Q;
  filter_active : bool;
  save_clicked : bool;
  pre_edited : option DataFrame;
  edited : option DataFrame
}.

Definition andthen (f g : session → session * list event)
    (s : session) : session * list event :=
  let '(s1, e1) := f s in
  let '(s2, e2) := g s1 in
  (s2, e1 ++ e2).

Definition skip (s : session) : session * list event := (s, []).

(** [secs = max(0, int(BATCH_SAVE_INTERVAL_SEC - (now - last_batch_write)))] *)
Definition secs_left (now last : Q) : Z :=
  Z.max 0 (Qfloor (BATCH_SAVE_INTERVAL_SEC - (now - last))).

Definition buffered_info (secs : Z) : string :=
  "Pending changes buffered. Auto-saving in ~" +:+ pretty secs +:+
  "s (or when you start filtering).".

(** The script below the "Clear search" button, from the "Save now"
    button to the periodic auto-flush: what a run does when "Clear
    search" was not clicked.  The whole run is [script] below. *)
Definition pass (i : input) (w : site → world)
    : session → session * list event :=
  andthen
    (λ s, (if save_clicked i then with_want_save true s else s, []))
  (andthen
    (λ s, if negb (prev_filter s) && filter_active i && buffer_dirty s
          then _flush_to_disk
                 "Saved pending changes before applying filter ✅"
                 "Save failed" (w FilterOn) s
          else skip s)
  (andthen
    (λ s, if prev_filter s && negb (filter_active i)
          then _flush_to_disk "Saved changes before removing filter ✅"
                 "Save failed" (w FilterOff)
                 (from_option (λ d, with_df d s) s (pre_edited i))
          else skip s)
  (andthen
    (λ s, (with_prev_filter (filter_active i) s, []))
  (andthen
    (λ s, match edited i with
          | None => skip s
          | Some d =>
              let s := with_df d s in
              if filter_active i
              then if elapsed (now i) (last_save_ts s) AUTOSAVE_DEBOUNCE_SEC
                   then let '(s1, e) :=
                          _flush_to_disk "Saved change(s) ✅"
                            "Auto-save failed" (w Autosave) s in
                        (with_last_save_ts (now i) s1, e)
                   else skip s
              else (with_buffer_dirty true s,
                    [EInfo (buffered_info
                              (secs_left (now i) (last_batch_write s)))])
          end)
  (andthen
    (λ s, if _want_save s
          then _flush_to_disk "Saved ✅" "Save failed" (w SaveNow)
                 (with_want_save false s)
          else skip s)
    (λ s, if negb (filter_active i) && buffer_dirty s
          then if elapsed (now i) (last_batch_write s)
                    BATCH_SAVE_INTERVAL_SEC
               then _flush_to_disk "Buffered changes auto-saved ✅"
                      "Auto-save failed" (w Periodic) s
               else skip s
          else skip s)))))).

(** The body of [if st.button("Clear search")]: a dirty buffer is
    flushed, [q] and [prev_q] are emptied, the grid, its filter key and
    the editor's widget state are dropped, and [st.rerun()] ends the run
    there.  The edits that the editor still held are not applied, and
    the "Save now" button below is not reached. *)
Definition clear_search (w : site → world) (s : session)
    : session * list event :=
  let '(s, e) :=
    if buffer_dirty s
    then _flush_to_disk "Saved pending changes ✅" "Save failed"
           (w ClearSearch) s
    else skip s in
  (with_prev_filter false s, e).

(** One run of the script: [clear_clicked] is what
    [st.button("Clear search")] returns. *)
Definition script (clear_clicked : bool) (i : input) (w : site → world)
    (s : session) : session * list event :=
  if clear_clicked then clear_search w s else pass i w s.

End Flush.

Section Editor.
Context `{Unicode}.

(** The loop over [changes.items()]: the dict of the delta row and
    [dirty]. *)
Definition edit_cells (changes : list (string * value)) (base : row)
    : row * bool :=
  foldl (λ acc cv,
           if bool_decide (cv.1 ∈ BOOL_COLS)
           then (<[cv.1 := CBool (bool_of_value cv.2)]> acc.1, true)
           else acc)
        (base, false) changes.

(** [_build_delta_from_editor], for a grid that has the three text
    columns (as [_reset_grid] builds it) or no row at all; on another
    grid [grid_df.iloc[i][[FIRST, LAST, FILE]]] raises, and the
    embedding gives [None].  The two early returns give the frame that
    the last line gives for an empty [out]. *)
Definition _build_delta_from_editor (grid_df : DataFrame)
    (edited_rows : edits) : option DataFrame :=
  if bool_decide (rows grid_df = []) ||
     forallb (λ c, has_column c grid_df) TEXT_COLS
  then
    let out :=
      omap (λ ic,
              if bool_decide (0 ≤ ic.1 < Z.of_nat (length (rows grid_df)))
              then r ← rows grid_df !! Z.to_nat ic.1;
                   let bd := edit_cells ic.2 (project TEXT_COLS r) in
                   if bd.2 then Some bd.1 else None
              else None)
           edited_rows in
    Some {| columns := list_to_set (TEXT_COLS ++ BOOL_COLS);
            rows := project (TEXT_COLS ++ BOOL_COLS) <$> out |}
  else None.

(** The body of [for c in BOOL_COLS] on one joined row. *)
Definition optimistic_cell (c : string) (rm : row * option row)
    : option cell :=
  CBool <$> astype_bool (combine_first (new_cell rm.2 c) (get_cell rm.1 c)).

Definition optimistic_row (cols : list string) (rm : row * option row)
    : option row :=
  foldl (λ acc c, r ← acc; v ← optimistic_cell c rm; Some (<[c := v]> r))
        (Some rm.1) cols.

(** [_apply_optimistic], for a working table that has the seven
    canonical columns and none of the scratch columns, and a delta that
    has the three text columns; [None] outside, and where a flag would
    stay missing after [combine_first]. *)
Definition _apply_optimistic (full_df delta_rows : DataFrame)
    : option DataFrame :=
  if empty delta_rows then Some full_df
  else if forallb (λ c, has_column c full_df) (TEXT_COLS ++ BOOL_COLS) &&
          forallb (λ c, negb (has_column c full_df))
            (scratch_columns BOOL_COLS) &&
          forallb (λ c, has_column c delta_rows) TEXT_COLS
  then
    let cols := filter (λ c, has_column c delta_rows = true) BOOL_COLS in
    rs ← mapM (optimistic_row cols)
            (left_join (zip (App._key full_df) (rows full_df))
                       (zip (App._key delta_rows) (rows delta_rows)));
    Some {| columns := columns full_df; rows := rs |}
  else None.

End Editor.
End Schneider.

(** ** The text of the persisted format, written and read back *)

Module Csv.

Definition COMMA : N := 44.
Definition QUOTE : N := 34.
Definition LF : N := 10.
Definition CR : N := 13.

(** *** Writing: [csv.writer] as [to_csv] sets it up (the comma as
    separator, the double quote as quote character, minimal quoting) *)

(** A character that the writer takes and that UTF-8 encodes: a code
    point other than NUL and the surrogates. *)
Definition encodable (c : N) : bool :=
  (0 <? c)%N && ((c <? 55296)%N || ((57343 <? c)%N && (c <=? 1114111)%N)).

(** A field that the writer emits as it is.  A field that holds the
    separator, the quote character or a line break is quoted by the
    writer, or not, depending on the line terminator in use; the text
    of such a field is not embedded. *)
Definition bare (f : pystr) : bool :=
  forallb (λ c, encodable c &&
                negb (bool_decide (c ∈ [COMMA; QUOTE; LF; CR]))) f.

(** A row that is written field by field: its fields are bare, it has
    a field, and it is not the single empty field (which the writer
    quotes to tell it from an empty line). *)
Definition writable (r : list pystr) : bool :=
  forallb bare r &&
  negb (bool_decide (r = [])) && negb (bool_decide (r = [[]])).

Fixpoint join_fields (r : list pystr) : pystr :=
  match r with
  | [] => []
  | [f] => f
  | f :: r' => f ++ COMMA :: join_fields r'
  end.

(** The text of a table: the header row, then the records, each followed
    by the line terminator ([os.linesep]); [None] when a row is outside
    the writable ones. *)
Definition to_text (linesep : pystr) (g : csv) : option pystr :=
  let lines := (lit <$> header g) :: records g in
  if forallb writable lines
  then Some (lines ≫= λ r, join_fields r ++ linesep)
  else None.

(** *** Reading: the tokenizer of [pd.read_csv] on a text without
    quote characters *)

(** The pieces of a text between the characters that satisfy [p]. *)
Fixpoint split_at (p : N → bool) (s : pystr) : list pystr :=
  match s with
  | [] => [[]]
  | c :: s' =>
      if p c then [] :: split_at p s'
      else match split_at p s' with
           | f :: fs => (c :: f) :: fs
           | [] => [[c]]
           end
  end.

(** A line ends at a line feed, at a carriage return, or at a carriage
    return followed by a line feed. *)
Definition is_eol (c : N) : bool := bool_decide (c ∈ [LF; CR]).

(** A line of spaces and tabs only, the empty line included, is skipped
    ([skip_blank_lines=True]); splitting at every line feed and every
    carriage return and skipping such lines reads the two-character
    terminator as one. *)
Definition is_blank (c : N) : bool := bool_decide (c ∈ [32; 9]%N).

Definition is_comma (c : N) : bool := bool_decide (c = COMMA).

(** The rows of fields of a text; [None] when the text holds a quote
    character (the quoted fields of the reader are not embedded). *)
Definition tokenize (text : pystr) : option (list (list pystr)) :=
  if bool_decide (QUOTE ∈ text) then None
  else Some (split_at is_comma <$>
               filter (λ l, forallb is_blank l = false)
                      (split_at is_eol text)).

(** A column name of the header as a name of the embedding: its
    characters fit the 8-bit literals. *)
Definition name_of (h : pystr) : option string :=
  String.string_of_list_ascii <$>
    mapM (λ c, if (c <? 256)%N then Some (Ascii.ascii_of_N c) else None) h.

(** *** Reading: the cells of the columns *)

(** The spellings that [pd.read_csv] takes for a missing value. *)
Definition na_values : list pystr :=
  lit <$> [""; "#N/A"; "#N/A N/A"; "#NA"; "-1.#IND"; "-1.#QNAN"; "-NaN";
           "-nan"; "1.#IND"; "1.#QNAN"; "<NA>"; "N/A"; "NA"; "NULL"; "NaN";
           "None"; "n/a"; "nan"; "null"].

(** Spellings that the reader may take for a boolean or a float. *)
Definition literal_words : list pystr :=
  lit <$> ["true"; "false"; "inf"; "infinity"].

Definition lower_ascii_str (f : pystr) : pystr := ascii_lower <$> f.

Definition is_digit (c : N) : bool := ((48 <=? c) && (c <=? 57))%N.

(** A field that can only be read as text: it does not start like a
    number or with blank space, and is no spelling of a missing value, a
    boolean or a float, whatever its letter case. *)
Definition inert (f : pystr) : bool :=
  match f with
  | [] => false
  | c :: _ =>
      negb (is_digit c || ascii_isspace c ||
            bool_decide (c ∈ [43; 45; 46]%N)) &&
      negb (bool_decide (lower_ascii_str f ∈
              ((lower_ascii_str <$> na_values) ++ literal_words)))
  end.

(** A decimal literal that fits [int64]. *)
Definition is_int_literal (f : pystr) : bool :=
  match f with
  | [] => false
  | _ => forallb is_digit f && bool_decide (length f ≤ 18)%nat
  end.

Definition int_of_literal (f : pystr) : Z :=
  foldl (λ acc c, 10 * acc + (Z.of_N c - 48)) 0 f.

(** The two column shapes whose reading is embedded: a column of
    decimal literals is read as integers; a column in which every field
    is empty or inert is read as text, the empty fields as NaN.  How
    [pd.read_csv] infers any other column (floats, mixed columns, ...)
    is left out: the reader below gives [None] for it. *)
Inductive kind := KInt | KText.

Definition kind_of (fields : list pystr) : option kind :=
  if forallb is_int_literal fields then Some KInt
  else if forallb (λ f, bool_decide (f = []) || inert f) fields
       then Some KText
       else None.

Definition read_field (k : kind) (f : pystr) : cell :=
  match k with
  | KInt => CInt (int_of_literal f)
  | KText => if decide (f = []) then CNaN else CStr f
  end.

(** The frame of a header and its records, when the column names are
    distinct and not empty and every record has a field for every
    column (the renaming of repeated or empty names and the handling of
    short and long records are not embedded). *)
Definition read_table (g : csv) : option DataFrame :=
  if decide (NoDup (header g) ∧ Forall (λ h, h ≠ "") (header g) ∧
             Forall (λ r, length r = length (header g)) (records g))
  then
    kinds ← mapM (λ j, kind_of ((λ r, default [] (r !! j)) <$> records g))
                 (seq 0 (length (header g)));
    Some {| columns := list_to_set (header g);
            rows := (λ r, list_to_map (zip (header g)
                                           (zip_with read_field kinds r)))
                      <$> records g |}
  else None.

(** [pd.read_csv(io.BytesIO(...))]: the first row that is not skipped is
    the header.  [None] is a text outside the embedding (or one without
    any row, on which the reader raises). *)
Definition read_csv (text : pystr) : option DataFrame :=
  lines ← tokenize text;
  match lines with
  | [] => None
  | h :: records =>
      names ← mapM name_of h;
      read_table {| header := names; records := records |}
  end.

End Csv.

(** ** utils.py *)

Module Utils.
Section Utils.
Context `{Unicode}.

Definition _norm (s : option pystr) : pystr :=
  match s with
  | None => lit ""
  | Some s => unaccent (strip s)
  end.

(** One name component and the file component of [_key_series]. *)
Definition name_key (c : cell) : pystr :=
  strip (py_lower (_norm (Some (str_of_cell (fillna (CStr (lit "")) c))))).

Definition file_key (c : cell) : pystr :=
  strip (py_lower (str_of_cell (fillna (CStr (lit "")) c))).

Definition row_key (r : row) : pystr :=
  name_key (get_cell r FIRST) ++ lit "||" ++
  name_key (get_cell r LAST) ++ lit "||" ++ file_key (get_cell r FILE).

Definition _key_series (df : DataFrame) : list pystr :=
  row_key <$> rows df.

(** [Series.astype(bool)] on one cell: Python truthiness (NaN is true). *)
Definition truthy (c : cell) : bool :=
  match c with
  | CStr s => negb (bool_decide (s = []))
  | CNaN => true
  | CBool b => b
  | CInt z => negb (bool_decide (z = 0))
  | COther r => negb (bool_decide (r ∈ [lit "0.0"; lit "-0.0"]))
  end.

Definition guarantee_text (df : DataFrame) (c : string) : DataFrame :=
  if has_column c df then df else set_column c (λ _, CStr (lit "")) df.

Definition guarantee_flag (df : DataFrame) (c : string) : DataFrame :=
  if has_column c df
  then set_column c (λ r, CBool (truthy (get_cell r c))) df
  else set_column c (λ _, CBool false) df.

(** The two loops under "colonnes garanties". *)
Definition guarantee_columns (df : DataFrame) : DataFrame :=
  foldl guarantee_flag (foldl guarantee_text df TEXT_COLS) BOOL_COLS.

(** The key built from the arguments of [update_flag]. *)
Definition target_key (first last file_name : option pystr) : pystr :=
  strip (py_lower (_norm first)) ++ lit "||" ++
  strip (py_lower (_norm last)) ++ lit "||" ++
  strip (py_lower (default (lit "") file_name)).

(** An argument stored in a cell: [None] is a missing value. *)
Definition cell_of_arg (a : option pystr) : cell :=
  from_option CStr CNaN a.

Definition new_row (first last file_name : option pystr) : row :=
  list_to_map
    [ (FIRST, cell_of_arg first); (LAST, cell_of_arg last);
      (FILE, cell_of_arg file_name);
      (SEEN, CBool false); (INT, CBool false); (SAVE, CBool false);
      (CONT, CBool false) ].

(** [update_flag]: the returned table and, when a callback is given, the
    table handed to [save_cb]. *)
Definition update_flag (state_df : DataFrame)
    (first last file_name : option pystr) (col_name : string)
    (value : bool) (save_cb : bool) : DataFrame * option DataFrame :=
  let state_df := guarantee_columns state_df in
  let target := target_key first last file_name in
  let hit := λ r, bool_decide (row_key r = target) in
  let state_df :=
    if forallb (λ r, negb (hit r)) (rows state_df)
    then
      (* [pd.concat] with the one new row; [idx] is the last label *)
      {| columns := columns state_df ∪ list_to_set (TEXT_COLS ++ BOOL_COLS)
                    ∪ {[col_name]};
         rows := rows state_df ++
                 [<[col_name := CBool value]>
                    (new_row first last file_name)] |}
    else
      (* [state_df.loc[idx, col_name] = bool(value)] on every hit *)
      {| columns := columns state_df ∪ {[col_name]};
         rows := (λ r, if hit r then <[col_name := CBool value]> r else r)
                   <$> rows state_df |} in
  (state_df, if save_cb then Some state_df else None).

End Utils.

Section Normalize.
Context `{Unicode}.

(** [_basename_from_url] rests on [urllib.parse.urlparse] and
    [os.path.basename]; it is taken as given, as a function from the
    cell under [cv_url] to a text. *)
Variable _basename_from_url : cell → pystr.

Definition URL := "cv_url".

(** [.fillna("").astype(str).str.strip()] followed by the two
    [str.replace] that drop every backslash and every slash. *)
Definition clean_file_name (c : cell) : pystr :=
  filter (λ ch, ch ≠ 47%N)
    (filter (λ ch, ch ≠ 92%N)
       (strip (str_of_cell (fillna (CStr (lit "")) c)))).

Definition normalize_base_df (df : DataFrame) : DataFrame :=
  let df := foldl guarantee_text df [FIRST; LAST] in
  let df := guarantee_text df FILE in
  let df :=
    if has_column URL df
    then set_column FILE
           (λ r, if isna (get_cell r FILE) ||
                    bool_decide (strip (str_of_cell (get_cell r FILE)) = [])
                 then CStr (_basename_from_url (get_cell r URL))
                 else get_cell r FILE)
           df
    else df in
  let df := set_column FILE (λ r, CStr (clean_file_name (get_cell r FILE))) df in
  select TEXT_COLS df.

End Normalize.

Section Display.
Context `{Unicode}.

(** One row of [merge_base_state]'s result: the text fields of the base
    row and, for each flag, [fillna(False).astype(bool)] of the state
    row's cell. *)
Definition display_row (rm : row * option row) : row :=
  list_to_map
    (((λ c, (c, get_cell rm.1 c)) <$> TEXT_COLS) ++
     ((λ c, (c, CBool (default false (astype_bool (new_cell rm.2 c)))))
        <$> BOOL_COLS)).

(** [merge_base_state], for a base table that has the three text
    columns and no flag column (as [normalize_base_df] gives it) and a
    state table that has the seven columns when it has rows; [None]
    outside.  For a state table without rows, [s] gets no [_k] column
    and [b.merge(s, on="_k", how="left")] raises [KeyError('_k')]. *)
Definition merge_base_state (base_df state_df : DataFrame)
    : option (result DataFrame) :=
  if empty base_df
  then Some (Ok {| columns := list_to_set (TEXT_COLS ++ BOOL_COLS);
                   rows := [] |})
  else if forallb (λ c, has_column c base_df) TEXT_COLS &&
          forallb (λ c, negb (has_column c base_df)) BOOL_COLS
  then
    if empty state_df then Some (Raise "'_k'")
    else if forallb (λ c, has_column c state_df) (TEXT_COLS ++ BOOL_COLS)
    then
      Some (Ok {| columns := list_to_set (TEXT_COLS ++ BOOL_COLS);
                  rows := display_row <$>
                    left_join (zip (_key_series base_df) (rows base_df))
                              (zip (_key_series state_df) (rows state_df)) |})
    else None
  else None.

End Display.

End Utils.

(** ** A Unicode database for examples

    The rows of CPython's tables (Unicode 14) for Basic Latin and
    Latin-1 Supplement, all white space, and the combining diacritical
    marks; other characters are left as they are. *)

Module Latin.

Definition spaces : list N :=
  [9; 10; 11; 12; 13; 28; 29; 30; 31; 32; 133; 160; 5760; 8192; 8193; 8194;
   8195; 8196; 8197; 8198; 8199; 8200; 8201; 8202; 8232; 8233; 8239; 8287;
   12288]%N.

Definition isspace (c : N) : bool := bool_decide (c ∈ spaces).

Definition lower_char (c : N) : N :=
  if ((65 <=? c) && (c <=? 90)
      || (192 <=? c) && (c <=? 222) && negb (c =? 215))%N
  then (c + 32)%N else c.

Definition lower (s : pystr) : pystr := lower_char <$> s.

(** Compatibility decompositions, fully expanded. *)
Definition decompositions : list (N * pystr) :=
  [ (160, [32]); (168, [32; 776]); (170, [97]); (175, [32; 772]);
    (178, [50]); (179, [51]); (180, [32; 769]); (181, [956]);
    (184, [32; 807]); (185, [49]); (186, [111]); (188, [49; 8260; 52]);
    (189, [49; 8260; 50]); (190, [51; 8260; 52]); (192, [65; 768]);
    (193, [65; 769]); (194, [65; 770]); (195, [65; 771]); (196, [65; 776]);
    (197, [65; 778]); (199, [67; 807]); (200, [69; 768]); (201, [69; 769]);
    (202, [69; 770]); (203, [69; 776]); (204, [73; 768]); (205, [73; 769]);
    (206, [73; 770]); (207, [73; 776]); (209, [78; 771]); (210, [79; 768]);
    (211, [79; 769]); (212, [79; 770]); (213, [79; 771]); (214, [79; 776]);
    (217, [85; 768]); (218, [85; 769]); (219, [85; 770]); (220, [85; 776]);
    (221, [89; 769]); (224, [97; 768]); (225, [97; 769]); (226, [97; 770]);
    (227, [97; 771]); (228, [97; 776]); (229, [97; 778]); (231, [99; 807]);
    (232, [101; 768]); (233, [101; 769]); (234, [101; 770]);
    (235, [101; 776]); (236, [105; 768]); (237, [105; 769]);
    (238, [105; 770]); (239, [105; 776]); (241, [110; 771]);
    (242, [111; 768]); (243, [111; 769]); (244, [111; 770]);
    (245, [111; 771]); (246, [111; 776]); (249, [117; 768]);
    (250, [117; 769]); (251, [117; 770]); (252, [117; 776]);
    (253, [121; 769]); (255, [121; 776]); (8192, [32]); (8193, [32]);
    (8194, [32]); (8195, [32]); (8196, [32]); (8197, [32]); (8198, [32]);
    (8199, [32]); (8200, [32]); (8201, [32]); (8202, [32]); (8239, [32]);
    (8287, [32]); (12288, [32]) ]%N.

Definition decompose (c : N) : pystr :=
  default [c] (snd <$> head (filter (λ p, p.1 = c) decompositions)).

Definition nfkd (s : pystr) : pystr := s ≫= decompose.

Definition combining (c : N) : bool :=
  ((768 <=? c) && (c <=? 879) && negb (c =? 847))%N.

End Latin.

(** * Definitions for the statements

    Readings of the program that the theorems are stated with, and the
    tables, sessions and remote stores used as examples. *)

(** ** [str.strip] *)
(** A string of white space only. *)
Definition blank (sp : N → bool) (w : pystr) : Prop :=
  Forall (λ c, sp c = true) w.

Definition latin_unaccent : pystr → pystr :=
  unaccent_with Latin.nfkd Latin.combining.

Section ensure_defs.
Context `{Unicode}.
Import App.

Definition text_step (b : bool) (c : string) (r : row) : row :=
  if b then r else <[c := CStr (lit "")]> r.

Definition flag_step (b : bool) (c : string) (r : row) : row :=
  <[c := CBool (if b then flag_of (get_cell r c) else false)]> r.

(** What [_ensure_schema] makes of one row; [has c] tells whether the
    frame has column [c]. *)
Definition ensure_row (has : string → bool) (r : row) : row :=
  list_to_map
    (((λ c, (c, if has c then get_cell r c else CStr (lit "")))
        <$> TEXT_COLS) ++
     ((λ c, (c, CBool (if has c then flag_of (get_cell r c) else false)))
        <$> BOOL_COLS)).

End ensure_defs.

Definition msub (b a : list pystr) : list pystr :=
  foldl (λ acc x, remove1 x acc) b a.

Section merge_defs.
Context `{Unicode}.
Import App Capgemini.

(** The keys of a table, as the merge indexes it. *)
Definition keys (df : DataFrame) : list pystr := (_index_by_key df).*1.

Definition key_of_row (r : row) : pystr :=
  key_of (get_cell r FIRST) (get_cell r LAST) (get_cell r FILE).

(** The row of a table under a label ([∅], all NaN, when it has none). *)
Definition at_label (df : DataFrame) (k : pystr) : row :=
  first_with_label k (_index_by_key df).

Definition union_idx (base ours theirs : DataFrame) : list pystr :=
  all_idx (_index_by_key base) (_index_by_key ours) (_index_by_key theirs).

End merge_defs.

Definition alice : candidate :=
  {| first_name := lit "Alice"; last_name := lit "Smith";
     file_name := lit "cv1.pdf"; seen := false; intend_view := false;
     cv_saved := false; contacted := false |}.

Definition with_seen (b : bool) (x : candidate) : candidate :=
  {| first_name := first_name x; last_name := last_name x;
     file_name := file_name x; seen := b; intend_view := intend_view x;
     cv_saved := cv_saved x; contacted := contacted x |}.

(** ** The flush *)
Definition cell_text (c : cell) : pystr :=
  match c with CStr s => s | _ => [] end.

Definition cell_flag (c : cell) : bool :=
  match c with CBool b => b | _ => false end.

Section flush_defs.
Context `{Unicode}.
Import App Capgemini.

(** The record that the merge writes under one label. *)
Definition merged_record (bot : row * (row * row)) : candidate :=
  let '(b, (o, t)) := bot in
  {| first_name := cell_text (merge_text FIRST b o t);
     last_name := cell_text (merge_text LAST b o t);
     file_name := cell_text (merge_text FILE b o t);
     seen := cell_flag (merge_flag SEEN b o t);
     intend_view := cell_flag (merge_flag INT b o t);
     cv_saved := cell_flag (merge_flag SAVE b o t);
     contacted := cell_flag (merge_flag CONT b o t) |}.

(** What the flush of [app_capgemini.py] merges against: the Dropbox
    download, or the shared-link fetch when the download raises. *)
Definition fetched (w : world) (remote : DataFrame) : Prop :=
  (∃ d, download w = Ok d ∧ remote = _ensure_schema d) ∨
  (∃ e d, download w = Raise e ∧ fetch w = Ok d ∧ remote = _ensure_schema d).

End flush_defs.

(** ** A table merged with itself *)
(** [astype("string")] then [fillna("")] on one cell. *)
Definition filled_text (c : cell) : pystr :=
  if isna c then lit "" else str_of_cell c.

Section merge_self_defs.
Context `{Unicode}.
Import App Capgemini.

(** The record that the merge of a table with itself makes of a row:
    [has] tells which columns the table has. *)
Definition self_merged (has : string → bool) (r : row) : candidate :=
  {| first_name := if has FIRST then filled_text (get_cell r FIRST) else lit "";
     last_name := if has LAST then filled_text (get_cell r LAST) else lit "";
     file_name := if has FILE then filled_text (get_cell r FILE) else lit "";
     seen := if has SEEN then flag_of (get_cell r SEEN) else false;
     intend_view := if has INT then flag_of (get_cell r INT) else false;
     cv_saved := if has SAVE then flag_of (get_cell r SAVE) else false;
     contacted := if has CONT then flag_of (get_cell r CONT) else false |}.

End merge_self_defs.

(** ** The persisted format *)
(** A text cell that the reader gives back as it was written: a
    missing value, or a text that the writer does not quote, that holds
    no line break and that can only be read as text. *)
Definition plain_text (c : cell) : bool :=
  match c with
  | CNaN => true
  | CStr s => Csv.inert s && Csv.bare s
  | _ => false
  end.

Definition text_plain (df : DataFrame) : Prop :=
  Forall (λ r, Forall (λ c, plain_text (get_cell r c) = true) TEXT_COLS)
         (rows df).

(** The seven cells of a normalised row. *)
Definition cells7 : Type := cell * cell * cell * (bool * bool * bool * bool).

Definition row7 (x : cells7) : row :=
  let '(a, b, c, (s, i, v, t)) := x in
  list_to_map [ (FIRST, a); (LAST, b); (FILE, c); (SEEN, CBool s);
                (INT, CBool i); (SAVE, CBool v); (CONT, CBool t) ].

Definition digit (b : bool) : pystr := if b then lit "1" else lit "0".

Definition record7 (x : cells7) : list pystr :=
  let '(a, b, c, (s, i, v, t)) := x in
  [ field_of_cell a; field_of_cell b; field_of_cell c;
    digit s; digit i; digit v; digit t ].

Definition read7 (x : cells7) : row :=
  let '(a, b, c, (s, i, v, t)) := x in
  list_to_map [ (FIRST, a); (LAST, b); (FILE, c);
                (SEEN, CInt (if s then 1 else 0));
                (INT, CInt (if i then 1 else 0));
                (SAVE, CInt (if v then 1 else 0));
                (CONT, CInt (if t then 1 else 0)) ].

Definition plain7 (x : cells7) : Prop :=
  plain_text x.1.1.1 = true ∧ plain_text x.1.1.2 = true ∧
  plain_text x.1.2 = true.

Section csv_defs.
Context `{Unicode}.
Import App.

Definition tuple_of (has : string → bool) (r : row) : cells7 :=
  (if has FIRST then get_cell r FIRST else CStr (lit ""),
   if has LAST then get_cell r LAST else CStr (lit ""),
   if has FILE then get_cell r FILE else CStr (lit ""),
   (if has SEEN then flag_of (get_cell r SEEN) else false,
    if has INT then flag_of (get_cell r INT) else false,
    if has SAVE then flag_of (get_cell r SAVE) else false,
    if has CONT then flag_of (get_cell r CONT) else false)).

(** The characters of a row of bare fields, once joined. *)
Definition plain_char (c : N) : Prop :=
  Csv.is_eol c = false ∧ c ≠ Csv.QUOTE.

End csv_defs.

(** ** [update_flag] *)
(** The record with one flag set. *)
Definition set_flag (c : string) (v : bool) (x : candidate) : candidate :=
  {| first_name := first_name x; last_name := last_name x;
     file_name := file_name x;
     seen := if decide (c = SEEN) then v else seen x;
     intend_view := if decide (c = INT) then v else intend_view x;
     cv_saved := if decide (c = SAVE) then v else cv_saved x;
     contacted := if decide (c = CONT) then v else contacted x |}.

(** The record that [update_flag] fabricates. *)
Definition fresh (first last file : pystr) : candidate :=
  {| first_name := first; last_name := last; file_name := file;
     seen := false; intend_view := false; cv_saved := false;
     contacted := false |}.

Section update_flag_defs.
Context `{Unicode}.
Import Utils.

(** Whether a record is the one that the arguments name. *)
Definition hits (first last file : pystr) (x : candidate) : bool :=
  bool_decide (row_key (row_of x)
               = target_key (Some first) (Some last) (Some file)).

End update_flag_defs.

(** ** Tables with typed flags *)
(** A table that has the seven columns, and one in which every flag is a
    boolean. *)
Definition canonical_columns (df : DataFrame) : Prop :=
  Forall (λ c, has_column c df = true) (TEXT_COLS ++ BOOL_COLS).

Definition flags_boolean (df : DataFrame) : Prop :=
  Forall (λ r, Forall (λ c, ∃ b, r !! c = Some (CBool b)) BOOL_COLS)
         (rows df).

(* example data *)
Definition with_intend (b : bool) (x : candidate) : candidate :=
  {| first_name := first_name x; last_name := last_name x;
     file_name := file_name x; seen := seen x; intend_view := b;
     cv_saved := cv_saved x; contacted := contacted x |}.

Definition with_first (f : pystr) (x : candidate) : candidate :=
  {| first_name := f; last_name := last_name x;
     file_name := file_name x; seen := seen x; intend_view := intend_view x;
     cv_saved := cv_saved x; contacted := contacted x |}.

Definition kadri : candidate := fresh (lit "Kadri") (lit "Farouk") (lit "cv.pdf").
(* "Kádri": U+00E1 *)
Definition kadri_accent : candidate :=
  fresh ([75; 225; 100; 114; 105]%N) (lit "Farouk") (lit "cv.pdf").
Definition kadri_loud : candidate :=
  fresh (lit " KADRI ") (lit "farouk") (lit "cv.pdf ").

Definition cap_world (remote : DataFrame) (verdict : option string) (t : Q)
  : Capgemini.world :=
  {| Capgemini.download := Ok remote; Capgemini.fetch := Raise "unreachable";
     Capgemini.upload := λ _, verdict; Capgemini.clock := t |}.

Definition sch_world (verdict : option string) (t : Q) : Schneider.world :=
  {| Schneider.dbx_configured := true; Schneider.upload := λ _, verdict;
     Schneider.clock := t |}.

Definition cap_session (d : DataFrame) : Capgemini.session :=
  {| Capgemini.df := d; Capgemini.base_df := Some d;
     Capgemini.last_batch_write := Some 0%Q;
     Capgemini.buffer_dirty := Some false; Capgemini.last_auto_save := 0%Q;
     Capgemini._want_save := false; Capgemini.prev_filter := false |}.

Definition sch_session (d : DataFrame) (dirty : bool) : Schneider.session :=
  {| Schneider.df := d; Schneider.buffer_dirty := dirty;
     Schneider.last_batch_write := 0%Q; Schneider.last_save_ts := 0%Q;
     Schneider._want_save := false; Schneider.prev_filter := false |}.

(** A table as the reader returns it for a record without file name,
    and a table of records with one more column. *)
Definition missing_file : DataFrame :=
  {| columns := list_to_set (TEXT_COLS ++ BOOL_COLS);
     rows := [<[FILE := CNaN]> (row_of alice)] |}.

Definition with_notes : DataFrame :=
  set_column "notes" (λ _, CStr (lit "x")) (table_of [alice]).

Definition without_file (x : candidate) : candidate :=
  {| first_name := first_name x; last_name := last_name x;
     file_name := lit ""; seen := seen x; intend_view := intend_view x;
     cv_saved := cv_saved x; contacted := contacted x |}.

Definition bob : candidate :=
  fresh (lit "Bob") (lit "Jones") (lit "cv2.pdf").

Definition sch_input (t : Q) (save : bool) (e : option DataFrame)
  : Schneider.input :=
  {| Schneider.now := t; Schneider.filter_active := false;
     Schneider.save_clicked := save; Schneider.pre_edited := None;
     Schneider.edited := e |}.

Definition cap_input (t : Q) (e : option DataFrame) : Capgemini.input :=
  {| Capgemini.now := t; Capgemini.filter_active := false;
     Capgemini.save_clicked := false; Capgemini.pre_edited := None;
     Capgemini.edited := e |}.

Definition flags_as_text : DataFrame :=
  {| columns := list_to_set [FIRST; LAST; FILE; SEEN; INT; "notes"];
     rows := [ {[ FIRST := CStr (lit "Alice"); LAST := CStr (lit "Smith");
                  FILE := CNaN; SEEN := CStr (lit "Y");
                  INT := CStr (lit "0"); "notes" := CStr (lit "x") ]} ] |}.

Definition only_first_name : DataFrame :=
  {| columns := {[ FIRST ]}; rows := [ {[ FIRST := CStr (lit "Alice") ]} ] |}.



(** ** More on the three-way merge *)
(** The row that is empty in every field. *)
Definition blank_record : candidate := fresh [] [] [].

(* example data *)
Definition sch_filtering (d : DataFrame) : Schneider.session :=
  {| Schneider.df := d; Schneider.buffer_dirty := false;
     Schneider.last_batch_write := 0%Q; Schneider.last_save_ts := 10%Q;
     Schneider._want_save := false; Schneider.prev_filter := true |}.

Definition sch_filter_input (t : Q) (e : option DataFrame)
  : Schneider.input :=
  {| Schneider.now := t; Schneider.filter_active := true;
     Schneider.save_clicked := false; Schneider.pre_edited := None;
     Schneider.edited := e |}.

Definition sch_unfilter_input (t : Q) (pre : option DataFrame)
  : Schneider.input :=
  {| Schneider.now := t; Schneider.filter_active := false;
     Schneider.save_clicked := false; Schneider.pre_edited := pre;
     Schneider.edited := None |}.

Definition sch_unconfigured : Schneider.world :=
  {| Schneider.dbx_configured := false; Schneider.upload := λ _, None;
     Schneider.clock := 0%Q |}.

Definition cap_save_input (t : Q) : Capgemini.input :=
  {| Capgemini.now := t; Capgemini.filter_active := false;
     Capgemini.save_clicked := true; Capgemini.pre_edited := None;
     Capgemini.edited := None |}.

(** ** The editor path *)
(** The working tables that the editor path is stated for: the seven
    canonical columns are there, the scratch columns are not, every flag
    is a boolean, and (for app_capgemini.py) every text field a string. *)
Definition no_scratch (cs : list string) (df : DataFrame) : Prop :=
  Forall (λ c, has_column c df = false) (scratch_columns cs).

Definition text_strings (df : DataFrame) : Prop :=
  Forall (λ r, Forall (λ c, ∃ s, r !! c = Some (CStr s)) TEXT_COLS)
         (rows df).

(** The delta row that has the key of a row, if any. *)
Definition partner `{Unicode} (delta : DataFrame) (r : row) : option row :=
  snd <$> head (filter (λ p, p.1 = key_of_row r)
                  (zip (App._key delta) (rows delta))).

(** A row with the flags that a delta row holds. *)
Definition take_flags (m : option row) (r : row) : row :=
  foldl (λ acc c, match astype_bool (new_cell m c) with
                  | Some b => <[c := CBool b]> acc
                  | None => acc
                  end) r BOOL_COLS.

(** A row with the cells that a delta row holds, as app_capgemini.py
    takes them: every text field becomes the text of the delta's field,
    or of its own where the delta's is missing. *)
Definition take_cells (m : option row) (r : row) : row :=
  foldl (λ acc c,
           if bool_decide (c ∈ BOOL_COLS)
           then match astype_bool (new_cell m c) with
                | Some b => <[c := CBool b]> acc
                | None => acc
                end
           else <[c := CStr (str_of_cell
                               (combine_first (new_cell m c) (get_cell r c)))]>
                  acc)
        r (TEXT_COLS ++ BOOL_COLS).

(** A row with its text fields as [astype(str)] leaves them. *)
Definition stringified (r : row) : row :=
  foldl (λ acc c, <[c := CStr (str_of_cell (get_cell r c))]> acc) r TEXT_COLS.

(* example data *)
Definition seen_delta (x : candidate) : DataFrame :=
  {| columns := list_to_set (TEXT_COLS ++ BOOL_COLS);
     rows := [project (TEXT_COLS ++ BOOL_COLS)
                (<[SEEN := CBool true]> (project TEXT_COLS (row_of x)))] |}.

Definition no_file : DataFrame :=
  {| columns := list_to_set (TEXT_COLS ++ BOOL_COLS);
     rows := [<[FILE := CNaN]> (row_of alice); row_of bob] |}.

Definition poll_example : Capgemini.poll_state :=
  {| Capgemini.last_seen_hash := Some "h1";
     Capgemini.last_hash_check := 0%Q |}.

(** ** More on utils.py *)
(** The state row that has the key of a base row, if any. *)
Definition state_partner `{Unicode} (state : DataFrame) (r : row)
    : option row :=
  snd <$> head (filter (λ p, p.1 = Utils.row_key r)
                  (zip (Utils._key_series state) (rows state))).

(* example data *)
Definition base_list : DataFrame :=
  {| columns := list_to_set TEXT_COLS;
     rows := [project TEXT_COLS (row_of alice);
              project TEXT_COLS (row_of bob)] |}.

Definition no_rows : DataFrame :=
  {| columns := list_to_set (TEXT_COLS ++ BOOL_COLS); rows := [] |}.

(** ** The base table of utils.py and the text fields of the normaliser *)
(** What [normalize_base_df] makes of one row; [has c] tells whether the
    frame has column [c]. *)
Definition normalize_row `{Unicode} (basename : cell → pystr)
    (has : string → bool) (r : row) : row :=
  let file := if has FILE then get_cell r FILE else CStr (lit "") in
  list_to_map
    [ (FIRST, if has FIRST then get_cell r FIRST else CStr (lit ""));
      (LAST, if has LAST then get_cell r LAST else CStr (lit ""));
      (FILE, CStr (Utils.clean_file_name
                     (if has Utils.URL &&
                         (isna file ||
                          bool_decide (strip (str_of_cell file) = []))
                      then CStr (basename (get_cell r Utils.URL))
                      else file))) ].

(** ** From the checkbox to the upload *)
(** The pass of app_schneider.py in which an edit is pending and "Save
    now" was clicked, with no filter. *)
Definition sch_edit_and_save (t : Q) (d : DataFrame) : Schneider.input :=
  {| Schneider.now := t; Schneider.filter_active := false;
     Schneider.save_clicked := true; Schneider.pre_edited := None;
     Schneider.edited := Some d |}.

(** * Theorems *)

Section strip.
Variable sp : N → bool.

Lemma lstrip_blank_app w x : blank sp w → lstrip_with sp (w ++ x) = lstrip_with sp x.
Proof. induction 1 as [|c w Hc _ IH]; simpl; [done|]. by rewrite Hc. Qed.

Lemma lstrip_split s : ∃ w, blank sp w ∧ s = w ++ lstrip_with sp s.
Proof.
  induction s as [|c s [w [Hw Hs]]]; simpl.
  - exists []. split; [constructor | done].
  - destruct (sp c) eqn:Hc.
    + exists (c :: w). split; [by constructor|]. simpl. by f_equal.
    + exists []. split; [constructor | done].
Qed.

Lemma lstrip_snoc x c :
  lstrip_with sp (x ++ [c]) =
  if forallb sp x then lstrip_with sp [c] else lstrip_with sp x ++ [c].
Proof.
  induction x as [|d x IH]; simpl; [done|].
  destruct (sp d); simpl; [done|done].
Qed.

Lemma rstrip_cons c x :
  rstrip_with sp (c :: x) =
  if forallb sp x then (if sp c then [] else [c]) else c :: rstrip_with sp x.
Proof.
  unfold rstrip_with. rewrite reverse_cons, lstrip_snoc.
  assert (forallb sp (reverse x) = forallb sp x) as ->.
  { apply eq_true_iff_eq. rewrite !forallb_forall.
    split; intros Hx y Hy; apply Hx; apply list_elem_of_In;
      apply list_elem_of_In in Hy; revert Hy; rewrite elem_of_reverse; done. }
  destruct (forallb sp x); simpl.
  - by destruct (sp c).
  - by rewrite reverse_app.
Qed.

Lemma lstrip_all_blank x : forallb sp x = true → lstrip_with sp x = [].
Proof.
  induction x as [|c x IH]; simpl; [done|].
  intros [-> ?]%andb_true_iff. auto.
Qed.

Lemma strip_comm x :
  lstrip_with sp (rstrip_with sp x) = rstrip_with sp (lstrip_with sp x).
Proof.
  induction x as [|c x IH]; [done|].
  rewrite rstrip_cons. simpl. destruct (sp c) eqn:Hc.
  - destruct (forallb sp x) eqn:Hx.
    + by rewrite (lstrip_all_blank x Hx).
    + simpl. by rewrite Hc.
  - rewrite rstrip_cons. destruct (forallb sp x); simpl; by rewrite Hc.
Qed.

Lemma rstrip_blank_app x w : blank sp w → rstrip_with sp (x ++ w) = rstrip_with sp x.
Proof.
  intros Hw. unfold rstrip_with. rewrite reverse_app, lstrip_blank_app; [done|].
  unfold blank. by apply Forall_reverse.
Qed.

Lemma rstrip_split s : ∃ w, blank sp w ∧ s = rstrip_with sp s ++ w.
Proof.
  destruct (lstrip_split (reverse s)) as [w [Hw Hs]].
  exists (reverse w). split; [by apply Forall_reverse|].
  unfold rstrip_with. rewrite <- reverse_app, <- Hs. by rewrite reverse_involutive.
Qed.

Lemma strip_blank_app w1 x w2 :
  blank sp w1 → blank sp w2 →
  strip_with sp (w1 ++ x ++ w2) = strip_with sp x.
Proof.
  intros H1 H2. unfold strip_with.
  rewrite lstrip_blank_app by done.
  rewrite <- strip_comm, rstrip_blank_app by done. apply strip_comm.
Qed.

Lemma strip_split s : ∃ w1 w2, blank sp w1 ∧ blank sp w2 ∧ s = w1 ++ strip_with sp s ++ w2.
Proof.
  destruct (lstrip_split s) as [w1 [H1 Hs]].
  destruct (rstrip_split (lstrip_with sp s)) as [w2 [H2 Hs']].
  exists w1, w2. split_and!; [done..|]. unfold strip_with.
  by rewrite <- Hs', <- Hs.
Qed.

Lemma strip_idemp s : strip_with sp (strip_with sp s) = strip_with sp s.
Proof.
  destruct (strip_split s) as (w1 & w2 & H1 & H2 & Hs).
  rewrite Hs at 2. by rewrite strip_blank_app.
Qed.

Lemma strip_fmap (f : N → N) s :
  (∀ c, sp (f c) = sp c) →
  strip_with sp (f <$> s) = f <$> strip_with sp s.
Proof.
  intros Hf.
  assert (∀ x, lstrip_with sp (f <$> x) = f <$> lstrip_with sp x) as Hl.
  { induction x as [|c x IH]; simpl; [done|]. rewrite Hf. by destruct (sp c). }
  unfold strip_with, rstrip_with.
  by rewrite Hl, <- fmap_reverse, Hl, fmap_reverse.
Qed.

End strip.

(** ** The example database satisfies the laws *)
Lemma below_128 (P : N → Prop) :
  Forall P (N.of_nat <$> seq 0 128) → ∀ c, (c < 128)%N → P c.
Proof.
  intros HP c Hc. rewrite Forall_forall in HP. apply HP.
  apply list_elem_of_fmap. exists (N.to_nat c). split; [lia|].
  apply elem_of_seq. lia.
Qed.

Lemma latin_isspace_ascii c :
  (c < 128)%N → Latin.isspace c = ascii_isspace c.
Proof.
  revert c. apply below_128.
  apply Forall_forall. intros c Hc.
  revert c Hc. apply Forall_forall.
  compute_done.
Qed.

Lemma latin_lower_ascii s :
  Forall (λ c, (c < 128)%N) s → Latin.lower s = ascii_lower <$> s.
Proof.
  intros Hs. unfold Latin.lower. apply Forall_fmap_ext_1.
  eapply Forall_impl; [exact Hs|]. intros c Hc.
  unfold Latin.lower_char, ascii_lower.
  simpl in Hc. destruct (192 <=? c)%N eqn:E; [apply N.leb_le in E; lia|].
  by rewrite andb_false_l, orb_false_r.
Qed.

Lemma latin_lower_space c : Latin.isspace (Latin.lower_char c) = Latin.isspace c.
Proof.
  unfold Latin.lower_char.
  destruct ((65 <=? c) && (c <=? 90) || (192 <=? c) && (c <=? 222) && negb (c =? 215))%N eqn:E;
    [|done].
  assert (c < 256)%N as Hc.
  { apply orb_true_iff in E as [E|E].
    - apply andb_true_iff in E as [_ E%N.leb_le]. lia.
    - apply andb_true_iff in E as [E _]. apply andb_true_iff in E as [_ E%N.leb_le]. lia. }
  assert (Forall (λ d,
    ((65 <=? d) && (d <=? 90) || (192 <=? d) && (d <=? 222) && negb (d =? 215))%N = true →
    Latin.isspace (d + 32) = Latin.isspace d) (N.of_nat <$> seq 0 256)) as Hall
    by compute_done.
  rewrite Forall_forall in Hall. apply Hall; [|done].
  apply list_elem_of_fmap. exists (N.to_nat c). split; [lia|]. apply elem_of_seq. lia.
Qed.

Lemma latin_lower_strip s :
  Latin.lower (strip_with Latin.isspace s) =
  strip_with Latin.isspace (Latin.lower s).
Proof. unfold Latin.lower. symmetry. apply strip_fmap, latin_lower_space. Qed.

Lemma latin_unaccent_app a b :
  latin_unaccent (a ++ b) = latin_unaccent a ++ latin_unaccent b.
Proof.
  unfold latin_unaccent, unaccent_with, Latin.nfkd.
  by rewrite bind_app, filter_app.
Qed.

Lemma latin_unaccent_blank w :
  blank Latin.isspace w → blank Latin.isspace (latin_unaccent w).
Proof.
  induction 1 as [|c w Hc _ IH]; [constructor|].
  change (c :: w) with ([c] ++ w). rewrite latin_unaccent_app.
  apply Forall_app. split; [|done].
  unfold Latin.isspace in Hc. apply bool_decide_eq_true in Hc.
  assert (Forall (λ c, blank Latin.isspace (latin_unaccent [c])) Latin.spaces) as Hall.
  { unfold blank. compute_done. }
  rewrite Forall_forall in Hall. by apply Hall.
Qed.

Lemma latin_unaccent_strip s :
  strip_with Latin.isspace (latin_unaccent (strip_with Latin.isspace s)) =
  strip_with Latin.isspace (latin_unaccent s).
Proof.
  destruct (strip_split Latin.isspace s) as (w1 & w2 & H1 & H2 & Hs).
  rewrite Hs at 2. rewrite !latin_unaccent_app.
  symmetry. apply strip_blank_app; by apply latin_unaccent_blank.
Qed.

Global Instance latin : Unicode := {|
  py_isspace := Latin.isspace;
  py_lower := Latin.lower;
  py_nfkd := Latin.nfkd;
  py_combining := Latin.combining;
  isspace_ascii := latin_isspace_ascii;
  lower_ascii := latin_lower_ascii;
  lower_strip := latin_lower_strip;
  unaccent_strip := latin_unaccent_strip
|}.

(** ** The schema normaliser, row by row *)
Lemma get_cell_insert (r : row) c c' v :
  get_cell (<[c:=v]> r) c' = if decide (c = c') then v else get_cell r c'.
Proof. unfold get_cell. rewrite lookup_insert. by case_decide. Qed.

Lemma get_cell_insert_eq (r : row) c v : get_cell (<[c:=v]> r) c = v.
Proof. rewrite get_cell_insert. by case_decide. Qed.

Lemma get_cell_insert_ne (r : row) c c' v :
  c ≠ c' → get_cell (<[c:=v]> r) c' = get_cell r c'.
Proof. intros. rewrite get_cell_insert. by case_decide. Qed.

Ltac cells :=
  repeat first
    [ rewrite get_cell_insert_eq
    | rewrite get_cell_insert_ne by (intros ?; discriminate) ].

Section ensure.
Context `{Unicode}.
Import App.

Lemma lstrip_with_ext sp1 sp2 s :
  Forall (λ c, sp1 c = sp2 c) s → lstrip_with sp1 s = lstrip_with sp2 s.
Proof. induction 1 as [|c s Hc _ IH]; simpl; [done|]. by rewrite Hc, IH. Qed.

Lemma lstrip_with_Forall (P : N → Prop) sp s :
  Forall P s → Forall P (lstrip_with sp s).
Proof.
  induction 1 as [|c s Hc Hs IH]; simpl; [constructor|].
  destruct (sp c); [done | by constructor].
Qed.

Lemma strip_with_Forall (P : N → Prop) sp s :
  Forall P s → Forall P (strip_with sp s).
Proof.
  intros Hs. unfold strip_with, rstrip_with.
  by apply Forall_reverse, lstrip_with_Forall, Forall_reverse, lstrip_with_Forall.
Qed.

Lemma strip_with_ext sp1 sp2 s :
  Forall (λ c, sp1 c = sp2 c) s → strip_with sp1 s = strip_with sp2 s.
Proof.
  intros Hs. unfold strip_with, rstrip_with.
  rewrite (lstrip_with_ext sp1 sp2 s Hs). f_equal.
  apply lstrip_with_ext, Forall_reverse, lstrip_with_Forall, Hs.
Qed.

(** On ASCII text the database is not consulted. *)
Lemma lower_strip_ascii s :
  Forall (λ c, (c < 128)%N) s →
  py_lower (strip s) = ascii_lower <$> strip_with ascii_isspace s.
Proof.
  intros Hs. unfold strip.
  rewrite (strip_with_ext py_isspace ascii_isspace).
  - apply lower_ascii. by apply strip_with_Forall.
  - eapply Forall_impl; [exact Hs|]. intros c Hc. by apply isspace_ascii.
Qed.

Lemma flag_of_ascii s :
  Forall (λ c, (c < 128)%N) s →
  flag_of (CStr s) =
  default false (assoc (ascii_lower <$> strip_with ascii_isspace s) flag_words).
Proof. intros Hs. unfold flag_of. simpl. by rewrite lower_strip_ascii. Qed.

Lemma flag_of_bool b : flag_of (CBool b) = b.
Proof.
  unfold flag_of. rewrite lower_strip_ascii.
  - by destruct b.
  - destruct b; simpl; repeat constructor.
Qed.

Lemma has_column_set_column c c' f d :
  has_column c' (set_column c f d) = bool_decide (c' = c) || has_column c' d.
Proof.
  unfold has_column, set_column. simpl.
  apply eq_true_iff_eq. rewrite orb_true_iff, !bool_decide_eq_true. set_solver.
Qed.

Lemma rows_ensure_text d c :
  rows (ensure_text d c) = text_step (has_column c d) c <$> rows d.
Proof.
  unfold ensure_text, text_step. destruct (has_column c d); simpl; [|done].
  by rewrite list_fmap_id.
Qed.

Lemma rows_ensure_flag d c :
  rows (ensure_flag d c) = flag_step (has_column c d) c <$> rows d.
Proof. unfold ensure_flag, flag_step. by destruct (has_column c d). Qed.

Lemma has_ensure_text d c c' :
  c ≠ c' → has_column c' (ensure_text d c) = has_column c' d.
Proof.
  intros Hc. unfold ensure_text. destruct (has_column c d); [done|].
  rewrite has_column_set_column. by rewrite bool_decide_eq_false_2.
Qed.

Lemma has_ensure_flag d c c' :
  c ≠ c' → has_column c' (ensure_flag d c) = has_column c' d.
Proof.
  intros Hc. unfold ensure_flag.
  destruct (has_column c d); rewrite has_column_set_column;
    by rewrite bool_decide_eq_false_2.
Qed.

Lemma ensure_schema_rows df :
  _ensure_schema df =
  {| columns := list_to_set (TEXT_COLS ++ BOOL_COLS);
     rows := ensure_row (λ c, has_column c df) <$> rows df |}.
Proof.
  unfold _ensure_schema, select. f_equal.
  cbn [foldl TEXT_COLS BOOL_COLS].
  rewrite !rows_ensure_flag, !rows_ensure_text.
  rewrite !has_ensure_flag, !has_ensure_text by (intros ?; discriminate).
  rewrite <- !list_fmap_compose. apply list_fmap_ext. intros _ r _.
  unfold ensure_row, project, flag_step, text_step, compose.
  cbn [fmap list_fmap TEXT_COLS BOOL_COLS app].
  destruct (has_column FIRST df), (has_column LAST df), (has_column FILE df);
    cells; reflexivity.
Qed.

Lemma has_column_canonical c (rs : list row) :
  c ∈ TEXT_COLS ++ BOOL_COLS →
  has_column c {| columns := list_to_set (TEXT_COLS ++ BOOL_COLS);
                  rows := rs |} = true.
Proof.
  intros Hc. unfold has_column. apply bool_decide_eq_true_2.
  cbn [columns]. by apply elem_of_list_to_set.
Qed.

Lemma ensure_row_twice has (has' : string → bool) r :
  (∀ c, c ∈ TEXT_COLS ++ BOOL_COLS → has' c = true) →
  ensure_row has' (ensure_row has r) = ensure_row has r.
Proof.
  intros Hall. unfold ensure_row at 1.
  cbn [fmap list_fmap TEXT_COLS BOOL_COLS app].
  rewrite !Hall by (vm_compute; set_solver).
  unfold ensure_row. cbn [fmap list_fmap TEXT_COLS BOOL_COLS app].
  cbn [list_to_map foldr uncurry fst snd]. cells.
  rewrite !flag_of_bool. reflexivity.
Qed.

Lemma ensure_row_record has x :
  (∀ c, c ∈ TEXT_COLS ++ BOOL_COLS → has c = true) →
  ensure_row has (row_of x) = row_of x.
Proof.
  intros Hall. unfold ensure_row, row_of.
  cbn [fmap list_fmap TEXT_COLS BOOL_COLS app].
  rewrite !Hall by (vm_compute; set_solver).
  cbn [list_to_map foldr uncurry fst snd]. cells.
  rewrite !flag_of_bool. reflexivity.
Qed.

Lemma ensure_schema_table xs : _ensure_schema (table_of xs) = table_of xs.
Proof.
  rewrite ensure_schema_rows. unfold table_of. f_equal.
  cbn [rows]. rewrite <- list_fmap_compose. apply list_fmap_ext.
  intros _ x _. apply ensure_row_record.
  intros c Hc. by apply has_column_canonical.
Qed.

Lemma ensure_schema_idemp df :
  _ensure_schema (_ensure_schema df) = _ensure_schema df.
Proof.
  rewrite (ensure_schema_rows df). rewrite ensure_schema_rows. f_equal.
  cbn [rows]. rewrite <- list_fmap_compose. apply list_fmap_ext.
  intros _ r _. apply ensure_row_twice.
  intros c Hc. by apply has_column_canonical.
Qed.

End ensure.

(** ** The index algebra *)
Lemma zip_fmap_same {A B C} (f : A → B) (g : A → C) (l : list A) :
  zip (f <$> l) (g <$> l) = (λ x, (f x, g x)) <$> l.
Proof. induction l as [|x l IH]; [done|]. csimpl. f_equal. exact IH. Qed.

Lemma filter_zip_fmap {A B} (h : A → B) (P : A * B → Prop)
    `{∀ p, Decision (P p)} (l : list A) :
  (filter P (zip l (h <$> l))).*1 = filter (λ k, P (k, h k)) l.
Proof.
  induction l as [|k l IH]; [done|].
  cbn [fmap list_fmap zip zip_with]. rewrite !filter_cons.
  destruct (decide (P (k, h k))); cbn [fmap list_fmap fst]; by rewrite <- IH.
Qed.

Lemma elem_of_remove1 x y l : x ∈ remove1 y l → x ∈ l.
Proof.
  induction l as [|z l IH]; simpl; [done|].
  case_decide; [by constructor|].
  intros [->|?]%elem_of_cons; [by left | right; auto].
Qed.

Lemma elem_of_remove1_ne x y l : x ≠ y → x ∈ l → x ∈ remove1 y l.
Proof.
  intros Hne. induction l as [|z l IH]; simpl; [done|].
  intros [->|Hin]%elem_of_cons.
  - case_decide; [congruence | by left].
  - case_decide; [done | right; auto].
Qed.

Lemma NoDup_remove1 y l : NoDup l → NoDup (remove1 y l).
Proof.
  induction 1 as [|z l Hz Hl IH]; simpl; [constructor|].
  case_decide; [done|]. constructor; [|done].
  intros Hin. by apply Hz, (elem_of_remove1 _ y).
Qed.

Lemma not_elem_of_remove1 y l : NoDup l → y ∉ remove1 y l.
Proof.
  induction 1 as [|z l Hz Hl IH]; simpl; [by intros ?%elem_of_nil|].
  case_decide; [by subst|].
  intros [?|?]%elem_of_cons; [congruence | done].
Qed.

Lemma elem_of_msub x b a : x ∈ msub b a → x ∈ b.
Proof.
  revert b. induction a as [|y a IH]; intros b; simpl; [done|].
  intros Hin. apply IH in Hin. by eapply elem_of_remove1.
Qed.

Lemma elem_of_msub_2 x b a : x ∈ b → x ∉ a → x ∈ msub b a.
Proof.
  revert b. induction a as [|y a IH]; intros b Hb Ha; simpl; [done|].
  apply not_elem_of_cons in Ha as [Hne Ha].
  apply IH; [|done]. by apply elem_of_remove1_ne.
Qed.

Lemma NoDup_msub b a : NoDup b → NoDup (msub b a).
Proof.
  revert b. induction a as [|y a IH]; intros b Hb; simpl; [done|].
  by apply IH, NoDup_remove1.
Qed.

Lemma not_elem_of_msub x b a : NoDup b → x ∈ a → x ∉ msub b a.
Proof.
  revert b. induction a as [|y a IH]; intros b Hb Ha; simpl.
  - by apply elem_of_nil in Ha.
  - apply elem_of_cons in Ha as [->|Ha].
    + intros Hin%elem_of_msub. by apply (not_elem_of_remove1 y b).
    + by apply IH; [apply NoDup_remove1|].
Qed.

Lemma index_union_unfold a b :
  index_union a b =
  if decide (b = [] ∨ a = b) then a
  else if decide (a = []) then b
  else merge_sort str_le (a ++ msub b a).
Proof. reflexivity. Qed.

Lemma elem_of_index_union x a b : x ∈ index_union a b ↔ x ∈ a ∨ x ∈ b.
Proof.
  rewrite index_union_unfold. repeat case_decide.
  - destruct H as [->| ->]; [|tauto].
    split; [auto|]. intros [?|?%elem_of_nil]; done.
  - subst. split; [auto|]. intros [?%elem_of_nil|?]; done.
  - rewrite merge_sort_Permutation, elem_of_app. split.
    + intros [?|?%elem_of_msub]; auto.
    + intros [?|Hb]; [auto|].
      destruct (decide (x ∈ a)); [auto|]. right. by apply elem_of_msub_2.
Qed.

Lemma NoDup_index_union a b : NoDup a → NoDup b → NoDup (index_union a b).
Proof.
  intros Ha Hb. rewrite index_union_unfold. repeat case_decide; [done..|].
  rewrite merge_sort_Permutation. apply NoDup_app. split_and!; [done| |].
  - intros x Hx. by apply not_elem_of_msub.
  - by apply NoDup_msub.
Qed.

Lemma index_union_same a : index_union a a = a.
Proof. rewrite index_union_unfold. rewrite decide_True; auto. Qed.

(** ** [reindex] *)
Lemma first_with_label_elem (d : indexed) k r :
  NoDup d.*1 → (k, r) ∈ d → first_with_label k d = r.
Proof.
  unfold first_with_label.
  induction d as [|[k' r'] d IH]; simpl; [by intros _ ?%elem_of_nil|].
  intros [Hk' Hd]%NoDup_cons [[= -> ->]|Hin]%elem_of_cons.
  - by rewrite filter_cons_True.
  - rewrite filter_cons_False; [by apply IH|].
    simpl. intros ->. apply Hk'. apply list_elem_of_fmap. by exists (k, r).
Qed.

Lemma first_with_label_missing (d : indexed) k :
  k ∉ d.*1 → first_with_label k d = ∅.
Proof.
  unfold first_with_label.
  induction d as [|[k' r'] d IH]; simpl; [done|].
  intros [Hne Hk]%not_elem_of_cons.
  rewrite filter_cons_False by (simpl; congruence). by apply IH.
Qed.

Lemma reindex_NoDup (d : indexed) idx :
  NoDup d.*1 → reindex d idx = Ok ((λ k, first_with_label k d) <$> idx).
Proof.
  intros Hd. unfold reindex. case_decide as Hid.
  - f_equal. rewrite <- Hid, <- list_fmap_compose.
    apply list_fmap_ext. intros i [k r] Hi. simpl. symmetry.
    apply first_with_label_elem; [done|]. by eapply list_elem_of_lookup_2.
  - by rewrite decide_True.
Qed.

Lemma reindex_same (d : indexed) : reindex d d.*1 = Ok d.*2.
Proof. unfold reindex. by rewrite decide_True. Qed.

Lemma reindex_duplicates (d : indexed) idx :
  ¬ NoDup d.*1 → d.*1 ≠ idx →
  reindex d idx = Raise "cannot reindex on an axis with duplicate labels".
Proof. intros Hd Hid. unfold reindex. by rewrite !decide_False. Qed.

(** ** The merge on tables without repeated keys *)
Section merge.
Context `{Unicode}.
Import App Capgemini.

Lemma index_by_key_form df :
  _index_by_key df = (λ r, (key_of_row r, r)) <$> rows (_ensure_schema df).
Proof.
  unfold _index_by_key, _key. cbv zeta.
  rewrite <- (list_fmap_id (rows (_ensure_schema df))) at 2.
  apply zip_fmap_same.
Qed.

Lemma keys_form df : keys df = key_of_row <$> rows (_ensure_schema df).
Proof.
  unfold keys. rewrite index_by_key_form, <- list_fmap_compose.
  by apply list_fmap_ext.
Qed.

Lemma index_by_key_rows df : (_index_by_key df).*2 = rows (_ensure_schema df).
Proof.
  rewrite index_by_key_form, <- list_fmap_compose.
  rewrite <- (list_fmap_id (rows (_ensure_schema df))) at 2.
  by apply list_fmap_ext.
Qed.

Lemma elem_of_union_idx base ours theirs k :
  k ∈ union_idx base ours theirs ↔
  k ∈ keys base ∨ k ∈ keys ours ∨ k ∈ keys theirs.
Proof.
  unfold union_idx, all_idx. rewrite !elem_of_index_union. unfold keys. tauto.
Qed.

Lemma NoDup_union_idx base ours theirs :
  NoDup (keys base) → NoDup (keys ours) → NoDup (keys theirs) →
  NoDup (union_idx base ours theirs).
Proof.
  unfold keys, union_idx, all_idx. intros HB HO HT.
  apply NoDup_index_union; [apply NoDup_index_union|]; assumption.
Qed.

Lemma merge_from_reindex base ours theirs idx (fb fo ft : pystr → row) :
  idx = all_idx (_index_by_key base) (_index_by_key ours)
          (_index_by_key theirs) →
  reindex (_index_by_key base) idx = Ok (fb <$> idx) →
  reindex (_index_by_key ours) idx = Ok (fo <$> idx) →
  reindex (_index_by_key theirs) idx = Ok (ft <$> idx) →
  _three_way_merge base ours theirs =
  Ok ({| columns := list_to_set (TEXT_COLS ++ BOOL_COLS);
         rows := (λ k, merge_row (fb k, (fo k, ft k))) <$> idx |},
      mjoin ((λ c, conflict_entry c <$>
                filter (λ k, text_both c (fb k) (fo k) (ft k) = true) idx)
             <$> TEXT_COLS)).
Proof.
  intros Hidx HB HO HT. unfold _three_way_merge. cbv zeta.
  rewrite <- Hidx. clear Hidx. rewrite HB, HO, HT. cbn [mbind result_bind].
  rewrite (zip_fmap_same fo ft idx).
  rewrite (zip_fmap_same fb (λ x, (fo x, ft x)) idx).
  f_equal. f_equal.
  - f_equal. by rewrite <- list_fmap_compose.
  - f_equal. apply list_fmap_ext. intros _ c _. unfold conflicts_of.
    f_equal.
    exact (filter_zip_fmap (λ x, (fb x, (fo x, ft x)))
             (λ p, text_both c p.2.1 p.2.2.1 p.2.2.2 = true) idx).
Qed.

Lemma merge_NoDup base ours theirs :
  NoDup (keys base) → NoDup (keys ours) → NoDup (keys theirs) →
  _three_way_merge base ours theirs =
  Ok ({| columns := list_to_set (TEXT_COLS ++ BOOL_COLS);
         rows := (λ k, merge_row (at_label base k,
                                  (at_label ours k, at_label theirs k)))
                   <$> union_idx base ours theirs |},
      mjoin ((λ c, conflict_entry c <$>
                filter (λ k, text_both c (at_label base k) (at_label ours k)
                               (at_label theirs k) = true)
                       (union_idx base ours theirs))
             <$> TEXT_COLS)).
Proof.
  unfold keys. intros HB HO HT.
  apply merge_from_reindex; [reflexivity|..]; unfold at_label;
    by apply reindex_NoDup.
Qed.

End merge.

Section merge_laws.
Context `{Unicode}.
Import App Capgemini.

Lemma merge_text_same c r :
  merge_text c r r r = CStr (default (lit "") (as_string (get_cell r c))).
Proof.
  unfold merge_text. destruct (as_string (get_cell r c)) as [s|]; [|done].
  cbn. rewrite bool_decide_eq_false_2 by (intros Hs; by apply Hs). done.
Qed.

Lemma text_both_same c r : text_both c r r r = false.
Proof.
  unfold text_both. destruct (as_string (get_cell r c)) as [s|]; [|done].
  cbn. rewrite bool_decide_eq_false_2 by (intros Hs; by apply Hs). done.
Qed.

Lemma merge_flag_same c r :
  merge_flag c r r r = CBool (default false (as_boolean (get_cell r c))).
Proof.
  unfold merge_flag. destruct (get_cell r c) as [s| |b|z|s]; try done.
  cbn. rewrite bool_decide_eq_false_2 by (intros Hs; by apply Hs). done.
Qed.

Lemma merge_row_same x :
  merge_row (row_of x, (row_of x, row_of x)) = row_of x.
Proof.
  unfold merge_row. cbn [fmap list_fmap TEXT_COLS BOOL_COLS app].
  rewrite !merge_text_same, !merge_flag_same. reflexivity.
Qed.

Lemma filter_none {A} (P : A → Prop) `{∀ x, Decision (P x)} (l : list A) :
  (∀ x, x ∈ l → ¬ P x) → filter P l = [].
Proof.
  induction l as [|x l IH]; intros HP; [done|].
  rewrite filter_cons_False by (apply HP; by left).
  apply IH. intros y Hy. apply HP. by right.
Qed.

Lemma merge_same xs :
  _three_way_merge (table_of xs) (table_of xs) (table_of xs)
  = Ok (table_of xs, []).
Proof.
  unfold _three_way_merge. cbv zeta. unfold all_idx.
  rewrite !index_union_same, !reindex_same. cbn [mbind result_bind].
  rewrite index_by_key_rows, ensure_schema_table. cbn [rows table_of].
  rewrite (zip_fmap_same row_of row_of xs).
  rewrite (zip_fmap_same row_of (λ x, (row_of x, row_of x)) xs).
  f_equal. f_equal.
  - unfold table_of. f_equal. rewrite <- list_fmap_compose.
    apply list_fmap_ext. intros _ x _. unfold compose.
    exact (merge_row_same x).
  - assert (∀ c idx, conflicts_of c idx
      ((λ x, (row_of x, (row_of x, row_of x))) <$> xs) = []) as Hc.
    { intros c idx. unfold conflicts_of. rewrite filter_none; [done|].
      intros [k bot] Hin. apply elem_of_zip_r in Hin.
      apply list_elem_of_fmap in Hin as [x [-> _]]. cbn [fst snd].
      by rewrite text_both_same. }
    cbn [fmap list_fmap TEXT_COLS]. by rewrite !Hc.
Qed.

Lemma get_cell_merge_text c b o t :
  c ∈ TEXT_COLS → get_cell (merge_row (b, (o, t))) c = merge_text c b o t.
Proof.
  intros Hc. apply list_elem_of_In in Hc. cbn in Hc.
  destruct Hc as [<-|[<-|[<-|[]]]]; reflexivity.
Qed.

Lemma get_cell_merge_flag c b o t :
  c ∈ BOOL_COLS → get_cell (merge_row (b, (o, t))) c = merge_flag c b o t.
Proof.
  intros Hc. apply list_elem_of_In in Hc. cbn in Hc.
  destruct Hc as [<-|[<-|[<-|[<-|[]]]]]; reflexivity.
Qed.

Lemma merge_text_both c b o t vb vo vt :
  as_string (get_cell b c) = Some vb → as_string (get_cell o c) = Some vo →
  as_string (get_cell t c) = Some vt → vo ≠ vb → vt ≠ vb →
  merge_text c b o t = CStr vo ∧ text_both c b o t = true.
Proof.
  intros Hb Ho Ht Hob Htb. unfold merge_text, text_both.
  rewrite Hb, Ho, Ht. cbn. by rewrite !bool_decide_eq_true_2.
Qed.

Lemma merge_flag_both c b o t vb vo vt :
  get_cell b c = CBool vb → get_cell o c = CBool vo →
  get_cell t c = CBool vt → vo ≠ vb → vt ≠ vb →
  merge_flag c b o t = CBool (vo || vt).
Proof.
  intros Hb Ho Ht Hob Htb. unfold merge_flag. rewrite Hb, Ho, Ht. cbn.
  rewrite !bool_decide_eq_true_2 by done. done.
Qed.

(** Every conflict entry names a text column. *)
Lemma conflict_entry_text_only c c' k k' :
  c ∈ BOOL_COLS → c' ∈ TEXT_COLS → conflict_entry c k ≠ conflict_entry c' k'.
Proof.
  intros Hc Hc' Heq. apply (f_equal head) in Heq.
  apply list_elem_of_In in Hc. apply list_elem_of_In in Hc'.
  cbn in Hc, Hc'.
  destruct Hc as [<-|[<-|[<-|[<-|[]]]]], Hc' as [<-|[<-|[<-|[]]]];
    vm_compute in Heq; discriminate.
Qed.

Lemma closed_form_both (idx : list pystr) (fb fo ft : pystr → row)
    k b o t :
  fb k = b → fo k = o → ft k = t → k ∈ idx →
  ∃ i r,
    idx !! i = Some k ∧
    ((λ k, merge_row (fb k, (fo k, ft k))) <$> idx) !! i = Some r ∧
    (∀ c vb vo vt,
       c ∈ TEXT_COLS →
       as_string (get_cell b c) = Some vb →
       as_string (get_cell o c) = Some vo →
       as_string (get_cell t c) = Some vt →
       vo ≠ vb → vt ≠ vb →
       get_cell r c = CStr vo ∧
       conflict_entry c k ∈
         mjoin ((λ c, conflict_entry c <$>
                   filter (λ k, text_both c (fb k) (fo k) (ft k) = true) idx)
                <$> TEXT_COLS)) ∧
    (∀ c vb vo vt,
       c ∈ BOOL_COLS →
       get_cell b c = CBool vb → get_cell o c = CBool vo →
       get_cell t c = CBool vt →
       vo ≠ vb → vt ≠ vb →
       get_cell r c = CBool (vo || vt) ∧
       conflict_entry c k ∉
         mjoin ((λ c, conflict_entry c <$>
                   filter (λ k, text_both c (fb k) (fo k) (ft k) = true) idx)
                <$> TEXT_COLS)).
Proof.
  intros Eb Eo Et Hk.
  apply list_elem_of_lookup in Hk as [i Hi]. exists i.
  exists (merge_row (b, (o, t))). split; [done|].
  rewrite list_lookup_fmap, Hi. cbn [fmap option_fmap option_map].
  rewrite Eb, Eo, Et. split; [reflexivity|].
  split.
  - intros c vb vo vt Hc Hvb Hvo Hvt Hob Htb.
    destruct (merge_text_both c b o t vb vo vt) as [Hm Hboth]; try done.
    rewrite get_cell_merge_text by done. split; [done|].
    apply list_elem_of_join.
    exists (conflict_entry c <$>
              filter (λ k, text_both c (fb k) (fo k) (ft k) = true) idx).
    split.
    + apply list_elem_of_fmap_2. apply list_elem_of_filter.
      split; [|by eapply list_elem_of_lookup_2].
      by rewrite Eb, Eo, Et.
    + apply list_elem_of_fmap. by exists c.
  - intros c vb vo vt Hc Hvb Hvo Hvt Hob Htb.
    rewrite get_cell_merge_flag by done. split.
    + by eapply merge_flag_both.
    + intros Hin. apply list_elem_of_join in Hin as [l [Hin Hl]].
      apply list_elem_of_fmap in Hl as [c' [-> Hc']].
      apply list_elem_of_fmap in Hin as [k' [Heq _]].
      by eapply conflict_entry_text_only.
Qed.

Lemma at_label_elem df k r :
  NoDup (keys df) → (k, r) ∈ _index_by_key df → at_label df k = r.
Proof.
  unfold keys, at_label. intros Hd Hr.
  exact (first_with_label_elem _ k r Hd Hr).
Qed.

Lemma key_in_union_l base ours theirs k b :
  (k, b) ∈ _index_by_key base → k ∈ union_idx base ours theirs.
Proof.
  intros Hb. apply elem_of_union_idx. left. unfold keys.
  apply list_elem_of_fmap. by exists (k, b).
Qed.

Lemma merge_NoDup_both base ours theirs :
  NoDup (keys base) → NoDup (keys ours) → NoDup (keys theirs) →
  ∃ merged conflicts,
    _three_way_merge base ours theirs = Ok (merged, conflicts) ∧
    ∀ k b o t,
      (k, b) ∈ _index_by_key base → (k, o) ∈ _index_by_key ours →
      (k, t) ∈ _index_by_key theirs →
      ∃ i r,
        union_idx base ours theirs !! i = Some k ∧
        rows merged !! i = Some r ∧
        (∀ c vb vo vt,
           c ∈ TEXT_COLS →
           as_string (get_cell b c) = Some vb →
           as_string (get_cell o c) = Some vo →
           as_string (get_cell t c) = Some vt →
           vo ≠ vb → vt ≠ vb →
           get_cell r c = CStr vo ∧ conflict_entry c k ∈ conflicts) ∧
        (∀ c vb vo vt,
           c ∈ BOOL_COLS →
           get_cell b c = CBool vb → get_cell o c = CBool vo →
           get_cell t c = CBool vt →
           vo ≠ vb → vt ≠ vb →
           get_cell r c = CBool (vo || vt) ∧
           conflict_entry c k ∉ conflicts).
Proof.
  intros HB HO HT.
  exists {| columns := list_to_set (TEXT_COLS ++ BOOL_COLS);
            rows := (λ k, merge_row (at_label base k,
                                     (at_label ours k, at_label theirs k)))
                      <$> union_idx base ours theirs |}.
  exists (mjoin ((λ c, conflict_entry c <$>
                filter (λ k, text_both c (at_label base k) (at_label ours k)
                               (at_label theirs k) = true)
                       (union_idx base ours theirs))
             <$> TEXT_COLS)).
  split; [exact (merge_NoDup base ours theirs HB HO HT)|].
  intros k b o t Hb Ho Ht.
  destruct (closed_form_both (union_idx base ours theirs) (at_label base)
              (at_label ours) (at_label theirs) k b o t
              (at_label_elem base k b HB Hb) (at_label_elem ours k o HO Ho)
              (at_label_elem theirs k t HT Ht)
              (key_in_union_l base ours theirs k b Hb))
    as (i & r & Hi & Hr & Htext & Hflag).
  exists i, r. split; [exact Hi|]. split; [exact Hr|].
  split; [exact Htext | exact Hflag].
Qed.

Lemma reindex_raises (d : indexed) idx e :
  reindex d idx = Raise e →
  e = "cannot reindex on an axis with duplicate labels".
Proof. unfold reindex. repeat case_decide; congruence. Qed.

Lemma merge_duplicates base ours theirs :
  (¬ NoDup (keys base) ∧ keys base ≠ union_idx base ours theirs) ∨
  (¬ NoDup (keys ours) ∧ keys ours ≠ union_idx base ours theirs) ∨
  (¬ NoDup (keys theirs) ∧ keys theirs ≠ union_idx base ours theirs) →
  _three_way_merge base ours theirs =
  Raise "cannot reindex on an axis with duplicate labels".
Proof.
  unfold keys, union_idx. intros Hdup. unfold _three_way_merge. cbv zeta.
  generalize dependent (all_idx (_index_by_key base) (_index_by_key ours)
                          (_index_by_key theirs)).
  intros idx Hdup.
  destruct (reindex (_index_by_key base) idx) as [B|e] eqn:HB.
  2:{ apply reindex_raises in HB as ->. reflexivity. }
  destruct (reindex (_index_by_key ours) idx) as [O|e] eqn:HO.
  2:{ apply reindex_raises in HO as ->. reflexivity. }
  destruct (reindex (_index_by_key theirs) idx) as [T|e] eqn:HT.
  2:{ apply reindex_raises in HT as ->. reflexivity. }
  destruct Hdup as [[Hd Hne]|[[Hd Hne]|[Hd Hne]]].
  - by rewrite reindex_duplicates in HB.
  - by rewrite reindex_duplicates in HO.
  - by rewrite reindex_duplicates in HT.
Qed.

Lemma merge_NoDup_rows base ours theirs :
  NoDup (keys base) → NoDup (keys ours) → NoDup (keys theirs) →
  ∃ merged conflicts,
    _three_way_merge base ours theirs = Ok (merged, conflicts) ∧
    NoDup (union_idx base ours theirs) ∧
    length (rows merged) = length (union_idx base ours theirs) ∧
    ∀ k, k ∈ union_idx base ours theirs ↔
         k ∈ keys base ∨ k ∈ keys ours ∨ k ∈ keys theirs.
Proof.
  intros HB HO HT. eexists _, _. split; [by apply merge_NoDup|].
  split; [by apply NoDup_union_idx|]. split.
  - cbn [rows]. by rewrite length_fmap.
  - intros k. apply elem_of_union_idx.
Qed.

End merge_laws.

(** ** Record keys *)
Lemma rtsc_invariant {A B} (R : relation A) (f : A → B) :
  (∀ a b, R a b → f a = f b) → ∀ a b, rtsc R a b → f a = f b.
Proof.
  intros HR a b Hab. induction Hab as [a|a b c [Hab|Hba] _ IH]; [done|..].
  - by rewrite (HR _ _ Hab).
  - by rewrite <- (HR _ _ Hba).
Qed.

Section keys.
Context `{Unicode}.

Lemma strip_padded a b : padded a b → strip b = strip a.
Proof.
  intros (l & r & Hl & Hr & ->). unfold strip. by apply strip_blank_app.
Qed.

Lemma app_name_variant a b :
  case_ws_variant a b → py_lower (strip a) = py_lower (strip b).
Proof.
  apply (rtsc_invariant _ (λ s, py_lower (strip s))). intros x y [Hp|Hl].
  - by rewrite (strip_padded x y).
  - unfold strip. rewrite !lower_strip. by rewrite Hl.
Qed.

Lemma app_file_variant a b : ws_variant a b → strip a = strip b.
Proof. apply (rtsc_invariant _ strip). intros x y Hp. by rewrite (strip_padded x y). Qed.

Lemma app_key_variant x y :
  case_ws_variant (first_name x) (first_name y) →
  case_ws_variant (last_name x) (last_name y) →
  ws_variant (file_name x) (file_name y) →
  App._key (table_of [x]) = App._key (table_of [y]).
Proof.
  intros Hf Hl Hu. unfold App._key. cbn [rows table_of fmap list_fmap].
  change (get_cell (row_of x) FIRST) with (CStr (first_name x)).
  change (get_cell (row_of x) LAST) with (CStr (last_name x)).
  change (get_cell (row_of x) FILE) with (CStr (file_name x)).
  change (get_cell (row_of y) FIRST) with (CStr (first_name y)).
  change (get_cell (row_of y) LAST) with (CStr (last_name y)).
  change (get_cell (row_of y) FILE) with (CStr (file_name y)).
  unfold App.key_of, App.key_text. cbn [fillna isna str_of_cell].
  by rewrite (app_name_variant _ _ Hf), (app_name_variant _ _ Hl),
    (app_file_variant _ _ Hu).
Qed.

Lemma utils_name_normal s :
  strip (py_lower (unaccent (strip s))) = strip (py_lower (unaccent s)).
Proof.
  unfold strip, unaccent. rewrite <- !lower_strip. by rewrite unaccent_strip.
Qed.

Lemma utils_name_variant a b :
  accent_case_ws_variant a b →
  strip (py_lower (unaccent (strip a))) = strip (py_lower (unaccent (strip b))).
Proof.
  apply (rtsc_invariant _ (λ s, strip (py_lower (unaccent (strip s))))). intros x y [Hp|Hl].
  - by rewrite (strip_padded x y).
  - rewrite !utils_name_normal. unfold same_base_letters in Hl. by rewrite Hl.
Qed.

Lemma utils_file_variant a b :
  case_ws_variant a b → strip (py_lower a) = strip (py_lower b).
Proof.
  apply (rtsc_invariant _ (λ s, strip (py_lower s))). intros x y [Hp|Hl].
  - unfold strip. rewrite <- !lower_strip. fold strip.
    by rewrite (strip_padded x y).
  - unfold same_letters in Hl. by rewrite Hl.
Qed.

Lemma utils_key_variant x y :
  accent_case_ws_variant (first_name x) (first_name y) →
  accent_case_ws_variant (last_name x) (last_name y) →
  case_ws_variant (file_name x) (file_name y) →
  Utils._key_series (table_of [x]) = Utils._key_series (table_of [y]).
Proof.
  intros Hf Hl Hu. unfold Utils._key_series, Utils.row_key.
  cbn [rows table_of fmap list_fmap].
  change (get_cell (row_of x) FIRST) with (CStr (first_name x)).
  change (get_cell (row_of x) LAST) with (CStr (last_name x)).
  change (get_cell (row_of x) FILE) with (CStr (file_name x)).
  change (get_cell (row_of y) FIRST) with (CStr (first_name y)).
  change (get_cell (row_of y) LAST) with (CStr (last_name y)).
  change (get_cell (row_of y) FILE) with (CStr (file_name y)).
  unfold Utils.name_key, Utils.file_key, Utils._norm.
  cbn [fillna isna str_of_cell].
  by rewrite (utils_name_variant _ _ Hf), (utils_name_variant _ _ Hl),
    (utils_file_variant _ _ Hu).
Qed.

End keys.

Section flush.
Context `{Unicode}.
Import App Capgemini.

Lemma merge_row_record bot : merge_row bot = row_of (merged_record bot).
Proof. by destruct bot as [b [o t]]. Qed.

Lemma merge_is_table base ours theirs merged conflicts :
  _three_way_merge base ours theirs = Ok (merged, conflicts) →
  ∃ xs, merged = table_of xs.
Proof.
  unfold _three_way_merge. cbv zeta.
  generalize (all_idx (_index_by_key base) (_index_by_key ours)
                (_index_by_key theirs)). intros idx.
  destruct (reindex (_index_by_key base) idx) as [B|e]; [|done].
  destruct (reindex (_index_by_key ours) idx) as [O|e]; [|done].
  destruct (reindex (_index_by_key theirs) idx) as [T|e]; [|done].
  cbn [mbind result_bind]. intros [= <- _].
  exists (merged_record <$> zip B (zip O T)). unfold table_of. f_equal.
  rewrite <- list_fmap_compose. apply list_fmap_ext.
  intros _ bot _. apply merge_row_record.
Qed.

Lemma merge_ensure_schema base ours theirs merged conflicts :
  _three_way_merge base ours theirs = Ok (merged, conflicts) →
  _ensure_schema merged = merged.
Proof.
  intros [xs ->]%merge_is_table. apply ensure_schema_table.
Qed.

Lemma capgemini_flush_merged ok_text err_text w s remote merged conflicts :
  fetched w remote →
  _three_way_merge (default remote (base_df s)) (df s) remote
    = Ok (merged, conflicts) →
  _flush_to_disk ok_text err_text w s =
  match upload w (serialize merged) with
  | None =>
      (with_base_df (Some merged)
         (with_df merged (with_flush_flags (clock w) s)),
       [EUpload (serialize merged)] ++
       (if decide (conflicts = []) then []
        else [EWarning (conflict_warning (length conflicts))]) ++
       [EToast ok_text])
  | Some err =>
      (with_flush_flags (clock w) s,
       [EUpload (serialize merged); EError (err_text +:+ ": " +:+ err)])
  end.
Proof.
  intros Hf Hm. unfold _flush_to_disk.
  assert (match _download_current_df_from_dbx w with
          | Ok d => Ok d
          | Raise _ => fetch_state_df w
          end = Ok remote) as ->.
  { unfold _download_current_df_from_dbx, fetch_state_df.
    destruct Hf as [(d & -> & ->)|(e & d & -> & -> & ->)]; done. }
  cbv zeta. rewrite Hm.
  destruct (upload w (serialize merged)); [done|].
  unfold _snapshot_base. cbn [df with_df].
  by rewrite (merge_ensure_schema _ _ _ _ _ Hm).
Qed.

Lemma capgemini_flush_unreachable ok_text err_text w s e1 e2 :
  download w = Raise e1 → fetch w = Raise e2 →
  _flush_to_disk ok_text err_text w s
  = (s, [EError (err_text +:+ ": " +:+ e2)]).
Proof.
  intros Hd Hf. unfold _flush_to_disk, _download_current_df_from_dbx,
    fetch_state_df. by rewrite Hd, Hf.
Qed.

Lemma schneider_flush ok_text err_text w s :
  Schneider._flush_to_disk ok_text err_text w s =
  (Schneider.with_buffer_dirty false
     (Schneider.with_last_batch_write (Schneider.clock w) s),
   if Schneider.dbx_configured w
   then EUpload (serialize (Schneider.df s)) ::
        match Schneider.upload w (serialize (Schneider.df s)) with
        | None => [EToast ok_text]
        | Some err => [EError (err_text +:+ ": " +:+ err)]
        end
   else [EError (err_text +:+ ": " +:+ "Dropbox not configured")]).
Proof.
  unfold Schneider._flush_to_disk, Schneider.write_state_df.
  destruct (Schneider.dbx_configured w); [|done].
  by destruct (Schneider.upload w _).
Qed.

End flush.

Section merge_self.
Context `{Unicode}.
Import App Capgemini.

Lemma merge_row_self has r :
  merge_row (ensure_row has r, (ensure_row has r, ensure_row has r))
  = row_of (self_merged has r).
Proof.
  unfold merge_row. cbn [fmap list_fmap TEXT_COLS BOOL_COLS app].
  rewrite !merge_text_same, !merge_flag_same.
  unfold ensure_row. cbn [fmap list_fmap TEXT_COLS BOOL_COLS app].
  cbn [list_to_map foldr uncurry fst snd]. cells.
  unfold row_of, self_merged, filled_text, as_string. cbn [as_boolean].
  cbn [first_name last_name file_name seen intend_view cv_saved contacted].
  destruct (has FIRST), (has LAST), (has FILE);
    repeat (match goal with
            | |- context [isna ?c] => destruct (isna c)
            end); reflexivity.
Qed.

(** The merge of a table with itself never raises and reports no
    conflict; it returns the table of the records above. *)
Lemma merge_self X :
  _three_way_merge X X X
  = Ok (table_of (self_merged (λ c, has_column c X) <$> rows X), []).
Proof.
  unfold _three_way_merge. cbv zeta. unfold all_idx.
  rewrite !index_union_same, !reindex_same. cbn [mbind result_bind].
  rewrite index_by_key_rows, ensure_schema_rows. cbn [rows].
  set (e := ensure_row (λ c, has_column c X)).
  rewrite (zip_fmap_same e e (rows X)).
  rewrite (zip_fmap_same e (λ r, (e r, e r)) (rows X)).
  f_equal. f_equal.
  - unfold table_of. f_equal. rewrite <- !list_fmap_compose.
    apply list_fmap_ext. intros _ r _. unfold compose.
    apply merge_row_self.
  - assert (∀ c idx, conflicts_of c idx
      ((λ r, (e r, (e r, e r))) <$> rows X) = []) as Hc.
    { intros c idx. unfold conflicts_of. rewrite filter_none; [done|].
      intros [k bot] Hin. apply elem_of_zip_r in Hin.
      apply list_elem_of_fmap in Hin as [x [-> _]]. cbn [fst snd].
      by rewrite text_both_same. }
    cbn [fmap list_fmap TEXT_COLS]. by rewrite !Hc.
Qed.

(** It returns the table itself exactly when the table is one of
    records. *)
Lemma merge_self_fixed X :
  _three_way_merge X X X = Ok (X, []) ↔ ∃ xs, X = table_of xs.
Proof.
  split.
  - intros HX. by apply merge_is_table in HX.
  - intros [xs ->]. apply merge_same.
Qed.

End merge_self.

(** ** The save policy of one pass *)
Section policy.
Context `{Unicode}.

Lemma schneider_edit_deferred i w s d :
  Schneider.filter_active i = false → Schneider.prev_filter s = false →
  Schneider.save_clicked i = false → Schneider._want_save s = false →
  Schneider.edited i = Some d →
  elapsed (Schneider.now i) (Schneider.last_batch_write s)
    Schneider.BATCH_SAVE_INTERVAL_SEC = false →
  Schneider.pass i w s =
  (Schneider.with_buffer_dirty true
     (Schneider.with_df d (Schneider.with_prev_filter false s)),
   [EInfo (Schneider.buffered_info
             (Schneider.secs_left (Schneider.now i)
                (Schneider.last_batch_write s)))]).
Proof.
  intros Hf Hp Hc Hw He Ht. unfold Schneider.pass, Schneider.andthen,
    Schneider.skip. destruct s, i. cbn in *. subst. cbn. by rewrite Ht.
Qed.

Lemma schneider_periodic_flush i w s :
  Schneider.filter_active i = false → Schneider.prev_filter s = false →
  Schneider.save_clicked i = false → Schneider._want_save s = false →
  Schneider.edited i = None → Schneider.buffer_dirty s = true →
  elapsed (Schneider.now i) (Schneider.last_batch_write s)
    Schneider.BATCH_SAVE_INTERVAL_SEC = true →
  Schneider.pass i w s =
  Schneider._flush_to_disk "Buffered changes auto-saved ✅" "Auto-save failed"
    (w Periodic) (Schneider.with_prev_filter false s).
Proof.
  intros Hf Hp Hc Hw He Hd Ht. unfold Schneider.pass, Schneider.andthen,
    Schneider.skip. destruct s, i. cbn in *. subst. cbn. rewrite Ht.
  by destruct (Schneider._flush_to_disk _ _ _ _).
Qed.

Lemma schneider_idle i w s :
  Schneider.filter_active i = false → Schneider.prev_filter s = false →
  Schneider.save_clicked i = false → Schneider._want_save s = false →
  Schneider.edited i = None →
  Schneider.buffer_dirty s = false ∨
  elapsed (Schneider.now i) (Schneider.last_batch_write s)
    Schneider.BATCH_SAVE_INTERVAL_SEC = false →
  Schneider.pass i w s = (Schneider.with_prev_filter false s, []).
Proof.
  intros Hf Hp Hc Hw He Hd. unfold Schneider.pass, Schneider.andthen,
    Schneider.skip. destruct s as [d0 bd lbw lst ws pf], i. cbn in *. subst. cbn.
  destruct Hd as [Hd|Hd].
  - subst bd. reflexivity.
  - rewrite Hd. by destruct bd.
Qed.

Lemma schneider_save_now i w s :
  Schneider.filter_active i = false → Schneider.prev_filter s = false →
  Schneider.save_clicked i = true → Schneider.edited i = None →
  Schneider.pass i w s =
  Schneider._flush_to_disk "Saved ✅" "Save failed" (w SaveNow)
    (Schneider.with_want_save false (Schneider.with_prev_filter false s)).
Proof.
  intros Hf Hp Hc He. unfold Schneider.pass, Schneider.andthen,
    Schneider.skip. destruct s, i. cbn in *. subst. cbn.
  rewrite !schneider_flush. cbn. by rewrite app_nil_r.
Qed.

Lemma capgemini_pass_quiet i w s :
  Capgemini.filter_active i = false → Capgemini.prev_filter s = false →
  Capgemini.save_clicked i = false → Capgemini._want_save s = false →
  Capgemini.pass i w s =
  let s1 := from_option (λ d, Capgemini.with_df d
                                (Capgemini.with_prev_filter false s))
              (Capgemini.with_prev_filter false s) (Capgemini.edited i) in
  if elapsed (Capgemini.now i) (Capgemini.last_auto_save s) 5
  then let r := Capgemini._flush_to_disk "Saved ✅" "Auto-save failed"
                  (w Periodic) s1 in
       (Capgemini.with_last_auto_save (Capgemini.now i) r.1, r.2)
  else (s1, []).
Proof.
  intros Hf Hp Hc Hw. unfold Capgemini.pass, Capgemini.andthen,
    Capgemini.skip. destruct s, i. cbn in *. subst. cbn.
  destruct edited; cbn;
    destruct (elapsed _ _ _); try done;
    by destruct (Capgemini._flush_to_disk _ _ _ _).
Qed.

End policy.

Section csv.
Context `{Unicode}.
Import App.

Lemma ensure_row_row7 has r : ensure_row has r = row7 (tuple_of has r).
Proof. reflexivity. Qed.

Lemma ensure_schema_row7 df :
  ∃ l, _ensure_schema df =
       {| columns := list_to_set (TEXT_COLS ++ BOOL_COLS);
          rows := row7 <$> l |}.
Proof.
  exists (tuple_of (λ c, has_column c df) <$> rows df).
  rewrite ensure_schema_rows. f_equal. rewrite <- list_fmap_compose.
  by apply list_fmap_ext.
Qed.

Lemma ensure_row_row7_id has x :
  (∀ c, c ∈ TEXT_COLS ++ BOOL_COLS → has c = true) →
  ensure_row has (row7 x) = row7 x.
Proof.
  intros Hall. destruct x as [[[a b] c] [[[s i] v] t]].
  unfold ensure_row, row7. cbn [fmap list_fmap TEXT_COLS BOOL_COLS app].
  rewrite !Hall by (vm_compute; set_solver).
  cbn [list_to_map foldr uncurry fst snd]. cells.
  rewrite !flag_of_bool. reflexivity.
Qed.

Lemma flag_of_int (b : bool) : flag_of (CInt (if b then 1 else 0)) = b.
Proof.
  unfold flag_of. rewrite lower_strip_ascii.
  - by destruct b.
  - destruct b; vm_compute; repeat constructor.
Qed.

Lemma ensure_row_read7 has x :
  (∀ c, c ∈ TEXT_COLS ++ BOOL_COLS → has c = true) →
  ensure_row has (read7 x) = row7 x.
Proof.
  intros Hall. destruct x as [[[a b] c] [[[s i] v] t]].
  unfold ensure_row, row7, read7.
  cbn [fmap list_fmap TEXT_COLS BOOL_COLS app].
  rewrite !Hall by (vm_compute; set_solver).
  cbn [list_to_map foldr uncurry fst snd]. cells.
  rewrite !flag_of_int. reflexivity.
Qed.

Lemma serialize_row7 l :
  serialize {| columns := list_to_set (TEXT_COLS ++ BOOL_COLS);
               rows := row7 <$> l |}
  = {| header := TEXT_COLS ++ BOOL_COLS; records := record7 <$> l |}.
Proof.
  unfold serialize. rewrite ensure_schema_rows. cbn [rows columns].
  unfold to_csv, flags_astype_int. f_equal.
  cbn [foldl BOOL_COLS]. unfold set_column. cbn [rows].
  rewrite <- !list_fmap_compose. apply list_fmap_ext.
  intros _ x _. unfold compose.
  rewrite ensure_row_row7_id by (intros c Hc; by apply has_column_canonical).
  destruct x as [[[a b] c] [[[s i] v] t]]. unfold row7, record7.
  cbn [fmap list_fmap TEXT_COLS BOOL_COLS app].
  cbn [list_to_map foldr uncurry fst snd]. cells.
  by destruct s, i, v, t.
Qed.

Lemma plain_not_int a :
  plain_text a = true → Csv.is_int_literal (field_of_cell a) = false.
Proof.
  destruct a as [s| | | |]; try done. cbn.
  destruct s as [|c s]; [done|]. unfold Csv.inert.
  intros [[Hc _]%andb_true_iff _]%andb_true_iff. apply negb_true_iff in Hc.
  apply orb_false_iff in Hc as [Hc _]. apply orb_false_iff in Hc as [Hc _].
  cbn. by rewrite Hc.
Qed.

Lemma plain_text_field a :
  plain_text a = true →
  (bool_decide (field_of_cell a = []) || Csv.inert (field_of_cell a)) = true.
Proof.
  destruct a as [s| | | |]; try done. cbn.
  intros [-> _]%andb_true_iff. apply orb_true_r.
Qed.

Lemma plain_read_back a :
  plain_text a = true → Csv.read_field Csv.KText (field_of_cell a) = a.
Proof.
  destruct a as [s| | | |]; try done. cbn.
  destruct s as [|c s]; [done|]. intros _. by rewrite decide_False.
Qed.

Lemma text_column_kind (g : cells7 → cell) l :
  l ≠ [] → Forall (λ x, plain_text (g x) = true) l →
  Csv.kind_of ((λ x, field_of_cell (g x)) <$> l) = Some Csv.KText.
Proof.
  intros Hl Hp. unfold Csv.kind_of.
  destruct l as [|x l]; [done|]. cbn [fmap list_fmap forallb].
  apply Forall_cons in Hp as [Hx Hp].
  rewrite (plain_not_int _ Hx). cbn [andb].
  rewrite (plain_text_field _ Hx). cbn [andb].
  assert (forallb (λ f, bool_decide (f = []) || Csv.inert f)
            ((λ x, field_of_cell (g x)) <$> l) = true) as ->; [|done].
  apply forallb_forall. intros f Hf. apply list_elem_of_In in Hf.
  apply list_elem_of_fmap in Hf as [y [-> Hy]].
  apply plain_text_field. rewrite Forall_forall in Hp. by apply Hp.
Qed.

Lemma flag_column_kind (g : cells7 → bool) (l : list cells7) :
  Csv.kind_of ((λ x, digit (g x)) <$> l) = Some Csv.KInt.
Proof.
  unfold Csv.kind_of.
  assert (forallb Csv.is_int_literal ((λ x, digit (g x)) <$> l) = true)
    as ->; [|done].
  apply forallb_forall. intros f Hf. apply list_elem_of_In in Hf.
  apply list_elem_of_fmap in Hf as [y [-> Hy]]. by destruct (g y).
Qed.

Lemma read_table_record7 l :
  Forall plain7 l →
  Csv.read_table {| header := TEXT_COLS ++ BOOL_COLS;
                    records := record7 <$> l |}
  = Some {| columns := list_to_set (TEXT_COLS ++ BOOL_COLS);
            rows := read7 <$> l |}.
Proof.
  intros Hp. destruct (decide (l = [])) as [->|Hl]; [reflexivity|].
  unfold Csv.read_table. cbn [header records].
  rewrite decide_True.
  2:{ split; [compute_done|]. split.
      - repeat (apply Forall_cons; split; [done|]). constructor.
      - apply Forall_fmap, Forall_true.
        by intros [[[a b] c] [[[s i] v] t]]. }
  assert (∀ (j : nat) (g : cells7 → pystr),
    (∀ x, default [] (record7 x !! j) = g x) →
    (λ r : list pystr, default [] (r !! j)) <$> (record7 <$> l) = g <$> l)
    as Hcol.
  { intros j g Hg. rewrite <- list_fmap_compose.
    apply list_fmap_ext. intros _ x _. apply Hg. }
  cbn [length app TEXT_COLS BOOL_COLS seq mapM mbind option_bind mret
       option_ret].
  rewrite (Hcol 0%nat (λ x, field_of_cell x.1.1.1))
    by (by intros [[[a b] c] [[[s i] v] t]]).
  rewrite (Hcol 1%nat (λ x, field_of_cell x.1.1.2))
    by (by intros [[[a b] c] [[[s i] v] t]]).
  rewrite (Hcol 2%nat (λ x, field_of_cell x.1.2))
    by (by intros [[[a b] c] [[[s i] v] t]]).
  rewrite (Hcol 3%nat (λ x, digit x.2.1.1.1))
    by (by intros [[[a b] c] [[[s i] v] t]]).
  rewrite (Hcol 4%nat (λ x, digit x.2.1.1.2))
    by (by intros [[[a b] c] [[[s i] v] t]]).
  rewrite (Hcol 5%nat (λ x, digit x.2.1.2))
    by (by intros [[[a b] c] [[[s i] v] t]]).
  rewrite (Hcol 6%nat (λ x, digit x.2.2))
    by (by intros [[[a b] c] [[[s i] v] t]]).
  rewrite (text_column_kind (λ x, x.1.1.1)), (text_column_kind (λ x, x.1.1.2)),
    (text_column_kind (λ x, x.1.2)); try done.
  2,3,4: eapply Forall_impl; [exact Hp|]; by intros x (?&?&?).
  rewrite !flag_column_kind. cbn [mbind option_bind mret option_ret].
  f_equal. f_equal. rewrite <- list_fmap_compose.
  apply Forall_fmap_ext_1. eapply Forall_impl; [exact Hp|].
  intros [[[a b] c] [[[s i] v] t]] (Ha & Hb & Hc). cbn in Ha, Hb, Hc.
  unfold compose, record7, read7.
  cbn [zip zip_with]. rewrite !plain_read_back by done.
  by destruct s, i, v, t.
Qed.

(** *** The text: what the tokenizer makes of what the writer wrote *)
Lemma name_of_lit s : Csv.name_of (lit s) = Some s.
Proof.
  unfold Csv.name_of, lit. induction s as [|a s IH]; [reflexivity|].
  cbn [String.list_ascii_of_string fmap list_fmap mapM].
  pose proof (Ascii.N_ascii_bounded a) as Ha.
  apply N.ltb_lt in Ha. rewrite Ha. cbn [mbind option_bind].
  rewrite Ascii.ascii_N_embedding.
  destruct (mapM _ _) as [l|] eqn:Hl; [|discriminate].
  cbn in IH |- *. injection IH as ->. reflexivity.
Qed.

Lemma names_of_lit (cs : list string) : mapM Csv.name_of (lit <$> cs) = Some cs.
Proof.
  induction cs as [|c cs IH]; [reflexivity|].
  cbn [fmap list_fmap mapM]. rewrite name_of_lit. cbn [mbind option_bind].
  fold (fmap (M := list) lit cs). rewrite IH. reflexivity.
Qed.

Lemma split_at_sep p f c rest :
  Forall (λ x, p x = false) f → p c = true →
  Csv.split_at p (f ++ c :: rest) = f :: Csv.split_at p rest.
Proof.
  intros Hf Hc. induction Hf as [|x f Hx _ IH]; cbn.
  - by rewrite Hc.
  - by rewrite Hx, IH.
Qed.

Lemma split_at_none p f :
  Forall (λ x, p x = false) f → Csv.split_at p f = [f].
Proof.
  intros Hf. induction Hf as [|x f Hx _ IH]; cbn; [done|].
  by rewrite Hx, IH.
Qed.

Lemma split_join (r : list pystr) :
  r ≠ [] → Forall (λ f, Forall (λ x, Csv.is_comma x = false) f) r →
  Csv.split_at Csv.is_comma (Csv.join_fields r) = r.
Proof.
  intros Hr Hf. induction Hf as [|f r Hf Hrest IH]; [done|].
  destruct r as [|g r].
  - cbn. by apply split_at_none.
  - change (Csv.join_fields (f :: g :: r))
      with (f ++ Csv.COMMA :: Csv.join_fields (g :: r)).
    rewrite split_at_sep by done. by rewrite IH.
Qed.

Lemma bare_chars f :
  Csv.bare f = true →
  Forall (λ c, plain_char c ∧ Csv.is_comma c = false) f.
Proof.
  unfold Csv.bare. rewrite forallb_forall, Forall_forall.
  intros Hf c Hc. apply list_elem_of_In, Hf in Hc.
  apply andb_true_iff in Hc as [_ Hc]. apply negb_true_iff in Hc.
  apply bool_decide_eq_false in Hc. unfold plain_char, Csv.is_eol, Csv.is_comma.
  split; [split|].
  - apply bool_decide_eq_false_2. intros [->|[->|[]%elem_of_nil]%elem_of_cons]%elem_of_cons;
      apply Hc; compute_done.
  - intros ->. apply Hc. compute_done.
  - apply bool_decide_eq_false_2. intros ->. apply Hc. compute_done.
Qed.

Lemma join_chars r :
  forallb Csv.bare r = true → Forall plain_char (Csv.join_fields r).
Proof.
  rewrite forallb_forall. intros Hr.
  assert (Forall (λ f, Csv.bare f = true) r) as Hb.
  { apply Forall_forall. intros f Hf. by apply Hr, list_elem_of_In. }
  clear Hr. induction Hb as [|f r Hf Hb IH]; [constructor|].
  assert (Forall plain_char f) as Hpf.
  { eapply Forall_impl; [exact (bare_chars f Hf)|]. by intros c [? _]. }
  destruct r as [|g r]; [exact Hpf|].
  change (Csv.join_fields (f :: g :: r))
    with (f ++ Csv.COMMA :: Csv.join_fields (g :: r)).
  apply Forall_app. split; [exact Hpf|].
  apply Forall_cons. split; [|exact IH]. split; [reflexivity|discriminate].
Qed.

Lemma join_not_blank r :
  (2 ≤ length r)%nat → forallb Csv.is_blank (Csv.join_fields r) = false.
Proof.
  intros Hr. destruct r as [|f [|g r]]; [cbn in Hr; lia..|].
  change (Csv.join_fields (f :: g :: r))
    with (f ++ Csv.COMMA :: Csv.join_fields (g :: r)).
  rewrite forallb_app. cbn [forallb].
  change (Csv.is_blank Csv.COMMA) with false. cbn [andb].
  apply andb_false_r.
Qed.

Lemma lines_skip_terminator es rest :
  Forall (λ c, Csv.is_eol c = true) es →
  filter (λ l, forallb Csv.is_blank l = false)
         (Csv.split_at Csv.is_eol (es ++ rest))
  = filter (λ l, forallb Csv.is_blank l = false)
           (Csv.split_at Csv.is_eol rest).
Proof.
  intros Hes. induction Hes as [|e es He _ IH]; [done|].
  cbn [app Csv.split_at]. rewrite He.
  rewrite filter_cons_False by (cbn; discriminate). exact IH.
Qed.

Lemma lines_of_text (linesep : pystr) (L : list pystr) :
  linesep ≠ [] → Forall (λ c, Csv.is_eol c = true) linesep →
  Forall (λ l, Forall (λ c, Csv.is_eol c = false) l ∧
               forallb Csv.is_blank l = false) L →
  filter (λ l, forallb Csv.is_blank l = false)
         (Csv.split_at Csv.is_eol (L ≫= λ l, l ++ linesep)) = L.
Proof.
  intros Hne Hsep HL. induction HL as [|l L [Hl Hb] _ IH]; [reflexivity|].
  rewrite bind_cons. destruct linesep as [|e es]; [done|].
  apply Forall_cons in Hsep as [He Hes].
  rewrite <- app_assoc. cbn [app].
  rewrite split_at_sep by done.
  rewrite filter_cons_True by exact Hb.
  rewrite lines_skip_terminator by exact Hes.
  f_equal. apply IH.
Qed.

Lemma no_quote_text (linesep : pystr) (L : list pystr) :
  Forall (λ c, Csv.is_eol c = true) linesep →
  Forall (Forall plain_char) L →
  Csv.QUOTE ∉ (L ≫= λ l, l ++ linesep).
Proof.
  intros Hsep HL Hin. apply list_elem_of_bind in Hin as (l & Hq & Hl).
  apply elem_of_app in Hq as [Hq|Hq].
  - rewrite Forall_forall in HL. specialize (HL l Hl).
    rewrite Forall_forall in HL. by destruct (HL _ Hq).
  - rewrite Forall_forall in Hsep. specialize (Hsep _ Hq). done.
Qed.

(** The tokenizer gives back the rows that the writer wrote, whichever
    of the two line terminators it used, when every row has at least two
    fields. *)
Lemma tokenize_to_text linesep g text :
  linesep ≠ [] → Forall (λ c, Csv.is_eol c = true) linesep →
  Forall (λ r : list pystr, (2 ≤ length r)%nat)
         ((lit <$> header g) :: records g) →
  Csv.to_text linesep g = Some text →
  Csv.tokenize text = Some ((lit <$> header g) :: records g).
Proof.
  intros Hne Hsep Hlen. unfold Csv.to_text.
  generalize ((lit <$> header g) :: records g) Hlen. clear Hlen g.
  intros L Hlen. destruct (forallb Csv.writable L) eqn:Hw; [|discriminate].
  intros [= <-].
  assert (Forall (λ r, forallb Csv.bare r = true ∧ r ≠ []) L) as HL.
  { apply Forall_forall. intros r Hr.
    rewrite forallb_forall in Hw. apply list_elem_of_In, Hw in Hr.
    unfold Csv.writable in Hr.
    apply andb_true_iff in Hr as [[Hb Hn]%andb_true_iff _].
    split; [exact Hb|]. apply negb_true_iff, bool_decide_eq_false in Hn.
    exact Hn. }
  clear Hw.
  replace (L ≫= λ r, Csv.join_fields r ++ linesep)
    with ((Csv.join_fields <$> L) ≫= λ l, l ++ linesep).
  2:{ clear. induction L as [|r L IH]; [done|].
      rewrite fmap_cons, !bind_cons. by rewrite IH. }
  unfold Csv.tokenize. rewrite bool_decide_eq_false_2.
  2:{ apply no_quote_text; [done|]. apply Forall_fmap.
      eapply Forall_impl; [exact HL|]. intros r [Hb _]. by apply join_chars. }
  f_equal. rewrite lines_of_text; [|done|done|].
  - rewrite <- list_fmap_compose. rewrite <- (list_fmap_id L) at 2.
    apply Forall_fmap_ext_1. eapply Forall_impl; [exact HL|].
    intros r [Hb Hn]. unfold compose. apply split_join; [done|].
    rewrite forallb_forall in Hb. apply Forall_forall. intros f Hf.
    apply list_elem_of_In, Hb in Hf.
    eapply Forall_impl; [exact (bare_chars f Hf)|]. by intros c [_ ?].
  - apply Forall_fmap. rewrite Forall_forall in Hlen, HL.
    apply Forall_forall. intros r Hr. unfold compose. split.
    + eapply Forall_impl; [apply join_chars, (HL r Hr)|]. by intros c [? _].
    + apply join_not_blank, Hlen, Hr.
Qed.

Lemma plain_bare a : plain_text a = true → Csv.bare (field_of_cell a) = true.
Proof.
  destruct a as [s| | | |]; try done. cbn. by intros [_ ?]%andb_true_iff.
Qed.

Lemma record7_writable x : plain7 x → Csv.writable (record7 x) = true.
Proof.
  destruct x as [[[a b] c] [[[s i] v] t]]. intros (Ha & Hb & Hc).
  cbn [fst snd] in Ha, Hb, Hc. unfold Csv.writable, record7.
  cbn [forallb]. rewrite !plain_bare by done.
  rewrite (bool_decide_eq_false_2 (_ = [])) by discriminate.
  rewrite (bool_decide_eq_false_2 (_ = [[]])) by discriminate.
  by destruct s, i, v, t.
Qed.

(** The text of a table of normalised rows with plain text cells, and
    what the reader makes of it. *)
Lemma read_csv_record7 linesep l :
  linesep ≠ [] → Forall (λ c, Csv.is_eol c = true) linesep →
  Forall plain7 l →
  ∃ text,
    Csv.to_text linesep {| header := TEXT_COLS ++ BOOL_COLS;
                           records := record7 <$> l |} = Some text ∧
    Csv.read_csv text
    = Some {| columns := list_to_set (TEXT_COLS ++ BOOL_COLS);
              rows := read7 <$> l |}.
Proof.
  intros Hne Hsep Hp.
  destruct (Csv.to_text linesep {| header := TEXT_COLS ++ BOOL_COLS;
                                   records := record7 <$> l |})
    as [text|] eqn:Ht.
  - exists text. split; [reflexivity|].
    unfold Csv.read_csv.
    rewrite (tokenize_to_text linesep
               {| header := TEXT_COLS ++ BOOL_COLS; records := record7 <$> l |}
               text Hne Hsep); [| |exact Ht].
    + cbn [mbind option_bind header records].
      rewrite names_of_lit. cbn [mbind option_bind].
      by apply read_table_record7.
    + cbn [header records]. apply Forall_cons. split; [cbn; lia|].
      apply Forall_fmap, Forall_true.
      intros [[[a b] c] [[[s i] v] t]]. cbn. lia.
  - exfalso. unfold Csv.to_text in Ht. cbn [header records] in Ht.
    cbn [forallb] in Ht.
    replace (Csv.writable (lit <$> TEXT_COLS ++ BOOL_COLS)) with true in Ht
      by (vm_compute; reflexivity).
    cbn [andb] in Ht.
    assert (forallb Csv.writable (record7 <$> l) = true) as Hw.
    { apply forallb_forall. intros r Hr. apply list_elem_of_In in Hr.
      apply list_elem_of_fmap in Hr as [x [-> Hx]].
      apply record7_writable. rewrite Forall_forall in Hp. by apply Hp. }
    rewrite Hw in Ht. discriminate.
Qed.

(** Writing a normalised table with plain text cells and reading the
    text back gives a table that normalises to the one written. *)
Lemma roundtrip_plain linesep T :
  linesep ∈ [[Csv.LF]; [Csv.CR; Csv.LF]] →
  text_plain (_ensure_schema T) →
  ∃ text D,
    Csv.to_text linesep (serialize (_ensure_schema T)) = Some text ∧
    Csv.read_csv text = Some D ∧
    _ensure_schema D = _ensure_schema T.
Proof.
  intros Hsep. destruct (ensure_schema_row7 T) as [l ->]. intros Hp.
  assert (linesep ≠ [] ∧ Forall (λ c, Csv.is_eol c = true) linesep)
    as [Hne Hall].
  { apply elem_of_cons in Hsep as [->|Hsep];
      [|apply elem_of_cons in Hsep as [->|Hsep%elem_of_nil]; [|done]];
      (split; [done|by repeat constructor]). }
  destruct (read_csv_record7 linesep l Hne Hall) as (text & Ht & Hr).
  - unfold text_plain in Hp. cbn [rows] in Hp.
    rewrite Forall_fmap in Hp. eapply Forall_impl; [exact Hp|].
    intros [[[a b] c] [[[s i] v] t]] Hx. unfold plain7. cbn [fst snd].
    apply Forall_cons in Hx as [Ha Hx]. apply Forall_cons in Hx as [Hb Hx].
    apply Forall_cons in Hx as [Hc _]. done.
  - exists text, {| columns := list_to_set (TEXT_COLS ++ BOOL_COLS);
                    rows := read7 <$> l |}.
    split; [by rewrite serialize_row7|]. split; [exact Hr|].
    rewrite ensure_schema_rows. cbn [rows columns]. f_equal.
    rewrite <- list_fmap_compose. apply list_fmap_ext. intros _ x _.
    apply ensure_row_read7. intros c Hc. by apply has_column_canonical.
Qed.

End csv.

Section update_flag.
Context `{Unicode}.
Import Utils.

Lemma has_column_table c xs :
  c ∈ TEXT_COLS ++ BOOL_COLS → has_column c (table_of xs) = true.
Proof. intros Hc. unfold table_of. by apply has_column_canonical. Qed.

Lemma guarantee_columns_table xs :
  guarantee_columns (table_of xs) = table_of xs.
Proof.
  unfold guarantee_columns. cbn [foldl TEXT_COLS BOOL_COLS].
  unfold guarantee_text.
  rewrite !has_column_table by (vm_compute; set_solver).
  assert (∀ c d,
    c ∈ BOOL_COLS →
    d = table_of xs → guarantee_flag d c = table_of xs) as Hstep.
  { intros c d Hc ->. unfold guarantee_flag.
    rewrite has_column_table
      by (apply elem_of_app; by right).
    unfold set_column, table_of. cbn [rows columns]. f_equal.
    - apply list_elem_of_In in Hc. cbn in Hc.
      destruct Hc as [<-|[<-|[<-|[<-|[]]]]]; compute_done.
    - rewrite <- list_fmap_compose. apply list_fmap_ext. intros _ x _.
      unfold compose. apply list_elem_of_In in Hc. cbn in Hc.
      destruct Hc as [<-|[<-|[<-|[<-|[]]]]]; reflexivity. }
  rewrite (Hstep SEEN (table_of xs)), (Hstep INT), (Hstep SAVE), (Hstep CONT);
    try done; vm_compute; set_solver.
Qed.

Lemma insert_flag_record c v x :
  c ∈ BOOL_COLS → <[c := CBool v]> (row_of x) = row_of (set_flag c v x).
Proof.
  intros Hc. apply list_elem_of_In in Hc. cbn in Hc.
  destruct Hc as [<-|[<-|[<-|[<-|[]]]]]; reflexivity.
Qed.

Lemma canonical_columns_flag c :
  c ∈ BOOL_COLS →
  (list_to_set (TEXT_COLS ++ BOOL_COLS) : gset string) ∪ {[c]}
  = list_to_set (TEXT_COLS ++ BOOL_COLS).
Proof.
  intros Hc. apply list_elem_of_In in Hc. cbn in Hc.
  destruct Hc as [<-|[<-|[<-|[<-|[]]]]]; compute_done.
Qed.

Lemma update_flag_table xs first last file col value cb :
  col ∈ BOOL_COLS →
  (update_flag (table_of xs) (Some first) (Some last) (Some file)
     col value cb).1 =
  table_of
    (if forallb (λ x, negb (hits first last file x)) xs
     then xs ++ [set_flag col value (fresh first last file)]
     else (λ x, if hits first last file x then set_flag col value x else x)
            <$> xs).
Proof.
  intros Hc. unfold update_flag. cbv zeta. cbn [fst].
  rewrite guarantee_columns_table. cbn [rows columns table_of].
  assert (forallb
    (λ r, negb (bool_decide (row_key r =
       target_key (Some first) (Some last) (Some file)))) (row_of <$> xs)
    = forallb (λ x, negb (hits first last file x)) xs) as ->.
  { induction xs as [|x xs IH]; [done|]. cbn [fmap list_fmap forallb].
    by rewrite IH. }
  destruct (forallb _ xs).
  - unfold table_of. f_equal.
    + rewrite union_idemp_L. by apply canonical_columns_flag.
    + rewrite fmap_app. f_equal. cbn [fmap list_fmap]. f_equal.
      by rewrite <- insert_flag_record.
  - unfold table_of. f_equal.
    + by apply canonical_columns_flag.
    + rewrite <- !list_fmap_compose. apply list_fmap_ext. intros _ x _.
      unfold compose, hits. case_bool_decide; [|done].
      by apply insert_flag_record.
Qed.

Lemma fresh_hits first last file : hits first last file (fresh first last file) = true.
Proof. unfold hits. by apply bool_decide_eq_true_2. Qed.

End update_flag.

Section update_flag_typed.
Context `{Unicode}.
Import Utils.




End update_flag_typed.

Ltac decided := apply (bool_decide_unpack _); vm_compute; exact I.

Ltac uploads :=
  repeat first
    [ rewrite filter_cons_True by reflexivity
    | rewrite filter_cons_False by (cbn; discriminate)
    | rewrite filter_app
    | rewrite filter_nil ].

(** C1, as amended.  On tables without repeated keys the merge returns,
    and for every key that has a row in base, ours and theirs: where both
    ours and theirs changed a text field (all three values present), the
    merged value is ours's and the entry [field@key] is in the conflict
    list; where both changed a boolean flag, the merged value is the OR
    of the two and no entry is recorded for it. *)
Theorem merge_conflict_resolution `{Unicode} base ours theirs :
  NoDup (keys base) → NoDup (keys ours) → NoDup (keys theirs) →
  ∃ merged conflicts,
    Capgemini._three_way_merge base ours theirs = Ok (merged, conflicts) ∧
    ∀ k b o t,
      (k, b) ∈ Capgemini._index_by_key base →
      (k, o) ∈ Capgemini._index_by_key ours →
      (k, t) ∈ Capgemini._index_by_key theirs →
      ∃ i r,
        union_idx base ours theirs !! i = Some k ∧
        rows merged !! i = Some r ∧
        (∀ c vb vo vt,
           c ∈ TEXT_COLS →
           Capgemini.as_string (get_cell b c) = Some vb →
           Capgemini.as_string (get_cell o c) = Some vo →
           Capgemini.as_string (get_cell t c) = Some vt →
           vo ≠ vb → vt ≠ vb →
           get_cell r c = CStr vo ∧
           Capgemini.conflict_entry c k ∈ conflicts) ∧
        (∀ c vb vo vt,
           c ∈ BOOL_COLS →
           get_cell b c = CBool vb → get_cell o c = CBool vo →
           get_cell t c = CBool vt →
           vo ≠ vb → vt ≠ vb →
           get_cell r c = CBool (vo || vt) ∧
           Capgemini.conflict_entry c k ∉ conflicts).
Proof. apply merge_NoDup_both. Qed.

Lemma merge_conflict_resolution_witness :
  ∃ merged conflicts,
    Capgemini._three_way_merge (H := latin) (table_of [alice])
      (table_of [with_first (lit "ALICE") (with_seen true alice)])
      (table_of [with_first (lit "alice") (with_seen true alice)])
    = Ok (merged, conflicts) ∧
    ∀ k b o t,
      (k, b) ∈ Capgemini._index_by_key (table_of [alice]) →
      (k, o) ∈ Capgemini._index_by_key
                 (table_of [with_first (lit "ALICE") (with_seen true alice)]) →
      (k, t) ∈ Capgemini._index_by_key
                 (table_of [with_first (lit "alice") (with_seen true alice)]) →
      ∃ i r,
        union_idx (table_of [alice])
          (table_of [with_first (lit "ALICE") (with_seen true alice)])
          (table_of [with_first (lit "alice") (with_seen true alice)]) !! i
        = Some k ∧
        rows merged !! i = Some r ∧
        (∀ c vb vo vt,
           c ∈ TEXT_COLS →
           Capgemini.as_string (get_cell b c) = Some vb →
           Capgemini.as_string (get_cell o c) = Some vo →
           Capgemini.as_string (get_cell t c) = Some vt →
           vo ≠ vb → vt ≠ vb →
           get_cell r c = CStr vo ∧
           Capgemini.conflict_entry c k ∈ conflicts) ∧
        (∀ c vb vo vt,
           c ∈ BOOL_COLS →
           get_cell b c = CBool vb → get_cell o c = CBool vo →
           get_cell t c = CBool vt →
           vo ≠ vb → vt ≠ vb →
           get_cell r c = CBool (vo || vt) ∧
           Capgemini.conflict_entry c k ∉ conflicts).
Proof. apply (merge_conflict_resolution (H := latin)); decided. Defined.

Lemma merge_flag_conflict_unreported :
  seen alice = false ∧ seen (with_seen true alice) = true ∧
  Capgemini._three_way_merge (H := latin) (table_of [alice])
    (table_of [with_seen true alice]) (table_of [with_seen true alice])
  = Ok (table_of [with_seen true alice], []).
Proof. split_and!; [done..|]. vm_compute. reflexivity. Qed.

(** C6, as amended.  For every table X, [merge(X, X, X)] completes with
    an empty conflict list and returns the table of records made of X:
    an absent text column and a missing text give the empty text, any
    other text cell the text [str()] gives it, the flags are those of
    the normaliser and no other column is kept.  The table returned is
    X itself exactly when X is a table of records. *)
Theorem merge_noop `{Unicode} (X : DataFrame) :
  Capgemini._three_way_merge X X X
  = Ok (table_of (self_merged (λ c, has_column c X) <$> rows X), []) ∧
  (Capgemini._three_way_merge X X X = Ok (X, []) ↔ ∃ xs, X = table_of xs).
Proof. split; [apply merge_self | apply merge_self_fixed]. Qed.

Lemma merge_noop_fails_outside_records :
  Capgemini._three_way_merge (H := latin) missing_file missing_file
    missing_file = Ok (table_of [without_file alice], []) ∧
  table_of [without_file alice] ≠ missing_file ∧
  Capgemini._three_way_merge (H := latin) with_notes with_notes with_notes
    = Ok (table_of [alice], []) ∧
  table_of [alice] ≠ with_notes.
Proof.
  split_and!.
  - rewrite merge_self. reflexivity.
  - intros Heq.
    apply (f_equal (λ d, (λ r, get_cell r FILE) <$> rows d)) in Heq.
    vm_compute in Heq. discriminate.
  - rewrite merge_self. reflexivity.
  - intros Heq. apply (f_equal (has_column "notes")) in Heq.
    vm_compute in Heq. discriminate.
Qed.

(** C7.  The schema normaliser is idempotent; it is a total function
    whose output has exactly the canonical columns, as many rows as its
    input and boolean flags, and it coerces loosely typed flag text
    ("Y", "0", "TRUE"), malformed text and missing values instead of
    raising. *)
Theorem ensure_schema_idempotent `{Unicode} (T : DataFrame) :
  App._ensure_schema (App._ensure_schema T) = App._ensure_schema T ∧
  columns (App._ensure_schema T) = list_to_set (TEXT_COLS ++ BOOL_COLS) ∧
  length (rows (App._ensure_schema T)) = length (rows T) ∧
  Forall (λ r, ∃ s i v c,
            get_cell r SEEN = CBool s ∧ get_cell r INT = CBool i ∧
            get_cell r SAVE = CBool v ∧ get_cell r CONT = CBool c)
         (rows (App._ensure_schema T)) ∧
  App.flag_of (CStr (lit "Y")) = true ∧
  App.flag_of (CStr (lit "0")) = false ∧
  App.flag_of (CStr (lit "TRUE")) = true ∧
  App.flag_of (CStr (lit "maybe")) = false ∧
  App.flag_of CNaN = false.
Proof.
  split; [apply ensure_schema_idemp|].
  rewrite ensure_schema_rows. cbn [columns rows].
  split; [done|]. split; [by rewrite length_fmap|]. split.
  - apply Forall_fmap, Forall_true. intros r. by eexists _, _, _, _.
  - split_and!.
    1-4: rewrite flag_of_ascii by (vm_compute; repeat constructor); reflexivity.
    unfold App.flag_of. rewrite lower_strip_ascii; [reflexivity|].
    vm_compute; repeat constructor.
Qed.

(** C9, as amended.  When no input table repeats a key, the merge
    completes and its output has one row per key of the union of the three
    key sets.  When an input table repeats a key and its key sequence is
    not the union index itself, the reindexing step raises.  (A table
    whose key sequence is the union index is copied without that check.) *)
Theorem merge_total_on_unique_keys `{Unicode} base ours theirs :
  (NoDup (keys base) → NoDup (keys ours) → NoDup (keys theirs) →
   ∃ merged conflicts,
     Capgemini._three_way_merge base ours theirs = Ok (merged, conflicts) ∧
     NoDup (union_idx base ours theirs) ∧
     length (rows merged) = length (union_idx base ours theirs) ∧
     ∀ k, k ∈ union_idx base ours theirs ↔
          k ∈ keys base ∨ k ∈ keys ours ∨ k ∈ keys theirs) ∧
  ((¬ NoDup (keys base) ∧ keys base ≠ union_idx base ours theirs) ∨
   (¬ NoDup (keys ours) ∧ keys ours ≠ union_idx base ours theirs) ∨
   (¬ NoDup (keys theirs) ∧ keys theirs ≠ union_idx base ours theirs) →
   Capgemini._three_way_merge base ours theirs =
   Raise "cannot reindex on an axis with duplicate labels").
Proof. split; [apply merge_NoDup_rows | apply merge_duplicates]. Qed.

Lemma merge_total_on_unique_keys_witness :
  (∃ merged conflicts,
     Capgemini._three_way_merge (H := latin) (table_of [alice])
       (table_of [alice; bob]) (table_of [bob])
     = Ok (merged, conflicts) ∧
     NoDup (union_idx (H := latin) (table_of [alice]) (table_of [alice; bob])
              (table_of [bob])) ∧
     length (rows merged)
     = length (union_idx (H := latin) (table_of [alice])
                 (table_of [alice; bob]) (table_of [bob])) ∧
     ∀ k, k ∈ union_idx (H := latin) (table_of [alice])
                (table_of [alice; bob]) (table_of [bob]) ↔
          k ∈ keys (H := latin) (table_of [alice]) ∨
          k ∈ keys (H := latin) (table_of [alice; bob]) ∨
          k ∈ keys (H := latin) (table_of [bob])) ∧
  Capgemini._three_way_merge (H := latin) (table_of [alice; alice])
    (table_of [alice; bob]) (table_of [alice])
  = Raise "cannot reindex on an axis with duplicate labels".
Proof.
  split.
  - apply (proj1 (merge_total_on_unique_keys (H := latin) (table_of [alice])
                    (table_of [alice; bob]) (table_of [bob]))); decided.
  - apply (proj2 (merge_total_on_unique_keys (H := latin)
                    (table_of [alice; alice]) (table_of [alice; bob])
                    (table_of [alice]))).
    left. split; decided.
Defined.

Lemma merge_accepts_duplicates_of_equal_tables :
  ¬ NoDup (keys (H := latin) (table_of [alice; alice])) ∧
  Capgemini._three_way_merge (H := latin) (table_of [alice; alice])
    (table_of [alice; alice]) (table_of [alice; alice])
  = Ok (table_of [alice; alice], []).
Proof. split; [decided | apply merge_same]. Qed.

(** C3, as amended.  [_key] of both apps gives equal keys to triples
    whose names differ only by letter case or surrounding white space and
    whose file references differ only by surrounding white space;
    [_key_series] of utils.py gives equal keys to triples whose names
    differ only by diacritics, letter case or surrounding white space and
    whose file names differ only by letter case or surrounding white
    space. *)
Theorem record_key_variants `{Unicode} (x y : candidate) :
  (case_ws_variant (first_name x) (first_name y) →
   case_ws_variant (last_name x) (last_name y) →
   ws_variant (file_name x) (file_name y) →
   App._key (table_of [x]) = App._key (table_of [y])) ∧
  (accent_case_ws_variant (first_name x) (first_name y) →
   accent_case_ws_variant (last_name x) (last_name y) →
   case_ws_variant (file_name x) (file_name y) →
   Utils._key_series (table_of [x]) = Utils._key_series (table_of [y])).
Proof. split; [apply app_key_variant | apply utils_key_variant]. Qed.

Lemma pad_case_variant `{Unicode} (a m b : pystr) :
  padded a m → same_letters m b → case_ws_variant a b.
Proof.
  intros Hp Hl. eapply rtc_l; [left; left; exact Hp|].
  apply rtc_once. left. by right.
Qed.

Lemma pad_variant `{Unicode} (a b : pystr) : padded a b → ws_variant a b.
Proof. intros Hp. apply rtc_once. by left. Qed.

Lemma base_letters_variant `{Unicode} (a b : pystr) :
  same_base_letters a b → accent_case_ws_variant a b.
Proof. intros Hp. apply rtc_once. left. by right. Qed.

Lemma record_key_variants_witness :
  App._key (H := latin) (table_of [kadri])
  = App._key (H := latin) (table_of [kadri_loud]) ∧
  Utils._key_series (H := latin) (table_of [kadri_accent])
  = Utils._key_series (H := latin) (table_of [kadri_loud]).
Proof.
  split.
  - apply (proj1 (record_key_variants (H := latin) kadri kadri_loud)).
    + apply (pad_case_variant (H := latin) _ (lit " Kadri ")).
      * exists (lit " "), (lit " "). split_and!; [decided..|reflexivity].
      * reflexivity.
    + apply (pad_case_variant (H := latin) _ (lit "Farouk")).
      * exists [], []. split_and!; [constructor..|reflexivity].
      * reflexivity.
    + apply (pad_variant (H := latin)).
      exists [], (lit " "). split_and!; [constructor|decided|reflexivity].
  - apply (proj2 (record_key_variants (H := latin) kadri_accent kadri_loud)).
    + apply (rtc_l _ _ (lit "KADRI")).
      * left. right. reflexivity.
      * apply rtc_once. left. left.
        exists (lit " "), (lit " "). split_and!; [decided..|reflexivity].
    + apply (base_letters_variant (H := latin)). reflexivity.
    + apply (pad_case_variant (H := latin) _ (lit "cv.pdf ")).
      * exists [], (lit " "). split_and!; [constructor|decided|reflexivity].
      * reflexivity.
Defined.

Lemma app_key_keeps_diacritics :
  same_unaccented (H := latin) (first_name kadri_accent) (first_name kadri) ∧
  last_name kadri_accent = last_name kadri ∧
  file_name kadri_accent = file_name kadri ∧
  App._key (H := latin) (table_of [kadri_accent])
  ≠ App._key (H := latin) (table_of [kadri]).
Proof. split_and!; [reflexivity..|]. vm_compute. discriminate. Qed.

(** C2, as amended.  The flush of app_capgemini.py merges the fetched
    remote table (the download, or the shared-link fetch when the download
    raises) with the base snapshot and the working table, uploads the
    serialised merged table, and replaces the working table and the base
    snapshot by it only when the upload succeeds; when both fetches raise
    it shows the error and changes nothing.  The flush of
    app_schneider.py uploads the serialised working table as it is and
    leaves the working table alone. *)
Theorem flush_fetch_merge_upload `{Unicode} (ok_text err_text : string) :
  (∀ (w : Capgemini.world) s remote merged conflicts,
     fetched w remote →
     Capgemini._three_way_merge (default remote (Capgemini.base_df s))
       (Capgemini.df s) remote = Ok (merged, conflicts) →
     let r := Capgemini._flush_to_disk ok_text err_text w s in
     filter (λ e, is_upload e = true) r.2 = [EUpload (serialize merged)] ∧
     (Capgemini.upload w (serialize merged) = None →
      Capgemini.df r.1 = merged ∧ Capgemini.base_df r.1 = Some merged) ∧
     (Capgemini.upload w (serialize merged) ≠ None →
      Capgemini.df r.1 = Capgemini.df s ∧
      Capgemini.base_df r.1 = Capgemini.base_df s)) ∧
  (∀ (w : Capgemini.world) s e1 e2,
     Capgemini.download w = Raise e1 → Capgemini.fetch w = Raise e2 →
     Capgemini._flush_to_disk ok_text err_text w s
     = (s, [EError (err_text +:+ ": " +:+ e2)])) ∧
  (∀ (w : Schneider.world) s,
     Schneider.dbx_configured w = true →
     let r := Schneider._flush_to_disk ok_text err_text w s in
     filter (λ e, is_upload e = true) r.2
       = [EUpload (serialize (Schneider.df s))] ∧
     Schneider.df r.1 = Schneider.df s).
Proof.
  split_and!.
  - intros w s remote merged conflicts Hf Hm. cbv zeta.
    rewrite (capgemini_flush_merged _ _ _ _ _ _ _ Hf Hm).
    destruct (Capgemini.upload w (serialize merged)) as [e|]; cbn [fst snd].
    + split_and!; [by uploads|done|]. intros _. by destruct s.
    + split_and!; [|done|done]. case_decide; by uploads.
  - intros w s e1 e2. apply capgemini_flush_unreachable.
  - intros w s Hc. cbv zeta. rewrite schneider_flush, Hc. cbn [fst snd].
    split; [|by destruct s].
    destruct (Schneider.upload w _); by uploads.
Qed.

Lemma flush_fetch_merge_upload_witness :
  let w := cap_world (table_of [with_seen true alice]) None 7%Q in
  let s := Capgemini.with_df (table_of [with_intend true alice])
             (cap_session (table_of [alice])) in
  let merged := table_of [with_intend true (with_seen true alice)] in
  let r := Capgemini._flush_to_disk (H := latin) "Saved" "Save failed" w s in
  filter (λ e, is_upload e = true) r.2
    = [EUpload (serialize (H := latin) merged)] ∧
  (Capgemini.upload w (serialize (H := latin) merged) = None →
   Capgemini.df r.1 = merged ∧ Capgemini.base_df r.1 = Some merged) ∧
  (Capgemini.upload w (serialize (H := latin) merged) ≠ None →
   Capgemini.df r.1 = Capgemini.df s ∧
   Capgemini.base_df r.1 = Capgemini.base_df s).
Proof.
  intros w s merged.
  apply (proj1 (flush_fetch_merge_upload (H := latin) "Saved" "Save failed")
           w s (table_of [with_seen true alice]) merged []).
  - left. exists (table_of [with_seen true alice]). split; [reflexivity|].
    vm_compute. reflexivity.
  - vm_compute. reflexivity.
Defined.

Lemma schneider_flush_uploads_unmerged :
  let working := table_of [with_intend true alice] in
  let remote := table_of [with_seen true alice] in
  let s := sch_session working true in
  let r := Schneider._flush_to_disk (H := latin) "Saved" "Save failed"
             (sch_world None 7%Q) s in
  Capgemini._three_way_merge (H := latin) (table_of [alice]) working remote
    = Ok (table_of [with_intend true (with_seen true alice)], []) ∧
  filter (λ e, is_upload e = true) r.2
    = [EUpload (serialize (H := latin) working)] ∧
  serialize (H := latin) working
    ≠ serialize (H := latin)
        (table_of [with_intend true (with_seen true alice)]).
Proof.
  cbv zeta. split_and!.
  - vm_compute. reflexivity.
  - vm_compute. reflexivity.
  - vm_compute. discriminate.
Qed.

(** C4, as amended.  When the upload of a flush fails, the working
    table (and, in app_capgemini.py, the base snapshot) is unchanged and
    the error is shown; the dirty flag is cleared and the time of the
    last batch write is set all the same. *)
Theorem failed_upload_keeps_tables `{Unicode} (ok_text err_text : string) :
  (∀ (w : Capgemini.world) s remote merged conflicts e,
     fetched w remote →
     Capgemini._three_way_merge (default remote (Capgemini.base_df s))
       (Capgemini.df s) remote = Ok (merged, conflicts) →
     Capgemini.upload w (serialize merged) = Some e →
     let r := Capgemini._flush_to_disk ok_text err_text w s in
     Capgemini.df r.1 = Capgemini.df s ∧
     Capgemini.base_df r.1 = Capgemini.base_df s ∧
     EError (err_text +:+ ": " +:+ e) ∈ r.2 ∧
     Capgemini.buffer_dirty r.1 = Some false ∧
     Capgemini.last_batch_write r.1 = Some (Capgemini.clock w)) ∧
  (∀ (w : Schneider.world) s e,
     Schneider.dbx_configured w = true →
     Schneider.upload w (serialize (Schneider.df s)) = Some e →
     let r := Schneider._flush_to_disk ok_text err_text w s in
     Schneider.df r.1 = Schneider.df s ∧
     EError (err_text +:+ ": " +:+ e) ∈ r.2 ∧
     Schneider.buffer_dirty r.1 = false ∧
     Schneider.last_batch_write r.1 = Schneider.clock w).
Proof.
  split.
  - intros w s remote merged conflicts e Hf Hm Hu. cbv zeta.
    rewrite (capgemini_flush_merged _ _ _ _ _ _ _ Hf Hm), Hu.
    cbn [fst snd]. destruct s. split_and!; try done.
    apply elem_of_cons. right. apply list_elem_of_singleton. done.
  - intros w s e Hc Hu. cbv zeta. rewrite schneider_flush, Hc, Hu.
    cbn [fst snd]. destruct s. split_and!; try done.
    apply elem_of_cons. right. apply list_elem_of_singleton. done.
Qed.

Lemma failed_upload_keeps_tables_witness :
  let w := sch_world (Some "ApiError: timeout") 7%Q in
  let s := sch_session (table_of [with_seen true alice]) true in
  let r := Schneider._flush_to_disk (H := latin) "Saved" "Save failed" w s in
  Schneider.df r.1 = Schneider.df s ∧
  EError ("Save failed" +:+ ": " +:+ "ApiError: timeout") ∈ r.2 ∧
  Schneider.buffer_dirty r.1 = false ∧
  Schneider.last_batch_write r.1 = Schneider.clock w.
Proof.
  intros w s.
  apply (proj2 (failed_upload_keeps_tables (H := latin) "Saved" "Save failed")
           w s "ApiError: timeout"); reflexivity.
Defined.

Lemma failed_upload_clears_dirty :
  let w := sch_world (Some "ApiError: timeout") 7%Q in
  let s := sch_session (table_of [with_seen true alice]) true in
  let r := Schneider._flush_to_disk (H := latin) "Saved" "Save failed" w s in
  Schneider.upload w (serialize (H := latin) (Schneider.df s))
    = Some "ApiError: timeout" ∧
  Schneider.buffer_dirty s = true ∧
  Schneider.buffer_dirty r.1 = false ∧
  r.1 ≠ s.
Proof.
  cbv zeta. split_and!; [reflexivity..|].
  intros Heq. apply (f_equal Schneider.buffer_dirty) in Heq.
  vm_compute in Heq. discriminate.
Qed.

(** C5, as amended.  In app_schneider.py, with no filter active, an
    edit made before the batch interval has elapsed only sets the dirty
    flag and is shown as buffered; a later pass flushes once the interval
    has elapsed; "Save now" flushes at once.  In app_capgemini.py a pass
    without filter flushes whenever five seconds have elapsed since the
    last auto-save, whether or not there was an edit, and sets no dirty
    flag. *)
Theorem edit_deferred_until_batch_interval `{Unicode} :
  (∀ (i : Schneider.input) w s d,
     Schneider.filter_active i = false → Schneider.prev_filter s = false →
     Schneider.save_clicked i = false → Schneider._want_save s = false →
     Schneider.edited i = Some d →
     elapsed (Schneider.now i) (Schneider.last_batch_write s)
       Schneider.BATCH_SAVE_INTERVAL_SEC = false →
     Schneider.pass i w s =
     (Schneider.with_buffer_dirty true
        (Schneider.with_df d (Schneider.with_prev_filter false s)),
      [EInfo (Schneider.buffered_info
                (Schneider.secs_left (Schneider.now i)
                   (Schneider.last_batch_write s)))])) ∧
  (∀ (i : Schneider.input) w s,
     Schneider.filter_active i = false → Schneider.prev_filter s = false →
     Schneider.save_clicked i = false → Schneider._want_save s = false →
     Schneider.edited i = None → Schneider.buffer_dirty s = true →
     elapsed (Schneider.now i) (Schneider.last_batch_write s)
       Schneider.BATCH_SAVE_INTERVAL_SEC = true →
     Schneider.pass i w s =
     Schneider._flush_to_disk "Buffered changes auto-saved ✅"
       "Auto-save failed" (w Periodic) (Schneider.with_prev_filter false s)) ∧
  (∀ (i : Schneider.input) w s,
     Schneider.filter_active i = false → Schneider.prev_filter s = false →
     Schneider.save_clicked i = true → Schneider.edited i = None →
     Schneider.pass i w s =
     Schneider._flush_to_disk "Saved ✅" "Save failed" (w SaveNow)
       (Schneider.with_want_save false
          (Schneider.with_prev_filter false s))) ∧
  (∀ (i : Capgemini.input) w s,
     Capgemini.filter_active i = false → Capgemini.prev_filter s = false →
     Capgemini.save_clicked i = false → Capgemini._want_save s = false →
     Capgemini.pass i w s =
     let s1 := from_option (λ d, Capgemini.with_df d
                                   (Capgemini.with_prev_filter false s))
                 (Capgemini.with_prev_filter false s) (Capgemini.edited i) in
     if elapsed (Capgemini.now i) (Capgemini.last_auto_save s) 5
     then let r := Capgemini._flush_to_disk "Saved ✅" "Auto-save failed"
                     (w Periodic) s1 in
          (Capgemini.with_last_auto_save (Capgemini.now i) r.1, r.2)
     else (s1, [])).
Proof.
  split_and!.
  - apply schneider_edit_deferred.
  - apply schneider_periodic_flush.
  - apply schneider_save_now.
  - apply capgemini_pass_quiet.
Qed.

Lemma edit_deferred_until_batch_interval_witness :
  let s := sch_session (table_of [alice]) false in
  let d := table_of [with_seen true alice] in
  let w := λ _ : site, sch_world None 31%Q in
  Schneider.pass (H := latin) (sch_input 5%Q false (Some d)) w s =
    (Schneider.with_buffer_dirty true
       (Schneider.with_df d (Schneider.with_prev_filter false s)),
     [EInfo (Schneider.buffered_info (Schneider.secs_left 5%Q 0%Q))]) ∧
  Schneider.pass (H := latin) (sch_input 30%Q false None) w
    (sch_session d true) =
    Schneider._flush_to_disk (H := latin) "Buffered changes auto-saved ✅"
      "Auto-save failed" (w Periodic)
      (Schneider.with_prev_filter false (sch_session d true)) ∧
  Schneider.pass (H := latin) (sch_input 5%Q true None) w
    (sch_session d true) =
    Schneider._flush_to_disk (H := latin) "Saved ✅" "Save failed" (w SaveNow)
      (Schneider.with_want_save false
         (Schneider.with_prev_filter false (sch_session d true))).
Proof.
  intros s d w. split_and!.
  - apply (proj1 (edit_deferred_until_batch_interval (H := latin)));
      reflexivity.
  - apply (proj1 (proj2 (edit_deferred_until_batch_interval (H := latin))));
      reflexivity.
  - apply (proj1 (proj2 (proj2
             (edit_deferred_until_batch_interval (H := latin)))));
      reflexivity.
Defined.

Lemma capgemini_autosaves_after_five_seconds :
  let d := table_of [with_seen true alice] in
  let s := cap_session (table_of [alice]) in
  let w := λ _ : site, cap_world (table_of [alice]) None 5%Q in
  let r := Capgemini.pass (H := latin) (cap_input 5%Q (Some d)) w s in
  elapsed 5%Q 0%Q Schneider.BATCH_SAVE_INTERVAL_SEC = false ∧
  filter (λ e, is_upload e = true) r.2 = [EUpload (serialize (H := latin) d)] ∧
  Capgemini.buffer_dirty r.1 = Some false.
Proof. cbv zeta. split_and!; vm_compute; reflexivity. Qed.

(** C8, as amended.  When every text cell of [normalizeSchema(T)] is a
    missing value or a text that the writer does not quote, that holds
    no line break and that the reader cannot take for a number, a
    boolean or a missing value, the text written for it, with either
    line terminator, is read back as a table that normalises to
    [normalizeSchema(T)]. *)
Theorem persisted_roundtrip_plain_text `{Unicode} (T : DataFrame)
    (linesep : pystr) :
  linesep ∈ [[Csv.LF]; [Csv.CR; Csv.LF]] →
  text_plain (App._ensure_schema T) →
  ∃ text D,
    Csv.to_text linesep (serialize (App._ensure_schema T)) = Some text ∧
    Csv.read_csv text = Some D ∧
    App._ensure_schema D = App._ensure_schema T.
Proof. apply roundtrip_plain. Qed.

Lemma persisted_roundtrip_plain_text_witness :
  ∃ text D,
    Csv.to_text [Csv.CR; Csv.LF]
      (serialize (H := latin) (App._ensure_schema (H := latin) flags_as_text))
    = Some text ∧
    Csv.read_csv text = Some D ∧
    App._ensure_schema (H := latin) D
    = App._ensure_schema (H := latin) flags_as_text.
Proof.
  apply (persisted_roundtrip_plain_text (H := latin) flags_as_text
           [Csv.CR; Csv.LF]).
  - decided.
  - unfold text_plain. decided.
Defined.

Lemma persisted_roundtrip_loses_empty_text :
  ∃ text D,
    Csv.to_text [Csv.LF]
      (serialize (H := latin)
         (App._ensure_schema (H := latin) only_first_name))
    = Some text ∧
    text = lit "first_name,last_name,file_name,seen,intend_view,cv_saved,contacted"
           ++ [Csv.LF] ++ lit "Alice,,,0,0,0,0" ++ [Csv.LF] ∧
    Csv.read_csv text = Some D ∧
    (λ r, get_cell r LAST)
      <$> rows (App._ensure_schema (H := latin) only_first_name)
      = [CStr (lit "")] ∧
    (λ r, get_cell r LAST) <$> rows (App._ensure_schema (H := latin) D)
      = [CNaN] ∧
    App._ensure_schema (H := latin) D
    ≠ App._ensure_schema (H := latin) only_first_name.
Proof.
  eexists. eexists. split; [vm_compute; reflexivity|].
  split; [vm_compute; reflexivity|].
  split; [vm_compute; reflexivity|].
  split_and!; [vm_compute; reflexivity..|].
  intros Heq.
  apply (f_equal (λ d, (λ r, get_cell r LAST) <$> rows d)) in Heq.
  vm_compute in Heq. discriminate.
Qed.




Section merge_more.
Context `{Unicode}.
Import App Capgemini.

Lemma merge_text_present c b o t vb vo vt :
  as_string (get_cell b c) = Some vb → as_string (get_cell o c) = Some vo →
  as_string (get_cell t c) = Some vt →
  merge_text c b o t = CStr (if decide (vo = vb) then vt else vo).
Proof.
  intros Hb Ho Ht. unfold merge_text. rewrite Hb, Ho, Ht. unfold ne3.
  repeat case_bool_decide; case_decide; cbn; congruence.
Qed.

Lemma merge_flag_present c b o t vb vo vt :
  get_cell b c = CBool vb → get_cell o c = CBool vo →
  get_cell t c = CBool vt →
  merge_flag c b o t = CBool (if decide (vo = vb) then vt else vo).
Proof.
  intros Hb Ho Ht. unfold merge_flag. rewrite Hb, Ho, Ht.
  by destruct vb, vo, vt.
Qed.

Lemma get_cell_empty c : get_cell ∅ c = CNaN.
Proof. unfold get_cell. by rewrite lookup_empty. Qed.

Lemma merge_text_absent c b o : merge_text c b o ∅ = CStr [].
Proof.
  unfold merge_text. rewrite get_cell_empty. cbn [as_string isna].
  destruct (as_string (get_cell b c)), (as_string (get_cell o c));
    cbn; repeat case_bool_decide; done.
Qed.

Lemma merge_flag_absent c b o : merge_flag c b o ∅ = CBool false.
Proof.
  unfold merge_flag. rewrite get_cell_empty.
  destruct (get_cell b c) as [?| |[]|?|?], (get_cell o c) as [?| |[]|?|?];
    reflexivity.
Qed.

Lemma merge_row_absent b o : merge_row (b, (o, ∅)) = row_of blank_record.
Proof.
  unfold merge_row. cbn [fmap list_fmap TEXT_COLS BOOL_COLS app].
  by rewrite !merge_text_absent, !merge_flag_absent.
Qed.

Lemma merge_text_new c t s :
  get_cell t c = CStr s → merge_text c ∅ ∅ t = CStr s.
Proof.
  intros Ht. unfold merge_text. rewrite get_cell_empty, Ht. reflexivity.
Qed.

Lemma merge_flag_new c t v :
  get_cell t c = CBool v → merge_flag c ∅ ∅ t = CBool v.
Proof.
  intros Ht. unfold merge_flag. rewrite get_cell_empty, Ht. reflexivity.
Qed.

(** The rows that [_index_by_key] holds are normalised: their flags are
    booleans. *)
Lemma indexed_row_flag df k t c :
  (k, t) ∈ _index_by_key df → c ∈ BOOL_COLS → ∃ v, get_cell t c = CBool v.
Proof.
  rewrite index_by_key_form, ensure_schema_rows. cbn [rows].
  intros Hin Hc. apply list_elem_of_fmap in Hin as [r [[= _ ->] Hr]].
  apply list_elem_of_fmap in Hr as [r0 [-> _]].
  apply list_elem_of_In in Hc. cbn in Hc.
  destruct Hc as [<-|[<-|[<-|[<-|[]]]]]; eexists; reflexivity.
Qed.

Lemma at_label_missing df k : k ∉ keys df → at_label df k = ∅.
Proof.
  unfold keys, at_label. intros Hk.
  exact (first_with_label_missing _ k Hk).
Qed.

(** The label under position [i] and the three rows under it. *)
Lemma merge_NoDup_row base ours theirs i k :
  union_idx base ours theirs !! i = Some k →
  ((λ k, merge_row (at_label base k, (at_label ours k, at_label theirs k)))
     <$> union_idx base ours theirs) !! i
  = Some (merge_row (at_label base k, (at_label ours k, at_label theirs k))).
Proof. intros Hi. by rewrite list_lookup_fmap, Hi. Qed.

Lemma key_in_index df k r : (k, r) ∈ _index_by_key df → k ∈ keys df.
Proof.
  intros Hr. unfold keys. apply list_elem_of_fmap. by exists (k, r).
Qed.

(** X1.  No lost update.  On tables without repeated keys, for a key that
    base, ours and theirs all have, every merged field whose three values
    are present is ours's value when ours differs from base and theirs's
    value otherwise: a change made on one side only is kept, whichever
    side made it, and an unchanged field keeps base's value. *)
Theorem merge_keeps_unilateral_changes base ours theirs :
  NoDup (keys base) → NoDup (keys ours) → NoDup (keys theirs) →
  ∃ merged conflicts,
    _three_way_merge base ours theirs = Ok (merged, conflicts) ∧
    ∀ k b o t,
      (k, b) ∈ _index_by_key base → (k, o) ∈ _index_by_key ours →
      (k, t) ∈ _index_by_key theirs →
      ∃ i r,
        union_idx base ours theirs !! i = Some k ∧
        rows merged !! i = Some r ∧
        (∀ c vb vo vt,
           c ∈ TEXT_COLS →
           as_string (get_cell b c) = Some vb →
           as_string (get_cell o c) = Some vo →
           as_string (get_cell t c) = Some vt →
           get_cell r c = CStr (if decide (vo = vb) then vt else vo)) ∧
        (∀ c vb vo vt,
           c ∈ BOOL_COLS →
           get_cell b c = CBool vb → get_cell o c = CBool vo →
           get_cell t c = CBool vt →
           get_cell r c = CBool (if decide (vo = vb) then vt else vo)).
Proof.
  intros HB HO HT. eexists _, _.
  split; [exact (merge_NoDup base ours theirs HB HO HT)|].
  intros k b o t Hb Ho Ht.
  assert (k ∈ union_idx base ours theirs) as Hk
    by exact (key_in_union_l base ours theirs k b Hb).
  apply list_elem_of_lookup in Hk as [i Hi].
  exists i, (merge_row (b, (o, t))). split; [exact Hi|]. split.
  - cbn [rows]. rewrite (merge_NoDup_row base ours theirs i k Hi).
    by rewrite (at_label_elem base k b HB Hb),
      (at_label_elem ours k o HO Ho), (at_label_elem theirs k t HT Ht).
  - split.
    + intros c vb vo vt Hc Hvb Hvo Hvt.
      rewrite get_cell_merge_text by done. by apply merge_text_present.
    + intros c vb vo vt Hc Hvb Hvo Hvt.
      rewrite get_cell_merge_flag by done. by apply merge_flag_present.
Qed.

(** X2.  On tables without repeated keys, the merged row of a key that
    theirs does not have is empty (three empty texts, four flags False),
    whatever base and ours hold under that key: a row that only the
    session has, or that the remote table has lost, is wiped. *)
Theorem merge_blanks_rows_absent_from_theirs base ours theirs :
  NoDup (keys base) → NoDup (keys ours) → NoDup (keys theirs) →
  ∃ merged conflicts,
    _three_way_merge base ours theirs = Ok (merged, conflicts) ∧
    ∀ i k,
      union_idx base ours theirs !! i = Some k → k ∉ keys theirs →
      rows merged !! i = Some (row_of blank_record).
Proof.
  intros HB HO HT. eexists _, _.
  split; [exact (merge_NoDup base ours theirs HB HO HT)|].
  intros i k Hi Hk. cbn [rows].
  rewrite (merge_NoDup_row base ours theirs i k Hi).
  rewrite (at_label_missing theirs k Hk). by rewrite merge_row_absent.
Qed.

(** X3.  On tables without repeated keys, a row that only theirs has (its
    key is in neither base nor ours) is taken as theirs has it: its text
    fields and its flags are theirs's. *)
Theorem merge_takes_rows_new_in_theirs base ours theirs :
  NoDup (keys base) → NoDup (keys ours) → NoDup (keys theirs) →
  ∃ merged conflicts,
    _three_way_merge base ours theirs = Ok (merged, conflicts) ∧
    ∀ k t,
      k ∉ keys base → k ∉ keys ours → (k, t) ∈ _index_by_key theirs →
      ∃ i r,
        union_idx base ours theirs !! i = Some k ∧
        rows merged !! i = Some r ∧
        (∀ c s, c ∈ TEXT_COLS → get_cell t c = CStr s →
                get_cell r c = CStr s) ∧
        (∀ c, c ∈ BOOL_COLS → get_cell r c = get_cell t c).
Proof.
  intros HB HO HT. eexists _, _.
  split; [exact (merge_NoDup base ours theirs HB HO HT)|].
  intros k t Hb Ho Ht.
  assert (k ∈ union_idx base ours theirs) as Hk.
  { apply elem_of_union_idx. right. right. by eapply key_in_index. }
  apply list_elem_of_lookup in Hk as [i Hi].
  exists i, (merge_row (∅, (∅, t))). split; [exact Hi|]. split.
  - cbn [rows]. rewrite (merge_NoDup_row base ours theirs i k Hi).
    by rewrite (at_label_missing base k Hb), (at_label_missing ours k Ho),
      (at_label_elem theirs k t HT Ht).
  - split.
    + intros c s Hc Hs. rewrite get_cell_merge_text by done.
      by apply merge_text_new.
    + intros c Hc. rewrite get_cell_merge_flag by done.
      destruct (indexed_row_flag theirs k t c Ht Hc) as [v Hv].
      rewrite Hv. by apply merge_flag_new.
Qed.

Lemma text_both_ours_only c b o : text_both c b o b = false.
Proof.
  unfold text_both.
  destruct (as_string (get_cell b c)), (as_string (get_cell o c));
    cbn; repeat case_bool_decide; done.
Qed.

Lemma text_both_theirs_only c b t : text_both c b b t = false.
Proof.
  unfold text_both.
  destruct (as_string (get_cell b c)), (as_string (get_cell t c));
    cbn; repeat case_bool_decide; done.
Qed.

Lemma merge_row_ours_only x o :
  merge_row (row_of x, (row_of o, row_of x)) = row_of o.
Proof.
  unfold merge_row. cbn [fmap list_fmap TEXT_COLS BOOL_COLS app].
  rewrite (merge_text_present FIRST _ _ _ (first_name x) (first_name o)
             (first_name x)) by reflexivity.
  rewrite (merge_text_present LAST _ _ _ (last_name x) (last_name o)
             (last_name x)) by reflexivity.
  rewrite (merge_text_present FILE _ _ _ (file_name x) (file_name o)
             (file_name x)) by reflexivity.
  rewrite (merge_flag_present SEEN _ _ _ (seen x) (seen o) (seen x))
    by reflexivity.
  rewrite (merge_flag_present INT _ _ _ (intend_view x) (intend_view o)
             (intend_view x)) by reflexivity.
  rewrite (merge_flag_present SAVE _ _ _ (cv_saved x) (cv_saved o)
             (cv_saved x)) by reflexivity.
  rewrite (merge_flag_present CONT _ _ _ (contacted x) (contacted o)
             (contacted x)) by reflexivity.
  repeat case_decide; subst; unfold row_of; congruence.
Qed.

Lemma merge_row_theirs_only x t :
  merge_row (row_of x, (row_of x, row_of t)) = row_of t.
Proof.
  unfold merge_row. cbn [fmap list_fmap TEXT_COLS BOOL_COLS app].
  rewrite (merge_text_present FIRST _ _ _ (first_name x) (first_name x)
             (first_name t)) by reflexivity.
  rewrite (merge_text_present LAST _ _ _ (last_name x) (last_name x)
             (last_name t)) by reflexivity.
  rewrite (merge_text_present FILE _ _ _ (file_name x) (file_name x)
             (file_name t)) by reflexivity.
  rewrite (merge_flag_present SEEN _ _ _ (seen x) (seen x) (seen t))
    by reflexivity.
  rewrite (merge_flag_present INT _ _ _ (intend_view x) (intend_view x)
             (intend_view t)) by reflexivity.
  rewrite (merge_flag_present SAVE _ _ _ (cv_saved x) (cv_saved x)
             (cv_saved t)) by reflexivity.
  rewrite (merge_flag_present CONT _ _ _ (contacted x) (contacted x)
             (contacted t)) by reflexivity.
  rewrite !decide_True by done. reflexivity.
Qed.

(** The merge of three tables whose key sequences are the same: every
    [reindex] is a copy. *)
Lemma merge_same_index base ours theirs :
  keys base = keys ours → keys base = keys theirs →
  _three_way_merge base ours theirs =
  let rs := zip (_index_by_key base).*2
              (zip (_index_by_key ours).*2 (_index_by_key theirs).*2) in
  Ok ({| columns := list_to_set (TEXT_COLS ++ BOOL_COLS);
         rows := merge_row <$> rs |},
      mjoin ((λ c, conflicts_of c (keys base) rs) <$> TEXT_COLS)).
Proof.
  unfold keys, _three_way_merge. cbv zeta.
  generalize (_index_by_key base) (_index_by_key ours)
    (_index_by_key theirs).
  intros B O T HO HT. unfold all_idx.
  rewrite <- HO, index_union_same, <- HT, index_union_same.
  rewrite (reindex_same B).
  replace (reindex O B.*1) with (Ok (A:=list row) O.*2)
    by (rewrite HO; symmetry; apply reindex_same).
  replace (reindex T B.*1) with (Ok (A:=list row) T.*2)
    by (rewrite HT; symmetry; apply reindex_same).
  reflexivity.
Qed.

Lemma keys_table xs : keys (table_of xs) = _key (table_of xs).
Proof.
  rewrite keys_form, ensure_schema_table. reflexivity.
Qed.

Lemma index_rows_table xs : (_index_by_key (table_of xs)).*2 = row_of <$> xs.
Proof. by rewrite index_by_key_rows, ensure_schema_table. Qed.

Lemma zip3_ours_only (xs os : list candidate) :
  length xs = length os →
  merge_row <$> zip (row_of <$> xs) (zip (row_of <$> os) (row_of <$> xs))
  = row_of <$> os.
Proof.
  revert os. induction xs as [|x xs IH]; intros [|o os] Hl; try done.
  cbn [fmap list_fmap zip zip_with]. f_equal.
  - apply merge_row_ours_only.
  - apply IH. by injection Hl.
Qed.

Lemma zip3_theirs_only (xs ts : list candidate) :
  length xs = length ts →
  merge_row <$> zip (row_of <$> xs) (zip (row_of <$> xs) (row_of <$> ts))
  = row_of <$> ts.
Proof.
  revert ts. induction xs as [|x xs IH]; intros [|t ts] Hl; try done.
  cbn [fmap list_fmap zip zip_with]. f_equal.
  - apply merge_row_theirs_only.
  - apply IH. by injection Hl.
Qed.

Lemma conflicts_ours_only c idx (B O : list row) :
  conflicts_of c idx (zip B (zip O B)) = [].
Proof.
  unfold conflicts_of.
  enough (filter (λ p : pystr * (row * (row * row)),
                    text_both c p.2.1 p.2.2.1 p.2.2.2 = true)
            (zip idx (zip B (zip O B))) = []) as -> by done.
  revert idx O. induction B as [|b B IH]; intros [|k idx] [|o O]; try done.
  cbn [zip zip_with]. rewrite filter_cons_False.
  - apply IH.
  - cbn [fst snd]. by rewrite text_both_ours_only.
Qed.

Lemma conflicts_theirs_only c idx (B T : list row) :
  conflicts_of c idx (zip B (zip B T)) = [].
Proof.
  unfold conflicts_of.
  enough (filter (λ p : pystr * (row * (row * row)),
                    text_both c p.2.1 p.2.2.1 p.2.2.2 = true)
            (zip idx (zip B (zip B T))) = []) as -> by done.
  revert idx T. induction B as [|b B IH]; intros [|k idx] [|t T]; try done.
  cbn [zip zip_with]. rewrite filter_cons_False.
  - apply IH.
  - cbn [fst snd]. by rewrite text_both_theirs_only.
Qed.

Lemma merge_fast_forward_laws (xs ys : list candidate) :
  _key (table_of xs) = _key (table_of ys) →
  _three_way_merge (table_of xs) (table_of ys) (table_of xs)
    = Ok (table_of ys, []) ∧
  _three_way_merge (table_of xs) (table_of xs) (table_of ys)
    = Ok (table_of ys, []).
Proof.
  intros Hk.
  assert (length xs = length ys) as Hl.
  { apply (f_equal length) in Hk. unfold _key in Hk.
    cbn [rows table_of] in Hk. by rewrite !length_fmap in Hk. }
  split.
  - rewrite merge_same_index by (by rewrite ?keys_table).
    cbv zeta. rewrite !index_rows_table. f_equal. f_equal.
    + unfold table_of. f_equal. by apply zip3_ours_only.
    + cbn [fmap list_fmap TEXT_COLS]. by rewrite !conflicts_ours_only.
  - rewrite merge_same_index by (by rewrite ?keys_table).
    cbv zeta. rewrite !index_rows_table. f_equal. f_equal.
    + unfold table_of. f_equal. by apply zip3_theirs_only.
    + cbn [fmap list_fmap TEXT_COLS]. by rewrite !conflicts_theirs_only.
Qed.

(** X4.  Fast forward.  For tables with the same sequence of record keys:
    when theirs is base (the remote table did not change), the merge
    returns ours and no conflict; when ours is base (the session did not
    change), it returns theirs and no conflict. *)
Theorem merge_fast_forward (xs ys : list candidate) :
  _key (table_of xs) = _key (table_of ys) →
  _three_way_merge (table_of xs) (table_of ys) (table_of xs)
    = Ok (table_of ys, []) ∧
  _three_way_merge (table_of xs) (table_of xs) (table_of ys)
    = Ok (table_of ys, []).
Proof. apply merge_fast_forward_laws. Qed.

Lemma reindex_length (d : indexed) idx l :
  reindex d idx = Ok l → length l = length idx.
Proof.
  unfold reindex. repeat case_decide; intros [= <-]; subst;
    by rewrite !length_fmap.
Qed.

Lemma conflicts_of_elem c idx rs e :
  e ∈ conflicts_of c idx rs → ∃ k, k ∈ idx ∧ e = conflict_entry c k.
Proof.
  unfold conflicts_of. intros He.
  apply list_elem_of_fmap in He as [k [-> Hk]].
  apply list_elem_of_fmap in Hk as [[k' bot] [-> Hk]].
  apply list_elem_of_filter in Hk as [_ Hk].
  apply elem_of_zip_l in Hk. by exists k'.
Qed.

(** X5.  Whenever the merge returns, the merged table is canonical: it is
    the table of a list of records, so normalising it changes nothing; it
    has one row per label of the key union; and every conflict entry
    names a text field and a label of the key union. *)
Theorem merge_output_canonical base ours theirs merged conflicts :
  _three_way_merge base ours theirs = Ok (merged, conflicts) →
  (∃ xs, merged = table_of xs) ∧
  _ensure_schema merged = merged ∧
  length (rows merged) = length (union_idx base ours theirs) ∧
  ∀ e, e ∈ conflicts →
       ∃ c k, c ∈ TEXT_COLS ∧ k ∈ union_idx base ours theirs ∧
              e = conflict_entry c k.
Proof.
  intros Hm. split; [by eapply merge_is_table|].
  split; [by eapply merge_ensure_schema|].
  revert Hm. unfold union_idx, _three_way_merge. cbv zeta.
  generalize (all_idx (_index_by_key base) (_index_by_key ours)
                (_index_by_key theirs)). intros idx.
  destruct (reindex (_index_by_key base) idx) as [B|e] eqn:HB; [|done].
  destruct (reindex (_index_by_key ours) idx) as [O|e] eqn:HO; [|done].
  destruct (reindex (_index_by_key theirs) idx) as [T|e] eqn:HT; [|done].
  cbn [mbind result_bind]. intros [= <- <-].
  apply reindex_length in HB, HO, HT. split.
  - cbn [rows]. rewrite length_fmap, !length_zip. lia.
  - intros e He. rewrite !elem_of_app in He.
    destruct He as [He|[He|[He|He]]]; [..|by apply elem_of_nil in He];
      apply conflicts_of_elem in He as [k [Hk ->]];
      eexists _, k; (split; [|done]); compute_done.
Qed.

End merge_more.

Lemma merge_keeps_unilateral_changes_witness :
  let base := table_of [alice; bob] in
  let ours := table_of [with_seen true alice; bob] in
  let theirs := table_of [alice; with_intend true bob] in
  ∃ merged conflicts,
    Capgemini._three_way_merge (H := latin) base ours theirs
      = Ok (merged, conflicts) ∧
    ∀ k b o t,
      (k, b) ∈ Capgemini._index_by_key (H := latin) base →
      (k, o) ∈ Capgemini._index_by_key (H := latin) ours →
      (k, t) ∈ Capgemini._index_by_key (H := latin) theirs →
      ∃ i r,
        union_idx (H := latin) base ours theirs !! i = Some k ∧
        rows merged !! i = Some r ∧
        (∀ c vb vo vt,
           c ∈ TEXT_COLS →
           Capgemini.as_string (get_cell b c) = Some vb →
           Capgemini.as_string (get_cell o c) = Some vo →
           Capgemini.as_string (get_cell t c) = Some vt →
           get_cell r c = CStr (if decide (vo = vb) then vt else vo)) ∧
        (∀ c vb vo vt,
           c ∈ BOOL_COLS →
           get_cell b c = CBool vb → get_cell o c = CBool vo →
           get_cell t c = CBool vt →
           get_cell r c = CBool (if decide (vo = vb) then vt else vo)).
Proof.
  intros base ours theirs.
  apply (merge_keeps_unilateral_changes (H := latin) base ours theirs);
    decided.
Defined.

Lemma merge_blanks_rows_absent_from_theirs_witness :
  let base := table_of [alice; bob] in
  let ours := table_of [alice; with_seen true bob] in
  let theirs := table_of [alice] in
  ∃ merged conflicts,
    Capgemini._three_way_merge (H := latin) base ours theirs
      = Ok (merged, conflicts) ∧
    ∀ i k,
      union_idx (H := latin) base ours theirs !! i = Some k →
      k ∉ keys (H := latin) theirs →
      rows merged !! i = Some (row_of blank_record).
Proof.
  intros base ours theirs.
  apply (merge_blanks_rows_absent_from_theirs (H := latin) base ours theirs);
    decided.
Defined.

Lemma merge_takes_rows_new_in_theirs_witness :
  let base := table_of [alice] in
  let ours := table_of [with_seen true alice] in
  let theirs := table_of [alice; with_intend true bob] in
  ∃ merged conflicts,
    Capgemini._three_way_merge (H := latin) base ours theirs
      = Ok (merged, conflicts) ∧
    ∀ k t,
      k ∉ keys (H := latin) base → k ∉ keys (H := latin) ours →
      (k, t) ∈ Capgemini._index_by_key (H := latin) theirs →
      ∃ i r,
        union_idx (H := latin) base ours theirs !! i = Some k ∧
        rows merged !! i = Some r ∧
        (∀ c s, c ∈ TEXT_COLS → get_cell t c = CStr s →
                get_cell r c = CStr s) ∧
        (∀ c, c ∈ BOOL_COLS → get_cell r c = get_cell t c).
Proof.
  intros base ours theirs.
  apply (merge_takes_rows_new_in_theirs (H := latin) base ours theirs);
    decided.
Defined.

Lemma merge_fast_forward_witness :
  let xs := [alice; bob] in
  let ys := [with_seen true alice; with_intend true bob] in
  Capgemini._three_way_merge (H := latin) (table_of xs) (table_of ys)
    (table_of xs) = Ok (table_of ys, []) ∧
  Capgemini._three_way_merge (H := latin) (table_of xs) (table_of xs)
    (table_of ys) = Ok (table_of ys, []).
Proof.
  intros xs ys. apply (merge_fast_forward (H := latin) xs ys).
  vm_compute. reflexivity.
Defined.

Lemma merge_output_canonical_witness :
  let base := table_of [alice] in
  let ours := table_of [with_first (lit "ALICE") alice] in
  let theirs := table_of [with_first (lit "alice") (with_seen true alice)] in
  let merged := table_of [with_first (lit "ALICE") (with_seen true alice)] in
  let conflicts :=
    [Capgemini.conflict_entry FIRST (lit "alice||smith||cv1.pdf")] in
  (∃ xs, merged = table_of xs) ∧
  App._ensure_schema (H := latin) merged = merged ∧
  length (rows merged) = length (union_idx (H := latin) base ours theirs) ∧
  ∀ e, e ∈ conflicts →
       ∃ c k, c ∈ TEXT_COLS ∧ k ∈ union_idx (H := latin) base ours theirs ∧
              e = Capgemini.conflict_entry c k.
Proof.
  intros base ours theirs merged conflicts.
  apply (merge_output_canonical (H := latin) base ours theirs merged
           conflicts).
  vm_compute. reflexivity.
Defined.

(** ** More on the persisted format and the flush *)
Section flush_more.
Context `{Unicode}.
Import App.

Lemma serialize_normalised T : serialize (_ensure_schema T) = serialize T.
Proof. unfold serialize. by rewrite ensure_schema_idemp. Qed.

Lemma serialize_records T :
  serialize T =
  {| header := TEXT_COLS ++ BOOL_COLS;
     records := record7 <$> (tuple_of (λ c, has_column c T) <$> rows T) |}.
Proof.
  rewrite <- serialize_normalised, ensure_schema_rows.
  rewrite <- serialize_row7. f_equal. f_equal.
  rewrite <- list_fmap_compose. by apply list_fmap_ext.
Qed.

(** X6.  The payload of every upload: the header names the seven
    canonical columns in order, there is one record per row of the table,
    every record has seven fields and its last four are "0" or "1"; and
    the payload of a table is that of its normalised form. *)
Theorem payload_shape (T : DataFrame) :
  header (serialize T) = [FIRST; LAST; FILE; SEEN; INT; SAVE; CONT] ∧
  length (records (serialize T)) = length (rows T) ∧
  Forall (λ rec, length rec = 7%nat ∧
                 ∀ j f, (3 ≤ j)%nat → rec !! j = Some f →
                        f = lit "0" ∨ f = lit "1")
         (records (serialize T)) ∧
  serialize (_ensure_schema T) = serialize T.
Proof.
  split_and!; [..|apply serialize_normalised]; rewrite serialize_records.
  - reflexivity.
  - cbn [records]. by rewrite !length_fmap.
  - cbn [records]. apply Forall_fmap, Forall_true.
    intros [[[a b] c] [[[s i] v] t]]. split; [reflexivity|].
    intros j f Hj Hf. unfold record7 in Hf.
    do 3 (destruct j as [|j]; [lia|]).
    do 4 (destruct j as [|j];
          [injection Hf as <-; by destruct s, i, v, t; auto|]).
    done.
Qed.

End flush_more.

Section capgemini_flush.
Context `{Unicode}.
Import App Capgemini.

Lemma capgemini_flush_raises ok_text err_text w s remote e :
  fetched w remote →
  _three_way_merge (default remote (base_df s)) (df s) remote = Raise e →
  _flush_to_disk ok_text err_text w s
  = (s, [EError (err_text +:+ ": " +:+ e)]).
Proof.
  intros Hf Hm. unfold _flush_to_disk.
  assert (match _download_current_df_from_dbx w with
          | Ok d => Ok d
          | Raise _ => fetch_state_df w
          end = Ok remote) as ->.
  { unfold _download_current_df_from_dbx, fetch_state_df.
    destruct Hf as [(d & -> & ->)|(e' & d & -> & -> & ->)]; done. }
  cbv zeta. by rewrite Hm.
Qed.

(** X7.  A repeated record key makes the flush of app_capgemini.py fail
    as a whole: when the fetched remote table, the working table or the
    base snapshot repeats a key (and its key sequence is not the key
    union itself), the flush shows "cannot reindex on an axis with
    duplicate labels", uploads nothing and leaves the session as it was,
    the dirty flag and the time of the last write included. *)
Theorem flush_fails_on_repeated_keys ok_text err_text w s remote base :
  fetched w remote →
  base = default remote (base_df s) →
  (¬ NoDup (keys base) ∧ keys base ≠ union_idx base (df s) remote) ∨
  (¬ NoDup (keys (df s)) ∧ keys (df s) ≠ union_idx base (df s) remote) ∨
  (¬ NoDup (keys remote) ∧ keys remote ≠ union_idx base (df s) remote) →
  _flush_to_disk ok_text err_text w s
  = (s, [EError (err_text +:+ ": " +:+
                 "cannot reindex on an axis with duplicate labels")]).
Proof.
  intros Hf -> Hdup.
  apply (capgemini_flush_raises _ _ _ _ remote); [done|].
  by apply merge_duplicates.
Qed.

Lemma flush_fast_forward_laws ok_text err_text w s (xs ys : list candidate) :
  _key (table_of xs) = _key (table_of ys) →
  base_df s = Some (table_of xs) →
  (df s = table_of ys ∧ fetched w (table_of xs)) ∨
  (df s = table_of xs ∧ fetched w (table_of ys)) →
  _flush_to_disk ok_text err_text w s =
  match upload w (serialize (table_of ys)) with
  | None =>
      (with_base_df (Some (table_of ys))
         (with_df (table_of ys) (with_flush_flags (clock w) s)),
       [EUpload (serialize (table_of ys)); EToast ok_text])
  | Some err =>
      (with_flush_flags (clock w) s,
       [EUpload (serialize (table_of ys));
        EError (err_text +:+ ": " +:+ err)])
  end.
Proof.
  intros Hk Hb [[Hd Hf]|[Hd Hf]].
  - rewrite (capgemini_flush_merged ok_text err_text w s (table_of xs)
               (table_of ys) []); [done|done|].
    rewrite Hb, Hd. cbn [default]. by apply merge_fast_forward_laws.
  - rewrite (capgemini_flush_merged ok_text err_text w s (table_of ys)
               (table_of ys) []); [done|done|].
    rewrite Hb, Hd. cbn [default]. by apply merge_fast_forward_laws.
Qed.

(** X8.  Fast-forward flush.  With a base snapshot, a working table and
    a fetched remote table that have the same sequence of record keys:
    when the remote table is the base snapshot, the flush uploads the
    working table; when the working table is the base snapshot, it
    uploads the remote table; in both cases without conflict warning,
    and on success the uploaded table becomes the working table and the
    base snapshot. *)
Theorem flush_fast_forward ok_text err_text w s (xs ys : list candidate) :
  _key (table_of xs) = _key (table_of ys) →
  base_df s = Some (table_of xs) →
  (df s = table_of ys ∧ fetched w (table_of xs)) ∨
  (df s = table_of xs ∧ fetched w (table_of ys)) →
  _flush_to_disk ok_text err_text w s =
  match upload w (serialize (table_of ys)) with
  | None =>
      (with_base_df (Some (table_of ys))
         (with_df (table_of ys) (with_flush_flags (clock w) s)),
       [EUpload (serialize (table_of ys)); EToast ok_text])
  | Some err =>
      (with_flush_flags (clock w) s,
       [EUpload (serialize (table_of ys));
        EError (err_text +:+ ": " +:+ err)])
  end.
Proof. apply flush_fast_forward_laws. Qed.

End capgemini_flush.

(** ** More on the save policy *)
Section policy_more.
Context `{Unicode}.

Ltac pass_cases :=
  unfold Schneider.pass, Schneider.andthen, Schneider.skip;
  rewrite ?schneider_flush.

(** X9.  In app_schneider.py a run writes nothing without a cause.  A
    run in which "Clear search" was not clicked, with no edit pending,
    no "Save now" click and no change of the filter state, uploads
    nothing, shows nothing and leaves the session as it was, whenever
    the filter is active, the buffer is clean or the batch interval has
    not elapsed; so does a run in which "Clear search" was clicked
    while the buffer was clean and no filter was active before.  With a
    dirty buffer, a "Clear search" click is a cause: it uploads the
    working table. *)
Theorem schneider_pass_without_cause (clear : bool) (i : Schneider.input)
    w s :
  ((clear = false ∧
    Schneider.prev_filter s = Schneider.filter_active i ∧
    Schneider.save_clicked i = false ∧ Schneider._want_save s = false ∧
    Schneider.edited i = None ∧
    (Schneider.filter_active i = true ∨ Schneider.buffer_dirty s = false ∨
     elapsed (Schneider.now i) (Schneider.last_batch_write s)
       Schneider.BATCH_SAVE_INTERVAL_SEC = false)) ∨
   (clear = true ∧ Schneider.buffer_dirty s = false ∧
    Schneider.prev_filter s = false) →
   Schneider.script clear i w s = (s, [])) ∧
  (Schneider.buffer_dirty s = true →
   Schneider.dbx_configured (w ClearSearch) = true →
   filter (λ e, is_upload e = true) (Schneider.script true i w s).2
   = [EUpload (serialize (Schneider.df s))]).
Proof.
  split.
  - intros [(-> & Hp & Hc & Hw & He & Hcause)|(-> & Hd & Hp)].
    + unfold Schneider.script. pass_cases.
      destruct s as [d0 bd lbw lst ws pf], i as [t fa sc pre ed].
      cbn in *. subst.
      destruct fa, bd; cbn; try reflexivity.
      destruct Hcause as [?|[?|Ht]]; try done. by rewrite Ht.
    + unfold Schneider.script, Schneider.clear_search, Schneider.skip.
      destruct s as [d0 bd lbw lst ws pf]. cbn in *. by subst.
  - intros Hd Hw. unfold Schneider.script, Schneider.clear_search.
    rewrite Hd, schneider_flush. cbn [snd]. rewrite Hw.
    destruct (Schneider.upload (w ClearSearch) _); reflexivity.
Qed.

(** X10.  In app_schneider.py, with the filter active, an edit that
    arrives less than [AUTOSAVE_DEBOUNCE_SEC] after the previous
    auto-save is applied to the working table and nothing else happens
    in that pass: no upload, no message, and the buffer is not marked
    dirty. *)
Theorem schneider_debounced_edit (i : Schneider.input) w s d :
  Schneider.filter_active i = true → Schneider.prev_filter s = true →
  Schneider.save_clicked i = false → Schneider._want_save s = false →
  Schneider.edited i = Some d →
  elapsed (Schneider.now i) (Schneider.last_save_ts s)
    Schneider.AUTOSAVE_DEBOUNCE_SEC = false →
  Schneider.pass i w s = (Schneider.with_df d s, []).
Proof.
  intros Hf Hp Hc Hw He Ht. pass_cases.
  destruct s as [d0 bd lbw lst ws pf], i as [t fa sc pre ed].
  cbn in *. subst. cbn. by rewrite Ht.
Qed.

Lemma schneider_save_now_once (i : Schneider.input) w s :
  Schneider.filter_active i = false → Schneider.prev_filter s = false →
  Schneider.save_clicked i = true →
  Schneider.dbx_configured (w SaveNow) = true →
  let r := Schneider.pass i w s in
  filter (λ e, is_upload e = true) r.2
    = [EUpload (serialize (default (Schneider.df s) (Schneider.edited i)))] ∧
  Schneider.buffer_dirty r.1 = false ∧
  Schneider.last_batch_write r.1 = Schneider.clock (w SaveNow) ∧
  Schneider._want_save r.1 = false.
Proof.
  intros Hf Hp Hc Hd. cbv zeta. pass_cases.
  destruct s as [d0 bd lbw lst ws pf], i as [t fa sc pre ed].
  cbn in *. subst. rewrite ?schneider_flush.
  destruct ed as [d|]; cbn; rewrite !schneider_flush; cbn; rewrite Hd;
    destruct (Schneider.upload (w SaveNow) _); cbn; done.
Qed.

(** X11.  In app_schneider.py, with no filter, "Save now" uploads
    exactly once in its pass, whatever the timers say: the payload is
    the working table with the pending edit applied, and the pass ends
    with a clean buffer, the batch timer restarted and the save request
    consumed. *)
Theorem schneider_save_now_uploads_once (i : Schneider.input) w s :
  Schneider.filter_active i = false → Schneider.prev_filter s = false →
  Schneider.save_clicked i = true →
  Schneider.dbx_configured (w SaveNow) = true →
  let r := Schneider.pass i w s in
  filter (λ e, is_upload e = true) r.2
    = [EUpload (serialize (default (Schneider.df s) (Schneider.edited i)))] ∧
  Schneider.buffer_dirty r.1 = false ∧
  Schneider.last_batch_write r.1 = Schneider.clock (w SaveNow) ∧
  Schneider._want_save r.1 = false.
Proof. apply schneider_save_now_once. Qed.

(** X12.  In app_schneider.py no pass uploads anything while the Dropbox
    client is not configured, and no pass changes the working table
    except by applying the editor's edits: flushes leave it alone. *)
Theorem schneider_pass_frame (i : Schneider.input) w s :
  let r := Schneider.pass i w s in
  Schneider.df r.1 =
    default (if Schneider.prev_filter s && negb (Schneider.filter_active i)
             then default (Schneider.df s) (Schneider.pre_edited i)
             else Schneider.df s)
            (Schneider.edited i) ∧
  ((∀ x, Schneider.dbx_configured (w x) = false) →
   filter (λ e, is_upload e = true) r.2 = []).
Proof.
  cbv zeta. pass_cases.
  destruct s as [d0 bd lbw lst ws pf], i as [t fa sc pre ed].
  cbn [Schneider.df Schneider.buffer_dirty Schneider.last_batch_write
       Schneider.last_save_ts Schneider._want_save Schneider.prev_filter
       Schneider.now Schneider.filter_active Schneider.save_clicked
       Schneider.pre_edited Schneider.edited].
  split.
  - destruct sc, pf, fa, bd, pre, ed, ws; cbn; rewrite ?schneider_flush; cbn;
      repeat (match goal with
              | |- context [if elapsed ?a ?b ?c then _ else _] =>
                  destruct (elapsed a b c)
              end; cbn; rewrite ?schneider_flush; cbn); reflexivity.
  - intros Hw.
    destruct sc, pf, fa, bd, pre, ed, ws; cbn; rewrite ?schneider_flush; cbn;
      repeat (match goal with
              | |- context [if elapsed ?a ?b ?c then _ else _] =>
                  destruct (elapsed a b c)
              end; cbn; rewrite ?schneider_flush; cbn);
      rewrite ?Hw; reflexivity.
Qed.

(** X13.  In app_schneider.py a change of the filter state made in the
    search box flushes first.  When a filter is typed while the buffer
    is dirty, the run flushes the working table before anything else;
    when the filter text is erased, the run applies the edits still
    held by the editor and flushes, whether or not anything was edited.
    In both cases nothing else is written in that run.  Removing the
    filter with "Clear search" is another matter: the edits still held
    by the editor are not applied, nothing is shown or uploaded unless
    the buffer is dirty, and the run that follows, without filter and
    with an emptied editor, changes nothing. *)
Theorem schneider_filter_toggle_flushes (i : Schneider.input) w s :
  Schneider.save_clicked i = false → Schneider._want_save s = false →
  Schneider.edited i = None →
  (Schneider.prev_filter s = false → Schneider.filter_active i = true →
   Schneider.buffer_dirty s = true →
   Schneider.script false i w s =
   let r := Schneider._flush_to_disk
              "Saved pending changes before applying filter ✅"
              "Save failed" (w FilterOn) s in
   (Schneider.with_prev_filter true r.1, r.2)) ∧
  (Schneider.prev_filter s = true → Schneider.filter_active i = false →
   Schneider.script false i w s =
   let r := Schneider._flush_to_disk
              "Saved changes before removing filter ✅" "Save failed"
              (w FilterOff)
              (from_option (λ d, Schneider.with_df d s) s
                 (Schneider.pre_edited i)) in
   (Schneider.with_prev_filter false r.1, r.2)) ∧
  (let r := Schneider.script true i w s in
   Schneider.df r.1 = Schneider.df s ∧
   Schneider.prev_filter r.1 = false ∧
   (Schneider.buffer_dirty s = false → r.2 = []) ∧
   (Schneider.filter_active i = false →
    Schneider.script false i w r.1 = (r.1, []))).
Proof.
  intros Hc Hw He. split_and!.
  - intros Hp Hf Hd. unfold Schneider.script. pass_cases.
    destruct s as [d0 bd lbw lst ws pf], i as [t fa sc pre ed].
    cbn in *. subst. cbn. rewrite ?schneider_flush. cbn.
    by rewrite app_nil_r.
  - intros Hp Hf. unfold Schneider.script. pass_cases.
    destruct s as [d0 bd lbw lst ws pf], i as [t fa sc pre ed].
    cbn in *. subst. destruct pre; cbn; rewrite ?schneider_flush; cbn;
      by rewrite app_nil_r.
  - cbv zeta. unfold Schneider.script, Schneider.clear_search, Schneider.skip.
    pass_cases.
    destruct s as [d0 bd lbw lst ws pf], i as [t fa sc pre ed].
    cbn in *. subst.
    destruct bd; cbn; rewrite ?schneider_flush; cbn; split_and!; try done;
      intros ->; reflexivity.
Qed.

(** X14.  In app_capgemini.py "Save now" does not restart the auto-save
    timer: in a pass without filter where "Save now" was clicked and
    five seconds have elapsed since the last auto-save, the table is
    uploaded twice (shown for a session whose working table, base
    snapshot and remote table are one table, so that both merges return
    it), whether or not the uploads succeed. *)
Theorem capgemini_save_now_uploads_twice (i : Capgemini.input) w s xs :
  Capgemini.filter_active i = false → Capgemini.prev_filter s = false →
  Capgemini.save_clicked i = true → Capgemini.edited i = None →
  Capgemini.df s = table_of xs → Capgemini.base_df s = Some (table_of xs) →
  fetched (w SaveNow) (table_of xs) → fetched (w Periodic) (table_of xs) →
  elapsed (Capgemini.now i) (Capgemini.last_auto_save s) 5 = true →
  filter (λ e, is_upload e = true) (Capgemini.pass i w s).2
  = [EUpload (serialize (table_of xs)); EUpload (serialize (table_of xs))].
Proof.
  intros Hf Hp Hc He Hd Hb Hw1 Hw2 Ht.
  unfold Capgemini.pass, Capgemini.andthen, Capgemini.skip.
  destruct s as [d0 b0 lbw bd las ws pf], i as [t fa sc pre ed].
  cbn in *. subst. cbn.
  rewrite (flush_fast_forward_laws _ _ (w SaveNow) _ xs xs);
    [|reflexivity|reflexivity|left; split; [reflexivity|exact Hw1]].
  destruct (Capgemini.upload (w SaveNow) _); cbn; rewrite Ht;
    (rewrite (flush_fast_forward_laws _ _ (w Periodic) _ xs xs);
     [|reflexivity|reflexivity|left; split; [reflexivity|exact Hw2]]);
    destruct (Capgemini.upload (w Periodic) _); reflexivity.
Qed.

End policy_more.

Lemma flush_fails_on_repeated_keys_witness :
  let w := cap_world (table_of [alice; alice]) None 7%Q in
  let s := cap_session (table_of [alice; bob]) in
  Capgemini._flush_to_disk (H := latin) "Saved ✅" "Save failed" w s
  = (s, [EError ("Save failed" +:+ ": " +:+
                 "cannot reindex on an axis with duplicate labels")]).
Proof.
  intros w s.
  apply (flush_fails_on_repeated_keys (H := latin) "Saved ✅" "Save failed"
           w s (table_of [alice; alice]) (table_of [alice; bob])).
  - left. exists (table_of [alice; alice]). split; [reflexivity|].
    vm_compute. reflexivity.
  - reflexivity.
  - right. right. decided.
Defined.

Lemma flush_fast_forward_witness :
  let xs := [alice; bob] in
  let ys := [with_seen true alice; bob] in
  let w := cap_world (table_of xs) None 7%Q in
  let s := Capgemini.with_df (table_of ys) (cap_session (table_of xs)) in
  Capgemini._flush_to_disk (H := latin) "Saved ✅" "Save failed" w s =
  match Capgemini.upload w (serialize (H := latin) (table_of ys)) with
  | None =>
      (Capgemini.with_base_df (Some (table_of ys))
         (Capgemini.with_df (table_of ys)
            (Capgemini.with_flush_flags (Capgemini.clock w) s)),
       [EUpload (serialize (H := latin) (table_of ys)); EToast "Saved ✅"])
  | Some err =>
      (Capgemini.with_flush_flags (Capgemini.clock w) s,
       [EUpload (serialize (H := latin) (table_of ys));
        EError ("Save failed" +:+ ": " +:+ err)])
  end.
Proof.
  intros xs ys w s.
  apply (flush_fast_forward (H := latin) "Saved ✅" "Save failed" w s xs ys).
  - vm_compute. reflexivity.
  - reflexivity.
  - left. split; [reflexivity|].
    left. exists (table_of xs). split; [reflexivity|].
    vm_compute. reflexivity.
Defined.

Lemma schneider_pass_without_cause_witness :
  let s := sch_session (table_of [alice]) false in
  let d := sch_session (table_of [alice]) true in
  let i := sch_input 100%Q false None in
  let w := λ _ : site, sch_world None 100%Q in
  Schneider.script (H := latin) false i w s = (s, []) ∧
  Schneider.script (H := latin) true i w s = (s, []) ∧
  filter (λ e, is_upload e = true) (Schneider.script (H := latin) true i w d).2
  = [EUpload (serialize (H := latin) (table_of [alice]))].
Proof.
  intros s d i w. split_and!.
  - apply (proj1 (schneider_pass_without_cause (H := latin) false i w s)).
    left. split_and!; try reflexivity. right. left. reflexivity.
  - apply (proj1 (schneider_pass_without_cause (H := latin) true i w s)).
    right. split_and!; reflexivity.
  - apply (proj2 (schneider_pass_without_cause (H := latin) true i w d));
      reflexivity.
Defined.

Lemma schneider_debounced_edit_witness :
  let s := sch_filtering (table_of [alice]) in
  let d := table_of [with_seen true alice] in
  Schneider.pass (H := latin) (sch_filter_input (102 # 10) (Some d))
    (λ _, sch_world None (102 # 10)) s = (Schneider.with_df d s, []).
Proof.
  intros s d.
  apply (schneider_debounced_edit (H := latin)); reflexivity.
Defined.

Lemma schneider_save_now_uploads_once_witness :
  let s := sch_session (table_of [alice]) false in
  let d := table_of [with_seen true alice] in
  let w := λ _ : site, sch_world None 45%Q in
  let r := Schneider.pass (H := latin) (sch_input 45%Q true (Some d)) w s in
  filter (λ e, is_upload e = true) r.2 = [EUpload (serialize (H := latin) d)] ∧
  Schneider.buffer_dirty r.1 = false ∧
  Schneider.last_batch_write r.1 = 45%Q ∧
  Schneider._want_save r.1 = false.
Proof.
  intros s d w.
  apply (schneider_save_now_uploads_once (H := latin)
           (sch_input 45%Q true (Some d)) w s); reflexivity.
Defined.

Lemma schneider_pass_frame_witness :
  let s := sch_session (table_of [alice]) true in
  let d := table_of [with_seen true alice] in
  let r := Schneider.pass (H := latin) (sch_input 45%Q true (Some d))
             (λ _, sch_unconfigured) s in
  Schneider.df r.1 = d ∧ filter (λ e, is_upload e = true) r.2 = [].
Proof.
  intros s d.
  destruct (schneider_pass_frame (H := latin) (sch_input 45%Q true (Some d))
              (λ _, sch_unconfigured) s) as [Hdf Hup].
  split; [exact Hdf | apply Hup; reflexivity].
Defined.

Lemma schneider_filter_toggle_flushes_witness :
  let d := table_of [with_seen true alice] in
  let w := λ _ : site, sch_world None 12%Q in
  Schneider.script (H := latin) false (sch_filter_input 12%Q None) w
    (sch_session d true) =
    (let r := Schneider._flush_to_disk (H := latin)
                "Saved pending changes before applying filter ✅"
                "Save failed" (w FilterOn) (sch_session d true) in
     (Schneider.with_prev_filter true r.1, r.2)) ∧
  Schneider.script (H := latin) false (sch_unfilter_input 12%Q (Some d)) w
    (sch_filtering (table_of [alice])) =
    (let r := Schneider._flush_to_disk (H := latin)
                "Saved changes before removing filter ✅" "Save failed"
                (w FilterOff)
                (Schneider.with_df d (sch_filtering (table_of [alice]))) in
     (Schneider.with_prev_filter false r.1, r.2)) ∧
  (let r := Schneider.script (H := latin) true
              (sch_unfilter_input 12%Q (Some d)) w
              (sch_filtering (table_of [alice])) in
   Schneider.df r.1 = table_of [alice] ∧ r.2 = [] ∧
   Schneider.script (H := latin) false (sch_unfilter_input 12%Q (Some d)) w
     r.1 = (r.1, [])).
Proof.
  intros d w. split_and!.
  - apply (proj1 (schneider_filter_toggle_flushes (H := latin)
                    (sch_filter_input 12%Q None) w (sch_session d true)
                    eq_refl eq_refl eq_refl)); reflexivity.
  - apply (proj1 (proj2 (schneider_filter_toggle_flushes (H := latin)
                    (sch_unfilter_input 12%Q (Some d)) w
                    (sch_filtering (table_of [alice]))
                    eq_refl eq_refl eq_refl))); reflexivity.
  - destruct (proj2 (proj2 (schneider_filter_toggle_flushes (H := latin)
                    (sch_unfilter_input 12%Q (Some d)) w
                    (sch_filtering (table_of [alice]))
                    eq_refl eq_refl eq_refl))) as (Hdf & _ & Hq & Hnext).
    split_and!; [exact Hdf | apply Hq; reflexivity
                | apply Hnext; reflexivity].
Defined.

Lemma capgemini_save_now_uploads_twice_witness :
  let xs := [alice; bob] in
  let w := λ _ : site, cap_world (table_of xs) None 6%Q in
  filter (λ e, is_upload e = true)
    (Capgemini.pass (H := latin) (cap_save_input 6%Q) w
       (cap_session (table_of xs))).2
  = [EUpload (serialize (H := latin) (table_of xs));
     EUpload (serialize (H := latin) (table_of xs))].
Proof.
  intros xs w.
  apply (capgemini_save_now_uploads_twice (H := latin) (cap_save_input 6%Q)
           w (cap_session (table_of xs)) xs); try reflexivity.
  - left. exists (table_of xs). split; [reflexivity|].
    vm_compute. reflexivity.
  - left. exists (table_of xs). split; [reflexivity|].
    vm_compute. reflexivity.
Defined.

Section editor.
Context `{Unicode}.

Lemma zip_key_rows df :
  zip (App._key df) (rows df) = (λ r, (key_of_row r, r)) <$> rows df.
Proof.
  unfold App._key.
  rewrite <- (list_fmap_id (rows df)) at 2.
  apply zip_fmap_same.
Qed.

Lemma mapM_closed {A B} (f : A → option B) (h : A → B) (l : list A) :
  (∀ x, x ∈ l → f x = Some (h x)) → mapM f l = Some (h <$> l).
Proof.
  induction l as [|x l IH]; intros Hf; [done|].
  cbn. rewrite Hf by left. cbn. rewrite IH; [done|].
  intros y Hy. apply Hf. by right.
Qed.

Lemma left_join_no_partner (left right : indexed) :
  (∀ k, k ∈ left.*1 → k ∉ right.*1) →
  left_join left right = (λ kr, (kr.2, None)) <$> left.
Proof.
  intros Hk. unfold left_join.
  induction left as [|[k r] left IH]; [done|].
  rewrite bind_cons, fmap_cons, IH.
  2:{ intros k' Hk'. apply Hk. cbn. by right. }
  cbn [fst snd]. rewrite filter_none; [done|].
  intros [k' m] Hin Heq. cbn in Heq. subst k'.
  apply (Hk k); [cbn; by left|].
  apply list_elem_of_fmap. by exists (k, m).
Qed.

Lemma filter_key_NoDup (right : indexed) k :
  NoDup right.*1 →
  filter (λ p, p.1 = k) right
  = from_option (λ m, [(k, m)]) []
      (snd <$> head (filter (λ p, p.1 = k) right)).
Proof.
  induction right as [|[k' m] right IH]; intros Hd; [done|].
  cbn in Hd. apply NoDup_cons in Hd as [Hk' Hd].
  rewrite filter_cons. cbn [fst]. case_decide as Hkk.
  - subst k'. cbn. f_equal. apply filter_none.
    intros [k'' m''] Hin Heq. cbn in Heq. subst k''.
    apply Hk'. apply list_elem_of_fmap. by exists (k, m'').
  - by apply IH.
Qed.

Lemma left_join_NoDup (left right : indexed) :
  NoDup right.*1 →
  left_join left right
  = (λ kr, (kr.2, snd <$> head (filter (λ p, p.1 = kr.1) right))) <$> left.
Proof.
  intros Hd. unfold left_join.
  induction left as [|[k r] left IH]; [done|].
  rewrite bind_cons, fmap_cons, IH. cbn [fst snd].
  rewrite (filter_key_NoDup right k Hd).
  by destruct (snd <$> head (filter (λ p, p.1 = k) right)).
Qed.

Lemma forallb_Forall {A} (f : A → bool) (l : list A) :
  Forall (λ x, f x = true) l → forallb f l = true.
Proof. induction 1 as [|x l Hx _ IH]; [done|]. cbn. by rewrite Hx, IH. Qed.

Lemma forallb_negb_Forall {A} (f : A → bool) (l : list A) :
  Forall (λ x, f x = false) l → forallb (λ x, negb (f x)) l = true.
Proof. induction 1 as [|x l Hx _ IH]; [done|]. cbn. by rewrite Hx, IH. Qed.

Lemma filter_all {A} (P : A → Prop) `{∀ x, Decision (P x)} (l : list A) :
  Forall P l → filter P l = l.
Proof.
  induction 1 as [|x l Hx _ IH]; [done|].
  by rewrite filter_cons_True, IH.
Qed.

Lemma canonical_not_empty df :
  canonical_columns df → rows df ≠ [] → empty df = false.
Proof.
  intros Hc Hr. unfold empty.
  rewrite bool_decide_eq_false_2 by done.
  rewrite bool_decide_eq_false_2; [done|].
  apply Forall_cons in Hc as [Hc _]. unfold has_column in Hc.
  apply bool_decide_eq_true_1 in Hc. set_solver.
Qed.

Lemma canonical_text df :
  canonical_columns df → Forall (λ c, has_column c df = true) TEXT_COLS.
Proof. intros Hc. by apply Forall_app in Hc as [? _]. Qed.

Lemma canonical_flags df :
  canonical_columns df → Forall (λ c, has_column c df = true) BOOL_COLS.
Proof. intros Hc. by apply Forall_app in Hc as [_ ?]. Qed.

Lemma key_fst_rows (df : DataFrame) :
  ((λ r, (key_of_row r, r)) <$> rows df).*1 = App._key df.
Proof. rewrite <- list_fmap_compose. reflexivity. Qed.

Lemma get_cell_project cs (r : row) c :
  get_cell (project cs r) c
  = if bool_decide (c ∈ cs) then get_cell r c else CNaN.
Proof.
  unfold project. induction cs as [|c0 cs IH].
  - cbn. unfold get_cell. by rewrite lookup_empty.
  - cbn [fmap list_fmap list_to_map foldr uncurry fst snd].
    rewrite get_cell_insert. destruct (decide (c0 = c)) as [->|Hne].
    + by rewrite bool_decide_eq_true_2 by left.
    + rewrite IH. destruct (decide (c ∈ cs)) as [Hin|Hin].
      * by rewrite !bool_decide_eq_true_2 by (done || by right).
      * rewrite !bool_decide_eq_false_2; [done| |done].
        by intros [?|?]%elem_of_cons.
Qed.

Lemma key_of_row_text (r r' : row) :
  (∀ c, c ∈ TEXT_COLS → get_cell r c = get_cell r' c) →
  key_of_row r = key_of_row r'.
Proof.
  intros Hc. unfold key_of_row.
  by rewrite (Hc FIRST), (Hc LAST), (Hc FILE) by compute_done.
Qed.

Lemma in_range {A} (l : list A) (i : Z) x :
  (0 ≤ i)%Z → l !! Z.to_nat i = Some x →
  bool_decide (0 ≤ i < Z.of_nat (length l))%Z = true.
Proof.
  intros Hi Hl. apply lookup_lt_Some in Hl.
  apply bool_decide_eq_true_2. lia.
Qed.

Lemma take_flags_None r : take_flags None r = r.
Proof. reflexivity. Qed.

End editor.

Section schneider_editor.
Context `{Unicode}.
Import Schneider.

Lemma schneider_optimistic_step c (acc r : row) m b :
  r !! c = Some (CBool b) → acc !! c = Some (CBool b) →
  (v ← optimistic_cell c (r, m); Some (<[c := v]> acc))
  = Some (match astype_bool (new_cell m c) with
          | Some b' => <[c := CBool b']> acc
          | None => acc
          end).
Proof.
  intros Hr Hacc. unfold optimistic_cell, combine_first. cbn [fst snd].
  destruct (new_cell m c) as [s| |b'|z|s] eqn:Hn; cbn; try done.
  unfold get_cell. rewrite Hr. cbn. by rewrite insert_id.
Qed.

Lemma schneider_optimistic_fold cols (r acc : row) m :
  NoDup cols → Forall (λ c, ∃ b, r !! c = Some (CBool b)) cols →
  (∀ c, c ∈ cols → acc !! c = r !! c) →
  foldl (λ acc c, a ← acc; v ← optimistic_cell c (r, m); Some (<[c := v]> a))
        (Some acc) cols
  = Some (foldl (λ acc c, match astype_bool (new_cell m c) with
                          | Some b => <[c := CBool b]> acc
                          | None => acc
                          end) acc cols).
Proof.
  revert acc. induction cols as [|c cols IH]; intros acc Hd Hb Hacc; [done|].
  apply NoDup_cons in Hd as [Hc Hd].
  apply Forall_cons in Hb as [[b Hb] Hbs].
  assert (acc !! c = Some (CBool b)) as Hc0 by (rewrite Hacc by left; done).
  cbn [foldl].
  etrans; [|apply IH; [done|done|]].
  { f_equal. exact (schneider_optimistic_step c acc r m b Hb Hc0). }
  intros c' Hc'.
  assert (c ≠ c') as Hne by (intros ->; done).
  destruct (astype_bool (new_cell m c));
    rewrite ?lookup_insert_ne by done; apply Hacc; by right.
Qed.

Lemma schneider_optimistic_row (r : row) m :
  Forall (λ c, ∃ b, r !! c = Some (CBool b)) BOOL_COLS →
  optimistic_row BOOL_COLS (r, m) = Some (take_flags m r).
Proof.
  intros Hb. unfold optimistic_row, take_flags. cbn [fst].
  apply (schneider_optimistic_fold BOOL_COLS r r m); [compute_done|done|done].
Qed.

Lemma schneider_apply_closed full delta :
  canonical_columns full → no_scratch BOOL_COLS full → flags_boolean full →
  canonical_columns delta → rows delta ≠ [] → NoDup (App._key delta) →
  _apply_optimistic full delta =
  Some {| columns := columns full;
          rows := (λ r, take_flags (partner delta r) r) <$> rows full |}.
Proof.
  intros Hcf Hsf Hbf Hcd Hrd Hkd. unfold _apply_optimistic.
  rewrite (canonical_not_empty delta Hcd Hrd).
  rewrite (forallb_Forall _ _ Hcf), (forallb_negb_Forall _ _ Hsf),
    (forallb_Forall _ _ (canonical_text delta Hcd)).
  cbn [andb]. rewrite (filter_all _ _ (canonical_flags delta Hcd)).
  rewrite (zip_key_rows full).
  rewrite left_join_NoDup by (by rewrite zip_key_rows, key_fst_rows).
  rewrite <- list_fmap_compose.
  rewrite (mapM_closed _ (λ rm, take_flags rm.2 rm.1)).
  - cbn [mbind option_bind]. f_equal. f_equal.
    rewrite <- list_fmap_compose. reflexivity.
  - intros [r m] Hin. apply list_elem_of_fmap in Hin as [r0 [[= -> ->] Hr0]].
    cbn [fst snd]. apply schneider_optimistic_row.
    unfold flags_boolean in Hbf. rewrite Forall_forall in Hbf.
    by apply Hbf.
Qed.

(** X15.  The optimistic applier of app_schneider.py, on a working
    table with boolean flags and a delta without repeated keys: every
    row of the working table takes the flags that the delta row with its
    key holds (a flag missing there is kept), a row without such a delta
    row is unchanged, and so are the order and number of the rows, the
    columns and every cell that is not a flag. *)
Theorem schneider_apply_optimistic_flags full delta :
  canonical_columns full → no_scratch BOOL_COLS full → flags_boolean full →
  canonical_columns delta → rows delta ≠ [] → NoDup (App._key delta) →
  _apply_optimistic full delta =
  Some {| columns := columns full;
          rows := (λ r, take_flags (partner delta r) r) <$> rows full |}.
Proof. apply schneider_apply_closed. Qed.

Lemma schneider_build_one grid i g changes :
  Forall (λ c, has_column c grid = true) TEXT_COLS →
  (0 ≤ i)%Z → rows grid !! Z.to_nat i = Some g →
  _build_delta_from_editor grid [(i, changes)] =
  Some {| columns := list_to_set (TEXT_COLS ++ BOOL_COLS);
          rows := let bd := edit_cells changes (project TEXT_COLS g) in
                  if bd.2 then [project (TEXT_COLS ++ BOOL_COLS) bd.1]
                  else [] |}.
Proof.
  intros Hg Hi Hr. unfold _build_delta_from_editor.
  rewrite (forallb_Forall _ _ Hg), orb_true_r.
  cbn [omap list_omap fst snd]. rewrite (in_range _ _ _ Hi Hr), Hr.
  cbn [mbind option_bind]. cbv zeta.
  by destruct (edit_cells changes (project TEXT_COLS g)) as [base []].
Qed.

Lemma one_row_canonical (m : row) :
  canonical_columns {| columns := list_to_set (TEXT_COLS ++ BOOL_COLS);
                       rows := [m] |}.
Proof.
  unfold canonical_columns. rewrite Forall_forall.
  intros c Hc. by apply has_column_canonical.
Qed.

Lemma partner_one (m r : row) :
  partner {| columns := list_to_set (TEXT_COLS ++ BOOL_COLS); rows := [m] |} r
  = if decide (key_of_row r = key_of_row m) then Some m else None.
Proof.
  unfold partner, App._key. cbn [rows fmap list_fmap zip zip_with].
  rewrite filter_cons, filter_nil. cbn [fst].
  fold (key_of_row m).
  destruct (decide (key_of_row m = key_of_row r)),
    (decide (key_of_row r = key_of_row m)); done.
Qed.

Lemma tick_key c (x : cell) (g : row) :
  c ∈ BOOL_COLS →
  key_of_row (project (TEXT_COLS ++ BOOL_COLS) (<[c := x]> (project TEXT_COLS g)))
  = key_of_row g.
Proof.
  intros Hc. apply key_of_row_text. intros c' Hc'.
  rewrite get_cell_project.
  rewrite bool_decide_eq_true_2 by (apply elem_of_app; by left).
  rewrite get_cell_insert_ne.
  - rewrite get_cell_project. by rewrite bool_decide_eq_true_2.
  - intros ->. revert Hc Hc'. clear. intros Hc Hc'.
    apply list_elem_of_In in Hc, Hc'. cbn in Hc, Hc'.
    destruct Hc as [<-|[<-|[<-|[<-|[]]]]];
      destruct Hc' as [?|[?|[?|[]]]]; discriminate.
Qed.

Lemma tick_flags c b (g r : row) :
  c ∈ BOOL_COLS →
  take_flags (Some (project (TEXT_COLS ++ BOOL_COLS)
                      (<[c := CBool b]> (project TEXT_COLS g)))) r
  = <[c := CBool b]> r.
Proof.
  intros Hc. unfold take_flags, new_cell. cbn [from_option foldl BOOL_COLS].
  rewrite !get_cell_project.
  rewrite !bool_decide_eq_true_2 by compute_done.
  apply list_elem_of_In in Hc. cbn in Hc.
  destruct Hc as [<-|[<-|[<-|[<-|[]]]]];
    rewrite ?get_cell_insert_eq;
    rewrite ?get_cell_insert_ne by discriminate;
    rewrite ?get_cell_insert_eq;
    rewrite ?get_cell_project;
    rewrite ?bool_decide_eq_false_2 by compute_done;
    reflexivity.
Qed.

Lemma schneider_tick full grid i g c v :
  canonical_columns full → no_scratch BOOL_COLS full → flags_boolean full →
  Forall (λ c, has_column c grid = true) TEXT_COLS →
  (0 ≤ i)%Z → rows grid !! Z.to_nat i = Some g →
  ∃ delta,
    _build_delta_from_editor grid [(i, [(c, v)])] = Some delta ∧
    _apply_optimistic full delta =
    Some (if bool_decide (c ∈ BOOL_COLS)
          then {| columns := columns full;
                  rows := (λ r, if decide (key_of_row r = key_of_row g)
                                then <[c := CBool (bool_of_value v)]> r
                                else r) <$> rows full |}
          else full).
Proof.
  intros Hcf Hsf Hbf Hg Hi Hr. eexists.
  split; [by apply schneider_build_one|].
  unfold edit_cells. cbn [foldl fst snd]. cbv zeta.
  case_bool_decide as Hc; cbn [fst snd]; [|done].
  rewrite schneider_apply_closed; try done.
  - f_equal. f_equal. apply list_fmap_ext. intros _ r _.
    rewrite partner_one, tick_key by done.
    case_decide; [by apply tick_flags|done].
  - apply one_row_canonical.
  - unfold App._key. cbn [rows fmap list_fmap]. apply NoDup_singleton.
Qed.

(** X16.  Ticking a checkbox in app_schneider.py.  When the editor holds
    one change, of column [c] in grid row [i], the delta built from it,
    applied to a working table with boolean flags, sets flag [c] to the
    new value in every row that has the record key of that grid row and
    changes nothing else; a change of any other column (a text field
    included) leaves the working table as it was. *)
Theorem schneider_tick_checkbox full grid i g c v :
  canonical_columns full → no_scratch BOOL_COLS full → flags_boolean full →
  Forall (λ c, has_column c grid = true) TEXT_COLS →
  (0 ≤ i)%Z → rows grid !! Z.to_nat i = Some g →
  ∃ delta,
    _build_delta_from_editor grid [(i, [(c, v)])] = Some delta ∧
    _apply_optimistic full delta =
    Some (if bool_decide (c ∈ BOOL_COLS)
          then {| columns := columns full;
                  rows := (λ r, if decide (key_of_row r = key_of_row g)
                                then <[c := CBool (bool_of_value v)]> r
                                else r) <$> rows full |}
          else full).
Proof. apply schneider_tick. Qed.

Lemma fmap_at_key {A K} `{EqDecision K} (f : A → K) (h : A → A)
    (l : list A) (i : nat) (x : A) :
  NoDup (f <$> l) → l !! i = Some x →
  (λ y, if decide (f y = f x) then h y else y) <$> l = <[i := h x]> l.
Proof.
  intros Hd Hi. apply list_eq. intros j.
  rewrite list_lookup_fmap.
  destruct (decide (i = j)) as [<-|Hij].
  - rewrite list_lookup_insert_eq by (by eapply lookup_lt_Some).
    rewrite Hi. cbn. by rewrite decide_True.
  - rewrite list_lookup_insert_ne by done.
    destruct (l !! j) as [y|] eqn:Hj; [|done]. cbn.
    rewrite decide_False; [done|]. intros Heq. apply Hij.
    apply (NoDup_lookup (f <$> l) i j (f x)); [done|..];
      rewrite list_lookup_fmap; [by rewrite Hi|rewrite Hj; cbn; by rewrite Heq].
Qed.

Lemma schneider_tick_one_row full i r c v :
  canonical_columns full → no_scratch BOOL_COLS full → flags_boolean full →
  NoDup (App._key full) →
  (0 ≤ i)%Z → rows full !! Z.to_nat i = Some r → c ∈ BOOL_COLS →
  ∃ grid delta,
    _reset_grid full = Some grid ∧
    _build_delta_from_editor grid [(i, [(c, v)])] = Some delta ∧
    _apply_optimistic full delta =
    Some {| columns := columns full;
            rows := <[Z.to_nat i := <[c := CBool (bool_of_value v)]> r]>
                      (rows full) |}.
Proof.
  intros Hcf Hsf Hbf Hk Hi Hr Hc.
  destruct (schneider_tick full (select (TEXT_COLS ++ BOOL_COLS) full) i
              (project (TEXT_COLS ++ BOOL_COLS) r) c v)
    as (delta & Hb & Ha); try done.
  - unfold select. rewrite Forall_forall. intros c' Hc'.
    apply has_column_canonical. apply elem_of_app. by left.
  - unfold select. cbn [rows].
    by rewrite list_lookup_fmap, Hr.
  - exists (select (TEXT_COLS ++ BOOL_COLS) full), delta.
    split; [unfold _reset_grid; by rewrite (forallb_Forall _ _ Hcf)|].
    split; [done|]. rewrite Ha.
    rewrite bool_decide_eq_true_2 by done. f_equal. f_equal.
    rewrite <- (fmap_at_key key_of_row (λ y, <[c := CBool (bool_of_value v)]> y)
                  (rows full) (Z.to_nat i) r); [|done|done].
    apply list_fmap_ext. intros _ y _.
    rewrite (key_of_row_text (project (TEXT_COLS ++ BOOL_COLS) r) r); [done|].
    intros c' Hc'. rewrite get_cell_project.
    by rewrite bool_decide_eq_true_2 by (apply elem_of_app; by left).
Qed.

(** X17.  With record keys that do not repeat, ticking a checkbox in
    row [i] of the unfiltered grid of app_schneider.py sets that flag
    in row [i] of the working table and changes no other row and no
    other cell. *)
Theorem schneider_tick_changes_one_row full i r c v :
  canonical_columns full → no_scratch BOOL_COLS full → flags_boolean full →
  NoDup (App._key full) →
  (0 ≤ i)%Z → rows full !! Z.to_nat i = Some r → c ∈ BOOL_COLS →
  ∃ grid delta,
    _reset_grid full = Some grid ∧
    _build_delta_from_editor grid [(i, [(c, v)])] = Some delta ∧
    _apply_optimistic full delta =
    Some {| columns := columns full;
            rows := <[Z.to_nat i := <[c := CBool (bool_of_value v)]> r]>
                      (rows full) |}.
Proof. apply schneider_tick_one_row. Qed.

End schneider_editor.

Section capgemini_editor.
Context `{Unicode}.
Import Capgemini.

Lemma capgemini_optimistic_step c (acc r : row) m :
  (c ∈ BOOL_COLS → ∃ b, r !! c = Some (CBool b) ∧ acc !! c = Some (CBool b)) →
  (v ← optimistic_cell c (r, m); Some (<[c := v]> acc))
  = Some (if bool_decide (c ∈ BOOL_COLS)
          then match astype_bool (new_cell m c) with
               | Some b' => <[c := CBool b']> acc
               | None => acc
               end
          else <[c := CStr (str_of_cell
                              (combine_first (new_cell m c) (get_cell r c)))]>
                 acc).
Proof.
  intros Hb. unfold optimistic_cell. cbn [fst snd]. cbv zeta.
  case_bool_decide as Hc; [|done].
  destruct (Hb Hc) as (b & Hr & Hacc). unfold combine_first.
  destruct (new_cell m c) as [s| |b'|z|s] eqn:Hn; cbn; try done.
  unfold get_cell. rewrite Hr. cbn. by rewrite insert_id.
Qed.

Lemma capgemini_optimistic_fold cols (r acc : row) m :
  NoDup cols →
  Forall (λ c, c ∈ BOOL_COLS → ∃ b, r !! c = Some (CBool b)) cols →
  (∀ c, c ∈ cols → acc !! c = r !! c) →
  foldl (λ acc c, a ← acc; v ← optimistic_cell c (r, m); Some (<[c := v]> a))
        (Some acc) cols
  = Some (foldl (λ acc c,
                   if bool_decide (c ∈ BOOL_COLS)
                   then match astype_bool (new_cell m c) with
                        | Some b => <[c := CBool b]> acc
                        | None => acc
                        end
                   else <[c := CStr (str_of_cell
                                       (combine_first (new_cell m c)
                                          (get_cell r c)))]> acc)
            acc cols).
Proof.
  revert acc. induction cols as [|c cols IH]; intros acc Hd Hb Hacc; [done|].
  apply NoDup_cons in Hd as [Hc Hd].
  apply Forall_cons in Hb as [Hb Hbs].
  cbn [foldl].
  etrans; [|apply IH; [done|done|]].
  { f_equal. apply (capgemini_optimistic_step c acc r m).
    intros Hbc. destruct (Hb Hbc) as [b Hr]. exists b.
    split; [done|]. rewrite Hacc by left. done. }
  intros c' Hc'.
  assert (c ≠ c') as Hne by (intros ->; done).
  case_bool_decide; [destruct (astype_bool (new_cell m c))|];
    rewrite ?lookup_insert_ne by done; apply Hacc; by right.
Qed.

Lemma capgemini_optimistic_row (r : row) m :
  Forall (λ c, ∃ b, r !! c = Some (CBool b)) BOOL_COLS →
  optimistic_row (TEXT_COLS ++ BOOL_COLS) (r, m) = Some (take_cells m r).
Proof.
  intros Hb. unfold optimistic_row, take_cells. cbn [fst].
  apply (capgemini_optimistic_fold (TEXT_COLS ++ BOOL_COLS) r r m);
    [compute_done| |done].
  rewrite Forall_forall. intros c _ Hc.
  rewrite Forall_forall in Hb. by apply Hb.
Qed.

Lemma take_cells_None r : take_cells None r = stringified r.
Proof. reflexivity. Qed.

Lemma stringified_strings (r : row) :
  Forall (λ c, ∃ s, r !! c = Some (CStr s)) TEXT_COLS → stringified r = r.
Proof.
  intros Hs. unfold stringified. cbn [foldl TEXT_COLS].
  apply Forall_cons in Hs as [[s1 H1] Hs].
  apply Forall_cons in Hs as [[s2 H2] Hs].
  apply Forall_cons in Hs as [[s3 H3] _].
  unfold get_cell. rewrite H1, H2, H3. cbn [default str_of_cell].
  rewrite (insert_id r FIRST) by done.
  rewrite (insert_id r LAST) by done.
  by rewrite (insert_id r FILE) by done.
Qed.

Lemma capgemini_apply_closed full delta :
  canonical_columns full → no_scratch (TEXT_COLS ++ BOOL_COLS) full →
  flags_boolean full →
  canonical_columns delta → rows delta ≠ [] → NoDup (App._key delta) →
  _apply_optimistic full delta =
  Some {| columns := columns full;
          rows := (λ r, take_cells (partner delta r) r) <$> rows full |}.
Proof.
  intros Hcf Hsf Hbf Hcd Hrd Hkd. unfold _apply_optimistic.
  rewrite (canonical_not_empty delta Hcd Hrd).
  rewrite (forallb_Forall _ _ Hcf), (forallb_negb_Forall _ _ Hsf),
    (forallb_Forall _ _ (canonical_text delta Hcd)).
  cbn [andb]. rewrite (filter_all _ _ Hcd).
  rewrite (zip_key_rows full).
  rewrite left_join_NoDup by (by rewrite zip_key_rows, key_fst_rows).
  rewrite <- list_fmap_compose.
  rewrite (mapM_closed _ (λ rm, take_cells rm.2 rm.1)).
  - cbn [mbind option_bind]. f_equal. f_equal.
    rewrite <- list_fmap_compose. reflexivity.
  - intros [r m] Hin. apply list_elem_of_fmap in Hin as [r0 [[= -> ->] Hr0]].
    cbn [fst snd]. apply capgemini_optimistic_row.
    unfold flags_boolean in Hbf. rewrite Forall_forall in Hbf.
    by apply Hbf.
Qed.

(** X18.  The optimistic applier of app_capgemini.py, on a working
    table with boolean flags and a non-empty delta without repeated
    keys: every row takes the flags and the text fields of the delta row
    with its key; a row without such a delta row keeps its flags, and
    its text fields are rewritten by [astype(str)], so that a missing
    text field becomes the text "nan" and a text field that is a string
    stays as it is. *)
Theorem capgemini_apply_optimistic_cells full delta :
  canonical_columns full → no_scratch (TEXT_COLS ++ BOOL_COLS) full →
  flags_boolean full →
  canonical_columns delta → rows delta ≠ [] → NoDup (App._key delta) →
  _apply_optimistic full delta =
    Some {| columns := columns full;
            rows := (λ r, take_cells (partner delta r) r) <$> rows full |} ∧
  ∀ r, partner delta r = None →
       take_cells (partner delta r) r = stringified r ∧
       (∀ c, c ∈ TEXT_COLS → get_cell r c = CNaN →
             get_cell (stringified r) c = CStr (lit "nan")) ∧
       (Forall (λ c, ∃ s, r !! c = Some (CStr s)) TEXT_COLS →
        stringified r = r).
Proof.
  intros Hcf Hsf Hbf Hcd Hrd Hkd.
  split; [by apply capgemini_apply_closed|].
  intros r ->. split; [apply take_cells_None|]. split.
  - intros c Hc Hn. unfold stringified. cbn [foldl TEXT_COLS].
    apply list_elem_of_In in Hc. cbn in Hc.
    destruct Hc as [<-|[<-|[<-|[]]]]; rewrite Hn;
      rewrite ?get_cell_insert_ne by discriminate;
      by rewrite get_cell_insert_eq.
  - apply stringified_strings.
Qed.

Lemma capgemini_build_one grid i g changes :
  Forall (λ c, has_column c grid = true) TEXT_COLS →
  (0 ≤ i)%Z → rows grid !! Z.to_nat i = Some g →
  _build_delta_from_editor grid [(i, changes)] =
  Some {| columns := list_to_set (TEXT_COLS ++ BOOL_COLS);
          rows := let bd := edit_cells changes (project TEXT_COLS g) in
                  if bd.2 then [project (TEXT_COLS ++ BOOL_COLS) bd.1]
                  else [] |}.
Proof.
  intros Hg Hi Hr. unfold _build_delta_from_editor.
  rewrite (forallb_Forall _ _ Hg), orb_true_r.
  cbn [omap list_omap fst snd]. rewrite (in_range _ _ _ Hi Hr), Hr.
  cbn [mbind option_bind]. cbv zeta.
  by destruct (edit_cells changes (project TEXT_COLS g)) as [base []].
Qed.

Lemma key_of_row_project (r : row) :
  key_of_row (project (TEXT_COLS ++ BOOL_COLS) r) = key_of_row r.
Proof.
  apply key_of_row_text. intros c Hc. rewrite get_cell_project.
  by rewrite bool_decide_eq_true_2 by (apply elem_of_app; by left).
Qed.

Lemma same_rows (full : DataFrame) (f : row → row) :
  (∀ r, r ∈ rows full → f r = r) →
  {| columns := columns full; rows := f <$> rows full |} = full.
Proof.
  intros Hf. destruct full as [cs rs]. cbn in *. f_equal.
  rewrite <- (list_fmap_id rs) at 2. apply list_fmap_ext.
  intros i r Hr. apply Hf. by eapply list_elem_of_lookup_2.
Qed.

(** X19.  In app_capgemini.py an edit that changes the record key is
    lost.  When the changes made to one grid row give it a record key
    that no row of the working table has (a new first name, say), the
    delta built from them, applied to a working table of strings and
    booleans, gives the working table back unchanged. *)
Theorem capgemini_key_changing_edit_dropped full grid i g changes :
  canonical_columns full → no_scratch (TEXT_COLS ++ BOOL_COLS) full →
  flags_boolean full → text_strings full →
  Forall (λ c, has_column c grid = true) TEXT_COLS →
  (0 ≤ i)%Z → rows grid !! Z.to_nat i = Some g →
  key_of_row (edit_cells changes (project TEXT_COLS g)).1 ∉ App._key full →
  ∃ delta,
    _build_delta_from_editor grid [(i, changes)] = Some delta ∧
    _apply_optimistic full delta = Some full.
Proof.
  intros Hcf Hsf Hbf Htf Hg Hi Hr Hk. eexists.
  split; [by apply capgemini_build_one|]. cbv zeta.
  destruct (edit_cells changes (project TEXT_COLS g)) as [base dirty].
  cbn [fst snd] in *. destruct dirty; [|done].
  rewrite capgemini_apply_closed; try done.
  - f_equal. apply same_rows. intros r Hin.
    rewrite partner_one, key_of_row_project. rewrite decide_False.
    + rewrite take_cells_None. apply stringified_strings.
      unfold text_strings in Htf. rewrite Forall_forall in Htf.
      by apply Htf.
    + intros Heq. apply Hk. rewrite <- Heq. unfold App._key.
      by apply (list_elem_of_fmap_2 key_of_row).
  - apply one_row_canonical.
  - unfold App._key. cbn [rows fmap list_fmap]. apply NoDup_singleton.
Qed.

Lemma capgemini_tick_key c (x : cell) (g : row) :
  c ∈ BOOL_COLS →
  key_of_row (project (TEXT_COLS ++ BOOL_COLS) (<[c := x]> (project TEXT_COLS g)))
  = key_of_row g.
Proof.
  intros Hc. apply key_of_row_text. intros c' Hc'.
  rewrite get_cell_project.
  rewrite bool_decide_eq_true_2 by (apply elem_of_app; by left).
  rewrite get_cell_insert_ne.
  - rewrite get_cell_project. by rewrite bool_decide_eq_true_2.
  - intros ->. revert Hc Hc'. clear. intros Hc Hc'.
    apply list_elem_of_In in Hc, Hc'. cbn in Hc, Hc'.
    destruct Hc as [<-|[<-|[<-|[<-|[]]]]];
      destruct Hc' as [?|[?|[?|[]]]]; discriminate.
Qed.

Lemma capgemini_tick_cells c b (r : row) :
  c ∈ BOOL_COLS →
  Forall (λ c, ∃ s, r !! c = Some (CStr s)) TEXT_COLS →
  take_cells (Some (project (TEXT_COLS ++ BOOL_COLS)
                      (<[c := CBool b]>
                         (project TEXT_COLS
                            (project (TEXT_COLS ++ BOOL_COLS) r))))) r
  = <[c := CBool b]> r.
Proof.
  intros Hc Hs.
  apply Forall_cons in Hs as [[s1 H1] Hs].
  apply Forall_cons in Hs as [[s2 H2] Hs].
  apply Forall_cons in Hs as [[s3 H3] _].
  assert (get_cell r FIRST = CStr s1) as G1 by (unfold get_cell; by rewrite H1).
  assert (get_cell r LAST = CStr s2) as G2 by (unfold get_cell; by rewrite H2).
  assert (get_cell r FILE = CStr s3) as G3 by (unfold get_cell; by rewrite H3).
  unfold take_cells, new_cell.
  cbn [from_option foldl TEXT_COLS BOOL_COLS app].
  rewrite (bool_decide_eq_false_2 (FIRST ∈ BOOL_COLS)) by compute_done.
  rewrite (bool_decide_eq_false_2 (LAST ∈ BOOL_COLS)) by compute_done.
  rewrite (bool_decide_eq_false_2 (FILE ∈ BOOL_COLS)) by compute_done.
  rewrite (bool_decide_eq_true_2 (SEEN ∈ BOOL_COLS)) by compute_done.
  rewrite (bool_decide_eq_true_2 (INT ∈ BOOL_COLS)) by compute_done.
  rewrite (bool_decide_eq_true_2 (SAVE ∈ BOOL_COLS)) by compute_done.
  rewrite (bool_decide_eq_true_2 (CONT ∈ BOOL_COLS)) by compute_done.
  rewrite !get_cell_project.
  rewrite !bool_decide_eq_true_2 by compute_done.
  apply list_elem_of_In in Hc. cbn in Hc.
  destruct Hc as [<-|[<-|[<-|[<-|[]]]]];
    rewrite ?get_cell_insert_eq;
    rewrite ?get_cell_insert_ne by discriminate;
    rewrite ?get_cell_insert_eq;
    rewrite ?get_cell_project;
    rewrite ?bool_decide_eq_true_2 by compute_done;
    rewrite ?bool_decide_eq_false_2 by compute_done;
    rewrite ?get_cell_project;
    rewrite ?bool_decide_eq_true_2 by compute_done;
    rewrite G1, G2, G3; cbn [combine_first isna str_of_cell astype_bool];
    rewrite (insert_id r FIRST) by done;
    rewrite (insert_id r LAST) by done;
    rewrite (insert_id r FILE) by done;
    reflexivity.
Qed.

Lemma capgemini_tick_one_row full i r c v :
  canonical_columns full → no_scratch (TEXT_COLS ++ BOOL_COLS) full →
  flags_boolean full → text_strings full → NoDup (App._key full) →
  (0 ≤ i)%Z → rows full !! Z.to_nat i = Some r → c ∈ BOOL_COLS →
  ∃ grid delta,
    _reset_grid full = Some grid ∧
    _build_delta_from_editor grid [(i, [(c, v)])] = Some delta ∧
    _apply_optimistic full delta =
    Some {| columns := columns full;
            rows := <[Z.to_nat i := <[c := CBool (bool_of_value v)]> r]>
                      (rows full) |}.
Proof.
  intros Hcf Hsf Hbf Htf Hk Hi Hr Hc.
  exists (select (TEXT_COLS ++ BOOL_COLS) full). eexists.
  split; [unfold _reset_grid; by rewrite (forallb_Forall _ _ Hcf)|]. split.
  - apply capgemini_build_one; [|done|].
    + unfold select. rewrite Forall_forall. intros c' Hc'.
      apply has_column_canonical. apply elem_of_app. by left.
    + unfold select. cbn [rows].
      by rewrite list_lookup_fmap, Hr.
  - unfold edit_cells. cbn [foldl fst snd]. cbv zeta.
    rewrite bool_decide_eq_true_2 by done. cbn [fst snd].
    rewrite capgemini_apply_closed; try done.
    + f_equal. f_equal.
      rewrite <- (fmap_at_key key_of_row
                    (λ y, <[c := CBool (bool_of_value v)]> y)
                    (rows full) (Z.to_nat i) r); [|done|done].
      apply list_fmap_ext. intros j y Hy.
      rewrite partner_one, capgemini_tick_key by done.
      rewrite key_of_row_project.
      unfold text_strings in Htf. rewrite Forall_forall in Htf.
      case_decide as Hkey.
      * assert (y = r) as ->.
        { assert (Z.to_nat i = j) as <-.
          { apply (NoDup_lookup (App._key full) _ _ (key_of_row r));
              [done|..]; unfold App._key; rewrite list_lookup_fmap.
            - by rewrite Hr.
            - rewrite Hy. cbn. by rewrite <- Hkey. }
          congruence. }
        apply capgemini_tick_cells; [done|].
        apply Htf. by eapply list_elem_of_lookup_2.
      * rewrite take_cells_None. apply stringified_strings, Htf.
        by eapply list_elem_of_lookup_2.
    + apply one_row_canonical.
    + unfold App._key. cbn [rows fmap list_fmap]. apply NoDup_singleton.
Qed.

(** X20.  With record keys that do not repeat and text fields that are
    strings, ticking a checkbox in row [i] of the unfiltered grid of
    app_capgemini.py sets that flag in row [i] of the working table and
    changes no other row and no other cell. *)
Theorem capgemini_tick_changes_one_row full i r c v :
  canonical_columns full → no_scratch (TEXT_COLS ++ BOOL_COLS) full →
  flags_boolean full → text_strings full → NoDup (App._key full) →
  (0 ≤ i)%Z → rows full !! Z.to_nat i = Some r → c ∈ BOOL_COLS →
  ∃ grid delta,
    _reset_grid full = Some grid ∧
    _build_delta_from_editor grid [(i, [(c, v)])] = Some delta ∧
    _apply_optimistic full delta =
    Some {| columns := columns full;
            rows := <[Z.to_nat i := <[c := CBool (bool_of_value v)]> r]>
                      (rows full) |}.
Proof. apply capgemini_tick_one_row. Qed.

End capgemini_editor.

Ltac table_shape :=
  repeat first [ apply Forall_cons; split | apply Forall_nil
               | reflexivity | by eexists ].

Lemma schneider_apply_optimistic_flags_witness :
  Schneider._apply_optimistic (H := latin) (table_of [alice; bob])
    (seen_delta bob) =
  Some {| columns := columns (table_of [alice; bob]);
          rows := (λ r, take_flags (partner (H := latin) (seen_delta bob) r) r)
                    <$> rows (table_of [alice; bob]) |}.
Proof.
  apply (schneider_apply_optimistic_flags (H := latin) (table_of [alice; bob])
           (seen_delta bob)); try (unfold canonical_columns, no_scratch,
             flags_boolean; table_shape); try decided.
  all: try discriminate.
Defined.

Lemma schneider_tick_checkbox_witness :
  ∃ delta,
    Schneider._build_delta_from_editor (table_of [alice; bob])
      [(1, [(SEEN, VBool true)])] = Some delta ∧
    Schneider._apply_optimistic (H := latin) (table_of [alice; bob]) delta =
    Some (if bool_decide (SEEN ∈ BOOL_COLS)
          then {| columns := columns (table_of [alice; bob]);
                  rows := (λ r, if decide (key_of_row (H := latin) r
                                           = key_of_row (H := latin) (row_of bob))
                                then <[SEEN := CBool (bool_of_value (VBool true))]> r
                                else r) <$> rows (table_of [alice; bob]) |}
          else table_of [alice; bob]).
Proof.
  apply (schneider_tick_checkbox (H := latin) (table_of [alice; bob])
           (table_of [alice; bob]) 1 (row_of bob) SEEN (VBool true));
    try (unfold canonical_columns, no_scratch, flags_boolean; table_shape).
  all: try lia.
Defined.

Lemma schneider_tick_changes_one_row_witness :
  ∃ grid delta,
    _reset_grid (table_of [alice; bob]) = Some grid ∧
    Schneider._build_delta_from_editor grid [(1, [(CONT, VBool true)])]
      = Some delta ∧
    Schneider._apply_optimistic (H := latin) (table_of [alice; bob]) delta =
    Some {| columns := columns (table_of [alice; bob]);
            rows := <[Z.to_nat 1 := <[CONT := CBool (bool_of_value (VBool true))]>
                                      (row_of bob)]>
                      (rows (table_of [alice; bob])) |}.
Proof.
  apply (schneider_tick_changes_one_row (H := latin) (table_of [alice; bob])
           1 (row_of bob) CONT (VBool true));
    try (unfold canonical_columns, no_scratch, flags_boolean; table_shape);
    try decided.
  all: try lia.
Defined.

Lemma capgemini_apply_optimistic_cells_witness :
  Capgemini._apply_optimistic (H := latin) no_file (seen_delta bob) =
    Some {| columns := columns no_file;
            rows := (λ r, take_cells (partner (H := latin) (seen_delta bob) r) r)
                      <$> rows no_file |} ∧
  ∀ r, partner (H := latin) (seen_delta bob) r = None →
       take_cells (partner (H := latin) (seen_delta bob) r) r = stringified r ∧
       (∀ c, c ∈ TEXT_COLS → get_cell r c = CNaN →
             get_cell (stringified r) c = CStr (lit "nan")) ∧
       (Forall (λ c, ∃ s, r !! c = Some (CStr s)) TEXT_COLS →
        stringified r = r).
Proof.
  apply (capgemini_apply_optimistic_cells (H := latin) no_file
           (seen_delta bob)); try (unfold canonical_columns, no_scratch,
             flags_boolean; table_shape); try decided.
  all: try discriminate.
Defined.

Lemma capgemini_key_changing_edit_dropped_witness :
  ∃ delta,
    Capgemini._build_delta_from_editor (table_of [alice; bob])
      [(0, [(FIRST, VStr (lit "Alicia"))])] = Some delta ∧
    Capgemini._apply_optimistic (H := latin) (table_of [alice; bob]) delta
    = Some (table_of [alice; bob]).
Proof.
  apply (capgemini_key_changing_edit_dropped (H := latin)
           (table_of [alice; bob]) (table_of [alice; bob]) 0 (row_of alice)
           [(FIRST, VStr (lit "Alicia"))]);
    try (unfold canonical_columns, no_scratch, flags_boolean, text_strings;
         table_shape); try decided.
  all: try lia.
Defined.

Lemma capgemini_tick_changes_one_row_witness :
  ∃ grid delta,
    _reset_grid (table_of [alice; bob]) = Some grid ∧
    Capgemini._build_delta_from_editor grid [(0, [(SAVE, VBool true)])]
      = Some delta ∧
    Capgemini._apply_optimistic (H := latin) (table_of [alice; bob]) delta =
    Some {| columns := columns (table_of [alice; bob]);
            rows := <[Z.to_nat 0 := <[SAVE := CBool (bool_of_value (VBool true))]>
                                      (row_of alice)]>
                      (rows (table_of [alice; bob])) |}.
Proof.
  apply (capgemini_tick_changes_one_row (H := latin) (table_of [alice; bob])
           0 (row_of alice) SAVE (VBool true));
    try (unfold canonical_columns, no_scratch, flags_boolean, text_strings;
         table_shape); try decided.
  all: try lia.
Defined.

(** ** The remote poll of app_capgemini.py *)
Section poll.
Context `{Unicode}.
Import App Capgemini.

(** X21.  The remote poll never uploads.  It does nothing at all before
    [HASH_CHECK_TTL_SEC] has elapsed since the last check; and it leaves
    the session as it was, shows nothing and raises nothing when no hash
    was seen before, when the hash is the one seen before, or when no
    hash could be read. *)
Theorem poll_never_uploads now rhash w s p :
  filter (λ e, is_upload e = true) (shown (poll now rhash w s p)) = [] ∧
  (elapsed now (last_hash_check p) HASH_CHECK_TTL_SEC = false →
   poll now rhash w s p =
   {| session_after := s; poll_after := p; shown := []; raised := None |}) ∧
  (last_seen_hash p = None ∨ rhash = last_seen_hash p ∨
   hash_given rhash = false →
   session_after (poll now rhash w s p) = s ∧
   shown (poll now rhash w s p) = [] ∧
   raised (poll now rhash w s p) = None).
Proof.
  split_and!.
  - unfold poll.
    destruct (elapsed _ _ _); [|done]. cbv zeta.
    destruct (hash_given rhash && bool_decide (last_seen_hash p = None));
      [done|].
    destruct (hash_given rhash && bool_decide (rhash ≠ last_seen_hash p));
      [|done].
    destruct (match _download_current_df_from_dbx w with
              | Ok d => Ok d
              | Raise _ => fetch_state_df w
              end) as [remote|e]; [|done].
    by destruct (_three_way_merge _ _ _) as [[merged conflicts]|e].
  - intros Ht. unfold poll. by rewrite Ht.
  - intros Hq. unfold poll.
    destruct (elapsed _ _ _); [|done]. cbv zeta.
    destruct (hash_given rhash) eqn:Hg; cbn [andb]; [|done].
    destruct Hq as [Hq|[Hq|Hq]]; [| |done].
    + by rewrite bool_decide_eq_true_2.
    + case_bool_decide; [done|].
      by rewrite bool_decide_eq_false_2 by (intros Hne; by apply Hne).
Qed.

(** X22.  A poll between two flushes loses the pending edits.  When the
    poll sees a new hash it merges the remote table into the working
    table and takes the merged table as the new base snapshot, edits
    that were never uploaded included.  The next flush then finds the
    working table equal to the base snapshot and, when the remote table
    is still the same, uploads the remote table as it is and makes it the
    working table: what the merge had kept of the local edits is gone. *)
Theorem poll_then_flush_reverts now h h' w w' s p xs ys zs ms conflicts
    ok_text err_text :
  elapsed now (last_hash_check p) HASH_CHECK_TTL_SEC = true →
  h ≠ EmptyString → last_seen_hash p = Some h' → h ≠ h' →
  base_df s = Some (table_of xs) → df s = table_of ys →
  fetched w (table_of zs) → fetched w' (table_of zs) →
  _three_way_merge (table_of xs) (table_of ys) (table_of zs)
    = Ok (table_of ms, conflicts) →
  _key (table_of ms) = _key (table_of zs) →
  df (session_after (poll now (Some h) w s p)) = table_of ms ∧
  base_df (session_after (poll now (Some h) w s p)) = Some (table_of ms) ∧
  raised (poll now (Some h) w s p) = None ∧
  filter (λ e, is_upload e = true)
    (_flush_to_disk ok_text err_text w'
       (session_after (poll now (Some h) w s p))).2
    = [EUpload (serialize (table_of zs))] ∧
  (upload w' (serialize (table_of zs)) = None →
   df (_flush_to_disk ok_text err_text w'
         (session_after (poll now (Some h) w s p))).1 = table_of zs).
Proof.
  intros Ht Hh Hp Hne Hb Hd Hw Hw' Hm Hk.
  assert (poll now (Some h) w s p =
          {| session_after :=
               with_base_df (Some (table_of ms)) (with_df (table_of ms) s);
             poll_after := {| last_seen_hash := Some h;
                              last_hash_check := now |};
             shown := [EToast (poll_toast (length conflicts))];
             raised := None |}) as ->.
  { unfold poll. rewrite Ht, Hp. cbv zeta. cbn [hash_given].
    assert (String.eqb h EmptyString = false) as ->
      by (by apply String.eqb_neq).
    cbn [negb andb]. rewrite bool_decide_eq_false_2 by done.
    rewrite bool_decide_eq_true_2 by congruence.
    assert (match _download_current_df_from_dbx w with
            | Ok d => Ok d
            | Raise _ => fetch_state_df w
            end = Ok (table_of zs)) as ->.
    { unfold _download_current_df_from_dbx, fetch_state_df.
      destruct Hw as [(d & -> & ->)|(e' & d & -> & -> & ->)]; done. }
    rewrite Hb, Hd. cbn [from_option id]. rewrite Hm.
    unfold _snapshot_base. cbn [df with_df].
    by rewrite ensure_schema_table. }
  cbn [session_after raised].
  split; [done|]. split; [done|]. split; [done|].
  rewrite (flush_fast_forward_laws ok_text err_text w' _ ms zs Hk);
    [|reflexivity|right; split; [reflexivity|exact Hw']].
  destruct (upload w' (serialize (table_of zs))); cbn [fst snd]; split;
    try done; reflexivity.
Qed.

End poll.

Lemma poll_never_uploads_witness :
  let s := cap_session (table_of [alice]) in
  let w := cap_world (table_of [with_seen true alice]) None 4%Q in
  let r := Capgemini.poll (H := latin) 4%Q (Some "h1") w s poll_example in
  Capgemini.session_after r = s ∧ Capgemini.shown r = [] ∧
  Capgemini.raised r = None.
Proof.
  intros s w.
  apply (proj2 (proj2 (poll_never_uploads (H := latin) 4%Q (Some "h1") w s
                         poll_example))).
  right. left. reflexivity.
Defined.

Lemma poll_then_flush_reverts_witness :
  let xs := [alice; bob] in
  let ys := [with_seen true alice; bob] in
  let zs := [alice; with_intend true bob] in
  let ms := [with_seen true alice; with_intend true bob] in
  let w := cap_world (table_of zs) None 4%Q in
  let s := Capgemini.with_df (table_of ys) (cap_session (table_of xs)) in
  let r := Capgemini.poll (H := latin) 4%Q (Some "h2") w s poll_example in
  Capgemini.df (Capgemini.session_after r) = table_of ms ∧
  Capgemini.base_df (Capgemini.session_after r) = Some (table_of ms) ∧
  Capgemini.raised r = None ∧
  filter (λ e, is_upload e = true)
    (Capgemini._flush_to_disk (H := latin) "Saved ✅" "Auto-save failed" w
       (Capgemini.session_after r)).2
    = [EUpload (serialize (H := latin) (table_of zs))] ∧
  (Capgemini.upload w (serialize (H := latin) (table_of zs)) = None →
   Capgemini.df (Capgemini._flush_to_disk (H := latin) "Saved ✅"
                   "Auto-save failed" w (Capgemini.session_after r)).1
   = table_of zs).
Proof.
  intros xs ys zs ms w s.
  apply (poll_then_flush_reverts (H := latin) 4%Q "h2" "h1" w w s
           poll_example xs ys zs ms [] "Saved ✅" "Auto-save failed");
    try reflexivity; try discriminate;
    try (left; exists (table_of zs); split; [reflexivity|];
         vm_compute; reflexivity).
Defined.

Section utils_more.
Context `{Unicode}.
Import Utils.

Lemma zip_key_series df :
  zip (_key_series df) (rows df) = (λ r, (row_key r, r)) <$> rows df.
Proof.
  unfold _key_series.
  rewrite <- (list_fmap_id (rows df)) at 2.
  apply zip_fmap_same.
Qed.

Lemma has_column_not_empty c df :
  has_column c df = true → rows df ≠ [] → empty df = false.
Proof.
  intros Hc Hr. unfold empty.
  rewrite bool_decide_eq_false_2 by done.
  rewrite bool_decide_eq_false_2; [done|].
  unfold has_column in Hc. apply bool_decide_eq_true_1 in Hc.
  intros Heq. rewrite Heq in Hc. by apply not_elem_of_empty in Hc.
Qed.

(** X23.  [merge_base_state] shows every row of the base table, in
    order: with a state table that has rows and no repeated key, each
    base row comes out once, with its own text fields and the flags of
    the state row that has its key, or all flags False when there is
    none.  With a state table that has no rows the function does not
    return: it raises KeyError('_k'). *)
Theorem merge_base_state_shows_base base state :
  rows base ≠ [] →
  Forall (λ c, has_column c base = true) TEXT_COLS →
  Forall (λ c, has_column c base = false) BOOL_COLS →
  (empty state = true →
   merge_base_state base state = Some (Raise "'_k'")) ∧
  (rows state ≠ [] → canonical_columns state →
   NoDup (_key_series state) →
   merge_base_state base state =
   Some (Ok {| columns := list_to_set (TEXT_COLS ++ BOOL_COLS);
               rows := (λ r, display_row (r, state_partner state r))
                         <$> rows base |})).
Proof.
  intros Hr Ht Hf.
  assert (empty base = false) as He.
  { apply (has_column_not_empty FIRST); [|done].
    by apply Forall_cons in Ht as [? _]. }
  split.
  - intros Hs. unfold merge_base_state.
    by rewrite He, (forallb_Forall _ _ Ht), (forallb_negb_Forall _ _ Hf), Hs.
  - intros Hrs Hcs Hk. unfold merge_base_state.
    rewrite He, (forallb_Forall _ _ Ht), (forallb_negb_Forall _ _ Hf).
    rewrite (canonical_not_empty state Hcs Hrs), (forallb_Forall _ _ Hcs).
    cbn [andb]. f_equal. f_equal. f_equal.
    rewrite (zip_key_series base).
    rewrite left_join_NoDup
      by (rewrite zip_key_series, <- list_fmap_compose; exact Hk).
    rewrite <- !list_fmap_compose. reflexivity.
Qed.

Lemma hits_set_flag first last file c v x :
  hits first last file (set_flag c v x) = hits first last file x.
Proof. reflexivity. Qed.

Lemma set_flag_twice c v x : set_flag c v (set_flag c v x) = set_flag c v x.
Proof. unfold set_flag. cbn. by repeat case_decide. Qed.

Lemma forallb_miss_app first last file xs x :
  hits first last file x = true →
  forallb (λ x, negb (hits first last file x)) (xs ++ [x]) = false.
Proof.
  intros Hx. rewrite forallb_app. cbn [forallb]. rewrite Hx.
  by destruct (forallb _ xs).
Qed.

Lemma forallb_miss_fmap first last file c v xs :
  forallb (λ x, negb (hits first last file x))
    ((λ x, if hits first last file x then set_flag c v x else x) <$> xs)
  = forallb (λ x, negb (hits first last file x)) xs.
Proof.
  induction xs as [|x xs IH]; [done|]. cbn [fmap list_fmap forallb].
  rewrite IH. f_equal.
  destruct (hits first last file x) eqn:Hx; [rewrite hits_set_flag|];
    by rewrite Hx.
Qed.

(** X24.  [update_flag] is idempotent on a state table: a second call
    with the same arguments returns the table that the first call
    returned; in particular it appends no second row. *)
Theorem update_flag_idempotent xs first last file col value cb cb' :
  col ∈ BOOL_COLS →
  (update_flag
     (update_flag (table_of xs) (Some first) (Some last) (Some file)
        col value cb).1
     (Some first) (Some last) (Some file) col value cb').1
  = (update_flag (table_of xs) (Some first) (Some last) (Some file)
       col value cb).1.
Proof.
  intros Hc. rewrite (update_flag_table xs) by done.
  rewrite update_flag_table by done. f_equal.
  destruct (forallb (λ x, negb (hits first last file x)) xs) eqn:Hmiss.
  - rewrite forallb_miss_app by (rewrite hits_set_flag; apply fresh_hits).
    rewrite fmap_app. cbn [fmap list_fmap].
    rewrite hits_set_flag, fresh_hits, set_flag_twice. f_equal.
    rewrite <- (list_fmap_id xs) at 2. apply list_fmap_ext.
    intros i x Hx. rewrite forallb_forall in Hmiss.
    assert (negb (hits first last file x) = true) as Hn.
    { apply Hmiss. apply list_elem_of_In. by eapply list_elem_of_lookup_2. }
    apply negb_true_iff in Hn. by rewrite Hn.
  - rewrite forallb_miss_fmap, Hmiss.
    rewrite <- list_fmap_compose. apply list_fmap_ext.
    intros i x Hx. unfold compose.
    destruct (hits first last file x) eqn:Hh.
    + by rewrite hits_set_flag, Hh, set_flag_twice.
    + by rewrite Hh.
Qed.

End utils_more.

Lemma merge_base_state_shows_base_witness :
  Utils.merge_base_state (H := latin) base_list no_rows
    = Some (Raise "'_k'") ∧
  Utils.merge_base_state (H := latin) base_list
    (table_of [with_seen true bob]) =
  Some (Ok {| columns := list_to_set (TEXT_COLS ++ BOOL_COLS);
              rows := (λ r, Utils.display_row
                              (r, state_partner (H := latin)
                                    (table_of [with_seen true bob]) r))
                        <$> rows base_list |}).
Proof.
  destruct (merge_base_state_shows_base (H := latin) base_list
              (table_of [with_seen true bob])) as [_ Hshow];
    [discriminate|table_shape..|].
  destruct (merge_base_state_shows_base (H := latin) base_list no_rows)
    as [Hraise _]; [discriminate|table_shape..|].
  split.
  - apply Hraise. reflexivity.
  - apply Hshow; [discriminate|unfold canonical_columns; table_shape|decided].
Defined.

Lemma update_flag_idempotent_witness :
  (Utils.update_flag (H := latin)
     (Utils.update_flag (H := latin) (table_of [alice]) (Some (lit "Bob"))
        (Some (lit "Jones")) (Some (lit "cv2.pdf")) SEEN true false).1
     (Some (lit "Bob")) (Some (lit "Jones")) (Some (lit "cv2.pdf"))
     SEEN true false).1
  = (Utils.update_flag (H := latin) (table_of [alice]) (Some (lit "Bob"))
       (Some (lit "Jones")) (Some (lit "cv2.pdf")) SEEN true false).1.
Proof.
  apply (update_flag_idempotent (H := latin)). decided.
Defined.

(** ** The shared link *)
Lemma after_prefix_Some p s r : after_prefix p s = Some r ↔ s = p ++ r.
Proof.
  revert s. induction p as [|x p IH]; intros s.
  - cbn. split; congruence.
  - destruct s as [|y s]; cbn; [split; discriminate|].
    case_decide as Hxy.
    + subst y. rewrite IH. split; congruence.
    + split; [discriminate|]. intros [= -> _]. done.
Qed.

Lemma after_prefix_app p r : after_prefix p (p ++ r) = Some r.
Proof. by apply after_prefix_Some. Qed.

(** Whether a text starts with [p] is decided by its first [length p]
    characters. *)
Lemma after_prefix_None_take p s :
  after_prefix p s = None ↔ take (length p) s ≠ p.
Proof.
  split.
  - intros Hn Ht. assert (after_prefix p s = Some (drop (length p) s)) as Hs.
    { apply after_prefix_Some. by rewrite <- Ht at 1; rewrite take_drop. }
    congruence.
  - intros Ht. destruct (after_prefix p s) as [r|] eqn:Hr; [|done].
    apply after_prefix_Some in Hr as ->. exfalso. apply Ht.
    by rewrite take_app_length.
Qed.

Lemma py_partition_sound sep s a b :
  py_partition sep s = Some (a, b) → s = a ++ sep ++ b.
Proof.
  revert a. induction s as [|c s IH]; intros a.
  - cbn. destruct (after_prefix sep []) as [r|] eqn:Hr; [|done].
    intros [= <- <-]. by apply after_prefix_Some in Hr.
  - cbn. destruct (after_prefix sep (c :: s)) as [r|] eqn:Hr.
    + intros [= <- <-]. by apply after_prefix_Some in Hr.
    + destruct (py_partition sep s) as [[a' b']|] eqn:Hp; [|done].
      cbn. intros [= <- <-]. by rewrite (IH a' eq_refl).
Qed.

(** The first occurrence stays the first when the text after it
    changes. *)
Lemma py_partition_tail sep s a b b' :
  py_partition sep s = Some (a, b) →
  py_partition sep (a ++ sep ++ b') = Some (a, b').
Proof.
  revert a. induction s as [|c s IH]; intros a.
  - cbn. destruct (after_prefix sep []) as [r|] eqn:Hr; [|done].
    intros [= <- <-]. cbn [app].
    destruct (sep ++ b') as [|y l] eqn:Hl; cbn;
      rewrite <- Hl, after_prefix_app; done.
  - cbn. destruct (after_prefix sep (c :: s)) as [r|] eqn:Hr.
    + intros [= <- <-]. cbn [app].
      destruct (sep ++ b') as [|y l] eqn:Hl; cbn;
        rewrite <- Hl, after_prefix_app; done.
    + destruct (py_partition sep s) as [[a' b0]|] eqn:Hp; [|done].
      cbn. intros [= <- <-].
      pose proof (py_partition_sound _ _ _ _ Hp) as ->.
      cbn [app py_partition].
      assert (after_prefix sep (c :: a' ++ sep ++ b') = None) as ->.
      { apply after_prefix_None_take. apply after_prefix_None_take in Hr.
        intros Ht. apply Hr. etrans; [|exact Ht].
        change (c :: a' ++ sep ++ b0) with ((c :: a') ++ sep ++ b0).
        change (c :: a' ++ sep ++ b') with ((c :: a') ++ sep ++ b').
        rewrite !(app_assoc (c :: a') sep).
        rewrite (take_app_le ((c :: a') ++ sep) b0),
          (take_app_le ((c :: a') ++ sep) b'); [done|..];
          rewrite length_app; lia. }
      by rewrite (IH a' eq_refl).
Qed.

Lemma py_partition_here sep t : py_partition sep (sep ++ t) = Some ([], t).
Proof.
  destruct (sep ++ t) as [|y l] eqn:Hl; cbn;
    rewrite <- Hl, after_prefix_app; done.
Qed.

Lemma py_partition_None sep c s :
  py_partition sep (c :: s) = None →
  after_prefix sep (c :: s) = None ∧ py_partition sep s = None.
Proof.
  cbn. destruct (after_prefix sep (c :: s)); [done|].
  by destruct (py_partition sep s).
Qed.

(** A separator that holds no [c] first occurs, in a text without it
    followed by [c] and the separator, right after that [c]. *)
Lemma py_partition_appended sep u c t :
  sep ≠ [] → c ∉ sep → py_partition sep u = None →
  py_partition sep (u ++ c :: sep ++ t) = Some (u ++ [c], t).
Proof.
  intros Hsep Hc. induction u as [|y u IH]; intros Hu.
  - cbn [app py_partition].
    assert (after_prefix sep (c :: sep ++ t) = None) as ->.
    { destruct sep as [|x p]; [done|]. cbn. rewrite decide_False; [done|].
      intros ->. apply Hc. by left. }
    by rewrite py_partition_here.
  - apply py_partition_None in Hu as [Hr Hu].
    cbn [app py_partition].
    assert (after_prefix sep (y :: u ++ c :: sep ++ t) = None) as ->.
    { apply after_prefix_None_take. apply after_prefix_None_take in Hr.
      intros Ht.
      destruct (decide (length sep ≤ length (y :: u))%nat) as [Hle|Hgt].
      - apply Hr. rewrite <- Ht at 2.
        change (y :: u ++ c :: sep ++ t) with ((y :: u) ++ c :: sep ++ t).
        by rewrite take_app_le.
      - apply Hc. rewrite <- Ht.
        apply (list_elem_of_lookup_2 _ (length (y :: u))).
        rewrite lookup_take_lt by lia.
        change (y :: u ++ c :: sep ++ t) with ((y :: u) ++ c :: sep ++ t).
        by rewrite list_lookup_middle. }
    by rewrite (IH Hu).
Qed.

Lemma force_dl1_nonempty u :
  u ≠ [] →
  _force_dl1 (Some u) =
  match py_partition (lit "dl=") u with
  | Some (base, tail) =>
      let rest := from_option snd [] (py_partition (lit "&") tail) in
      Some (base ++ lit "dl=1" ++
            (if decide (rest = []) then [] else lit "&" ++ rest))
  | None =>
      Some (u ++
            match py_partition (lit "?") u with
            | Some _ => lit "&"
            | None => lit "?"
            end ++
            lit "dl=1")
  end.
Proof. by destruct u. Qed.

(** The shape of the forced link: the text before its first "dl=", then
    "dl=1", then nothing or "&" and more. *)
Lemma force_dl1_shape u :
  u ≠ [] →
  ∃ base rest,
    _force_dl1 (Some u) = Some (base ++ lit "dl=1" ++ rest) ∧
    py_partition (lit "dl=") (base ++ lit "dl=1" ++ rest)
      = Some (base, lit "1" ++ rest) ∧
    (rest = [] ∨ ∃ r, r ≠ [] ∧ rest = lit "&" ++ r).
Proof.
  intros Hu. rewrite force_dl1_nonempty by done.
  destruct (py_partition (lit "dl=") u) as [[base tail]|] eqn:Hp.
  - cbv zeta.
    exists base.
    exists (if decide (from_option snd [] (py_partition (lit "&") tail) = [])
            then []
            else lit "&" ++ from_option snd [] (py_partition (lit "&") tail)).
    split; [done|]. split.
    + exact (py_partition_tail (lit "dl=") u base tail _ Hp).
    + case_decide; [by left|right]. by eexists.
  - destruct (py_partition (lit "?") u) as [ab|].
    + exists (u ++ lit "&"), []. split_and!; [|  |by left].
      * by rewrite app_nil_r, <- app_assoc.
      * rewrite app_nil_r, <- app_assoc.
        exact (py_partition_appended (lit "dl=") u 38%N (lit "1")
                 ltac:(done) ltac:(compute_done) Hp).
    + exists (u ++ lit "?"), []. split_and!; [|  |by left].
      * by rewrite app_nil_r, <- app_assoc.
      * rewrite app_nil_r, <- app_assoc.
        exact (py_partition_appended (lit "dl=") u 63%N (lit "1")
                 ltac:(done) ltac:(compute_done) Hp).
Qed.

(** X25.  [_force_dl1] is idempotent, and the link it makes of a
    non-empty link has "dl=1" as its first "dl=" parameter: it reads as
    the text before the first "dl=", then "dl=1", then nothing or "&"
    and the parameters that followed. *)
Theorem force_dl1_idempotent (url : option pystr) :
  _force_dl1 (_force_dl1 url) = _force_dl1 url ∧
  (∀ u, url = Some u → u ≠ [] →
     ∃ base rest,
       _force_dl1 url = Some (base ++ lit "dl=1" ++ rest) ∧
       py_partition (lit "dl=") (base ++ lit "dl=1" ++ rest)
         = Some (base, lit "1" ++ rest) ∧
       (rest = [] ∨ ∃ r, r ≠ [] ∧ rest = lit "&" ++ r)).
Proof.
  split.
  - destruct url as [u|]; [|done].
    destruct (decide (u = [])) as [->|Hu]; [done|].
    destruct (force_dl1_shape u Hu) as (base & rest & -> & Hp & Hrest).
    rewrite force_dl1_nonempty by (by destruct base).
    rewrite Hp. cbv zeta.
    destruct Hrest as [->|(r & Hr & ->)].
    + cbn [app]. reflexivity.
    + assert (py_partition (lit "&") (lit "1" ++ lit "&" ++ r)
              = Some (lit "1", r)) as ->.
      { change (py_partition [38%N] (49%N :: 38%N :: r) = Some ([49%N], r)).
        cbn [py_partition after_prefix].
        rewrite decide_False by done.
        destruct r; cbn [after_prefix]; by rewrite decide_True. }
      cbn [from_option snd]. by rewrite decide_False.
  - intros u -> Hu. by apply force_dl1_shape.
Qed.

Lemma force_dl1_idempotent_witness :
  ∃ base rest,
    _force_dl1 (Some (lit "https://www.dropbox.com/s/abc/state.csv?dl=0&x=1"))
      = Some (base ++ lit "dl=1" ++ rest) ∧
    py_partition (lit "dl=") (base ++ lit "dl=1" ++ rest)
      = Some (base, lit "1" ++ rest) ∧
    (rest = [] ∨ ∃ r, r ≠ [] ∧ rest = lit "&" ++ r).
Proof.
  apply (proj2 (force_dl1_idempotent
                  (Some (lit "https://www.dropbox.com/s/abc/state.csv?dl=0&x=1")))
           (lit "https://www.dropbox.com/s/abc/state.csv?dl=0&x=1"));
    [reflexivity|discriminate].
Defined.

Section normalize.
Context `{Unicode}.
Variable basename : cell → pystr.
Import Utils.

Lemma rows_guarantee_text d c :
  rows (guarantee_text d c) = text_step (has_column c d) c <$> rows d.
Proof.
  unfold guarantee_text, text_step. destruct (has_column c d); simpl; [|done].
  by rewrite list_fmap_id.
Qed.

Lemma has_guarantee_text d c c' :
  c ≠ c' → has_column c' (guarantee_text d c) = has_column c' d.
Proof.
  intros Hc. unfold guarantee_text. destruct (has_column c d); [done|].
  rewrite has_column_set_column. by rewrite bool_decide_eq_false_2.
Qed.

Lemma has_guarantee_text_eq d c : has_column c (guarantee_text d c) = true.
Proof.
  unfold guarantee_text. destruct (has_column c d) eqn:Hc; [done|].
  rewrite has_column_set_column. by rewrite bool_decide_eq_true_2.
Qed.

Lemma normalize_base_df_rows df :
  normalize_base_df basename df =
  {| columns := list_to_set TEXT_COLS;
     rows := normalize_row basename (λ c, has_column c df) <$> rows df |}.
Proof.
  unfold normalize_base_df, select. cbv zeta. f_equal.
  cbn [foldl].
  rewrite !has_guarantee_text by (intros ?; discriminate).
  destruct (has_column URL df) eqn:Hurl; cbn [rows set_column];
    rewrite !rows_guarantee_text;
    rewrite !has_guarantee_text by (intros ?; discriminate);
    rewrite <- !list_fmap_compose; apply list_fmap_ext; intros _ r _;
    unfold normalize_row, project, text_step, compose;
    cbn [fmap list_fmap TEXT_COLS]; rewrite Hurl;
    destruct (has_column FIRST df), (has_column LAST df),
      (has_column FILE df); cells; reflexivity.
Qed.

Lemma clean_file_name_clean c :
  (47%N ∉ clean_file_name c) ∧ (92%N ∉ clean_file_name c).
Proof.
  unfold clean_file_name. split.
  - intros [Hne _]%list_elem_of_filter. done.
  - intros [_ [Hne _]%list_elem_of_filter]%list_elem_of_filter. done.
Qed.

(** X26.  [normalize_base_df] gives a table of exactly the three text
    columns with one row per input row; it keeps the first and last
    names as they are (the empty text for an absent column); and every
    file name that it gives is a text without any slash or backslash. *)
Theorem normalize_base_df_file_names df :
  columns (normalize_base_df basename df) = list_to_set TEXT_COLS ∧
  length (rows (normalize_base_df basename df)) = length (rows df) ∧
  Forall2 (λ r r',
             get_cell r' FIRST = (if has_column FIRST df then get_cell r FIRST
                                  else CStr (lit "")) ∧
             get_cell r' LAST = (if has_column LAST df then get_cell r LAST
                                 else CStr (lit "")))
          (rows df) (rows (normalize_base_df basename df)) ∧
  Forall (λ r', ∃ s, get_cell r' FILE = CStr s ∧ (47%N ∉ s) ∧ (92%N ∉ s))
         (rows (normalize_base_df basename df)).
Proof.
  rewrite normalize_base_df_rows. cbn [columns rows].
  split; [done|]. split; [by rewrite length_fmap|]. split.
  - apply Forall2_fmap_r, Forall_Forall2_diag, Forall_true.
    intros r. split; reflexivity.
  - apply Forall_fmap, Forall_true. intros r. eexists.
    split; [reflexivity|]. apply clean_file_name_clean.
Qed.

End normalize.

Section ensure_text.
Context `{Unicode}.
Import App.

(** X27.  The schema normaliser does not touch text: a text cell of a
    column that the table has comes out as it went in, a missing value
    or a number included, and the cells of an absent text column are the
    empty text; and on a table of records the normaliser is the
    identity. *)
Theorem ensure_schema_keeps_text (T : DataFrame) :
  Forall2 (λ r r', ∀ c, c ∈ TEXT_COLS →
                        get_cell r' c = if has_column c T then get_cell r c
                                        else CStr (lit ""))
          (rows T) (rows (_ensure_schema T)) ∧
  ∀ xs, _ensure_schema (table_of xs) = table_of xs.
Proof.
  split; [|apply ensure_schema_table].
  rewrite ensure_schema_rows. cbn [rows].
  apply Forall2_fmap_r, Forall_Forall2_diag, Forall_true.
  intros r c Hc. apply list_elem_of_In in Hc. cbn in Hc.
  destruct Hc as [<-|[<-|[<-|[]]]]; reflexivity.
Qed.

End ensure_text.

Section end_to_end.
Context `{Unicode}.

Lemma table_canonical xs : canonical_columns (table_of xs).
Proof.
  unfold canonical_columns. rewrite Forall_forall.
  intros c Hc. by apply has_column_table.
Qed.

Lemma table_no_scratch cs xs :
  cs ⊆ TEXT_COLS ++ BOOL_COLS → no_scratch cs (table_of xs).
Proof.
  intros Hcs. unfold no_scratch, scratch_columns. rewrite Forall_forall.
  intros c Hc. unfold has_column. apply bool_decide_eq_false_2.
  cbn [columns table_of]. rewrite elem_of_list_to_set.
  intros Hin. apply elem_of_cons in Hc as [->|Hc].
  - revert Hin. clear. compute_done.
  - apply list_elem_of_fmap in Hc as [c0 [-> Hc0]].
    apply Hcs in Hc0. revert Hin. clear -Hc0.
    apply list_elem_of_In in Hc0. cbn in Hc0.
    destruct Hc0 as [<-|[<-|[<-|[<-|[<-|[<-|[<-|[]]]]]]]]; compute_done.
Qed.

Lemma table_flags_boolean xs : flags_boolean (table_of xs).
Proof.
  unfold flags_boolean. cbn [rows table_of]. apply Forall_fmap, Forall_true.
  intros x. unfold compose.

repeat (apply Forall_cons; split; [eexists; reflexivity|]). constructor.
Qed.

Lemma table_text_strings xs : text_strings (table_of xs).
Proof.
  unfold text_strings. cbn [rows table_of]. apply Forall_fmap, Forall_true.
  intros x. unfold compose.
  repeat (apply Forall_cons; split; [eexists; reflexivity|]). constructor.
Qed.

Lemma table_insert_flag xs i x c b :
  c ∈ BOOL_COLS →
  {| columns := columns (table_of xs);
     rows := <[i := <[c := CBool b]> (row_of x)]> (rows (table_of xs)) |}
  = table_of (<[i := set_flag c b x]> xs).
Proof.
  intros Hc. unfold table_of. cbn [columns rows]. f_equal.
  rewrite list_fmap_insert. by rewrite insert_flag_record.
Qed.

Lemma key_set_flag xs i x c b :
  xs !! i = Some x →
  App._key (table_of (<[i := set_flag c b x]> xs)) = App._key (table_of xs).
Proof.
  intros Hx. unfold App._key. cbn [rows table_of].
  rewrite <- !list_fmap_compose. rewrite list_fmap_insert.
  apply list_insert_id. rewrite list_lookup_fmap, Hx. reflexivity.
Qed.

(** X28.  From the checkbox to the upload in app_schneider.py.  On a
    table of records whose keys do not repeat, ticking a checkbox in
    row [i] of the unfiltered grid and clicking "Save now" uploads, once,
    the table in which record [i] has that flag set and nothing else
    differs. *)
Theorem schneider_tick_and_save_uploads_edit xs i x c v t w s :
  NoDup (App._key (table_of xs)) →
  (0 ≤ i)%Z → xs !! Z.to_nat i = Some x → c ∈ BOOL_COLS →
  Schneider.df s = table_of xs → Schneider.prev_filter s = false →
  Schneider.dbx_configured (w SaveNow) = true →
  ∃ grid delta,
    _reset_grid (table_of xs) = Some grid ∧
    Schneider._build_delta_from_editor grid [(i, [(c, v)])] = Some delta ∧
    Schneider._apply_optimistic (table_of xs) delta
      = Some (table_of (<[Z.to_nat i := set_flag c (bool_of_value v) x]> xs)) ∧
    filter (λ e, is_upload e = true)
      (Schneider.pass
         (sch_edit_and_save t
            (table_of (<[Z.to_nat i := set_flag c (bool_of_value v) x]> xs)))
         w s).2
    = [EUpload (serialize
                  (table_of (<[Z.to_nat i := set_flag c (bool_of_value v) x]>
                               xs)))].
Proof.
  intros Hk Hi Hx Hc Hd Hp Hw.
  destruct (schneider_tick_one_row (table_of xs) i (row_of x) c v)
    as (grid & delta & Hg & Hb & Ha);
    [apply table_canonical
    |apply table_no_scratch; intros c0 ?; apply elem_of_app; by right
    |apply table_flags_boolean|done|done| |done|].
  { cbn [rows table_of]. by rewrite list_lookup_fmap, Hx. }
  exists grid, delta. split; [done|]. split; [done|]. split.
  - rewrite Ha. f_equal. by apply table_insert_flag.
  - by apply (schneider_save_now_once
                (sch_edit_and_save t
                   (table_of (<[Z.to_nat i := set_flag c (bool_of_value v) x]>
                                xs))) w s).
Qed.

(** X29.  From the checkbox to the upload in app_capgemini.py.  On a
    table of records whose keys do not repeat, when the remote table is
    still the base snapshot, ticking a checkbox in row [i] of the
    unfiltered grid and flushing uploads the table in which record [i]
    has that flag set and nothing else differs; on success it becomes
    the working table and the base snapshot. *)
Theorem capgemini_tick_and_flush_uploads_edit xs i x c v w s
    ok_text err_text :
  NoDup (App._key (table_of xs)) →
  (0 ≤ i)%Z → xs !! Z.to_nat i = Some x → c ∈ BOOL_COLS →
  Capgemini.df s = table_of xs →
  Capgemini.base_df s = Some (table_of xs) →
  fetched w (table_of xs) →
  ∃ grid delta,
    _reset_grid (table_of xs) = Some grid ∧
    Capgemini._build_delta_from_editor grid [(i, [(c, v)])] = Some delta ∧
    Capgemini._apply_optimistic (table_of xs) delta
      = Some (table_of (<[Z.to_nat i := set_flag c (bool_of_value v) x]> xs)) ∧
    Capgemini._flush_to_disk ok_text err_text w
      (Capgemini.with_df
         (table_of (<[Z.to_nat i := set_flag c (bool_of_value v) x]> xs)) s)
    = match Capgemini.upload w
              (serialize
                 (table_of (<[Z.to_nat i := set_flag c (bool_of_value v) x]>
                              xs))) with
      | None =>
          (Capgemini.with_base_df
             (Some (table_of (<[Z.to_nat i := set_flag c (bool_of_value v) x]>
                                xs)))
             (Capgemini.with_df
                (table_of (<[Z.to_nat i := set_flag c (bool_of_value v) x]>
                             xs))
                (Capgemini.with_flush_flags (Capgemini.clock w)
                   (Capgemini.with_df
                      (table_of
                         (<[Z.to_nat i := set_flag c (bool_of_value v) x]> xs))
                      s))),
           [EUpload (serialize
                       (table_of
                          (<[Z.to_nat i := set_flag c (bool_of_value v) x]>
                             xs)));
            EToast ok_text])
      | Some err =>
          (Capgemini.with_flush_flags (Capgemini.clock w)
             (Capgemini.with_df
                (table_of (<[Z.to_nat i := set_flag c (bool_of_value v) x]>
                             xs)) s),
           [EUpload (serialize
                       (table_of
                          (<[Z.to_nat i := set_flag c (bool_of_value v) x]>
                             xs)));
            EError (err_text +:+ ": " +:+ err)])
      end.
Proof.
  intros Hk Hi Hx Hc Hd Hb Hw.
  destruct (capgemini_tick_one_row (table_of xs) i (row_of x) c v)
    as (grid & delta & Hg & Hbd & Ha);
    [apply table_canonical|by apply table_no_scratch
    |apply table_flags_boolean|apply table_text_strings|done|done| |done|].
  { cbn [rows table_of]. by rewrite list_lookup_fmap, Hx. }
  exists grid, delta. split; [done|]. split; [done|]. split.
  - rewrite Ha. f_equal. by apply table_insert_flag.
  - apply (flush_fast_forward_laws ok_text err_text w _ xs).
    + symmetry. by apply key_set_flag.
    + by destruct s.
    + left. split; [by destruct s|done].
Qed.

End end_to_end.

Lemma schneider_tick_and_save_uploads_edit_witness :
  let xs := [alice; bob] in
  let ys := <[Z.to_nat 1 := set_flag CONT (bool_of_value (VBool true)) bob]> xs in
  ∃ grid delta,
    _reset_grid (table_of xs) = Some grid ∧
    Schneider._build_delta_from_editor grid [(1, [(CONT, VBool true)])]
      = Some delta ∧
    Schneider._apply_optimistic (H := latin) (table_of xs) delta
      = Some (table_of ys) ∧
    filter (λ e, is_upload e = true)
      (Schneider.pass (H := latin) (sch_edit_and_save 45%Q (table_of ys))
         (λ _, sch_world None 45%Q) (sch_session (table_of xs) false)).2
    = [EUpload (serialize (H := latin) (table_of ys))].
Proof.
  intros xs ys.
  apply (schneider_tick_and_save_uploads_edit (H := latin) xs 1 bob CONT
           (VBool true) 45%Q (λ _, sch_world None 45%Q)
           (sch_session (table_of xs) false));
    try reflexivity; try decided.
  all: try lia.
Defined.

Lemma capgemini_tick_and_flush_uploads_edit_witness :
  let xs := [alice; bob] in
  let ys := <[Z.to_nat 0 := set_flag SAVE (bool_of_value (VBool true)) alice]> xs in
  let w := cap_world (table_of xs) None 7%Q in
  let s := cap_session (table_of xs) in
  ∃ grid delta,
    _reset_grid (table_of xs) = Some grid ∧
    Capgemini._build_delta_from_editor grid [(0, [(SAVE, VBool true)])]
      = Some delta ∧
    Capgemini._apply_optimistic (H := latin) (table_of xs) delta
      = Some (table_of ys) ∧
    Capgemini._flush_to_disk (H := latin) "Saved ✅" "Save failed" w
      (Capgemini.with_df (table_of ys) s)
    = match Capgemini.upload w (serialize (H := latin) (table_of ys)) with
      | None =>
          (Capgemini.with_base_df (Some (table_of ys))
             (Capgemini.with_df (table_of ys)
                (Capgemini.with_flush_flags (Capgemini.clock w)
                   (Capgemini.with_df (table_of ys) s))),
           [EUpload (serialize (H := latin) (table_of ys)); EToast "Saved ✅"])
      | Some err =>
          (Capgemini.with_flush_flags (Capgemini.clock w)
             (Capgemini.with_df (table_of ys) s),
           [EUpload (serialize (H := latin) (table_of ys));
            EError ("Save failed" +:+ ": " +:+ err)])
      end.
Proof.
  intros xs ys w s.
  apply (capgemini_tick_and_flush_uploads_edit (H := latin) xs 0 alice SAVE
           (VBool true) w s "Saved ✅" "Save failed");
    try reflexivity; try decided.
  all: try lia.
  left. exists (table_of xs). split; [reflexivity|]. vm_compute. reflexivity.
Defined.
